(** * gg_obs: tournament overlay helper.

    A shallow embedding of [match_scene_handler.py] (roster store and source
    synchronizer) and [bracket_handler.py] (bracket client), with the
    properties of the specification proved over it.

    Layout: the data model and the Python operations the code relies on,
    then the two modules function by function, then the theorems. *)

From Stdlib Require Import ZArith String Ascii List Lia.
From stdpp Require Import base option list gmap strings fin_maps pretty sorting.

Local Open Scope string_scope.
Local Open Scope Z_scope.
Local Open Scope list_scope.

Set Warnings "-register-all,-clear-no-such-hyp".

(* ===================================================================== *)
(** ** Values *)
(* ===================================================================== *)

(** What [json.load] / [json.loads] hand to the program.  An object is the
    list of its items in insertion order, as a Python [dict] keeps them (the
    parser never yields a key twice).  [JNull] is Python's [None].  Numbers
    are the integers; fractional numbers do not occur in the roster file or
    in the bracket API and are outside the model. *)
Inductive json : Type :=
| JNull
| JBool (b : bool)
| JInt (z : Z)
| JStr (s : string)
| JArr (l : list json)
| JObj (o : list (string * json)).

(** The exceptions the two modules can let escape. *)
Inductive exn : Type :=
| KeyError | TypeError | AttributeError | IndexError | ValueError
| UnicodeDecodeError | PermissionError.

Inductive res (A : Type) : Type :=
| Ok (a : A)
| Raise (e : exn).
Arguments Ok {A} a.
Arguments Raise {A} e.

(** Statements of the program: a state [S] is threaded through, and a raised
    exception stops the statement, keeping the state reached so far. *)
Definition M (S A : Type) : Type := S → res A * S.

Global Instance M_ret {S} : MRet (M S) := λ A a s, (Ok a, s).
Global Instance M_bind {S} : MBind (M S) := λ A B f m s,
  match m s with
  | (Ok a, s') => f a s'
  | (Raise e, s') => (Raise e, s')
  end.

(** Expressions that read no state: evaluation either yields a value or
    raises. *)
Global Instance res_ret : MRet res := λ A a, Ok a.
Global Instance res_bind : MBind res := λ A B f r,
  match r with
  | Ok a => f a
  | Raise e => Raise e
  end.

Definition lift {S A} (r : res A) : M S A := λ s, (r, s).
Definition gets {S A} (f : S → A) : M S A := λ s, (Ok (f s), s).
Definition modify {S} (f : S → S) : M S unit := λ s, (Ok tt, f s).

(** A [for] loop over a list: the body runs for each element in order. *)
Fixpoint for_each {S A} (l : list A) (body : A → M S unit) : M S unit :=
  match l with
  | [] => mret tt
  | x :: l' => body x ;; for_each l' body
  end.

(* ===================================================================== *)
(** ** Python operations used by the code *)
(* ===================================================================== *)

Module Py.

(** [bool(s)] for a string. *)
Definition nonempty (s : string) : bool := negb (String.eqb s "").

(** [bool(v)]: the test behind [if v], [not v], [a and b]. *)
Definition truthy (v : json) : bool :=
  match v with
  | JNull => false
  | JBool b => b
  | JInt z => negb (z =? 0)
  | JStr s => nonempty s
  | JArr l => match l with [] => false | _ => true end
  | JObj o => match o with [] => false | _ => true end
  end.

(** Lookup of a key among the items of a dict. *)
Fixpoint assoc {A} (k : string) (o : list (string * A)) : option A :=
  match o with
  | [] => None
  | (k', v) :: o' => if String.eqb k' k then Some v else assoc k o'
  end.

(** [v[k]] for a string key [k]. *)
Definition getitem (v : json) (k : string) : res json :=
  match v with
  | JObj o => match assoc k o with Some x => Ok x | None => Raise KeyError end
  | _ => Raise TypeError
  end.

(** [v.get(k, d)]: only a dict has the method. *)
Definition get (v : json) (k : string) (d : json) : res json :=
  match v with
  | JObj o => Ok (default d (assoc k o))
  | _ => Raise AttributeError
  end.

(** [v.values()] and [v.items()]. *)
Definition values (v : json) : res (list json) :=
  match v with
  | JObj o => Ok (map snd o)
  | _ => Raise AttributeError
  end.

Definition items (v : json) : res (list (string * json)) :=
  match v with
  | JObj o => Ok o
  | _ => Raise AttributeError
  end.

(** [s.startswith(p)]. *)
Fixpoint startswith (p s : string) : bool :=
  match p, s with
  | EmptyString, _ => true
  | String a p', String b s' => if Ascii.eqb a b then startswith p' s' else false
  | String _ _, EmptyString => false
  end.

(** [p in s] for two strings: [p] occurs in [s]. *)
Fixpoint occurs (p s : string) : bool :=
  startswith p s ||
  match s with
  | EmptyString => false
  | String _ s' => occurs p s'
  end.

Definition json_is_str (k : string) (v : json) : bool :=
  match v with JStr s => String.eqb s k | _ => false end.

(** [k in v] for a string [k]. *)
Definition contains (k : string) (v : json) : res bool :=
  match v with
  | JObj o => Ok (bool_decide (is_Some (assoc k o)))
  | JArr l => Ok (existsb (json_is_str k) l)
  | JStr s => Ok (occurs k s)
  | _ => Raise TypeError
  end.

(** The one-character strings of [s].  Strings are kept as bytes; the code
    only ever asks whether such a sequence is empty or has a second element
    before failing on its first. *)
Fixpoint chars (s : string) : list json :=
  match s with
  | EmptyString => []
  | String a s' => JStr (String a EmptyString) :: chars s'
  end.

(** The elements a [for] loop over [v] visits. *)
Definition iter (v : json) : res (list json) :=
  match v with
  | JArr l => Ok l
  | JObj o => Ok (map (λ kv, JStr kv.1) o)
  | JStr s => Ok (chars s)
  | _ => Raise TypeError
  end.

(** [len(v)]. *)
Definition len (v : json) : res nat :=
  match v with
  | JArr l => Ok (length l)
  | JObj o => Ok (length o)
  | JStr s => Ok (String.length s)
  | _ => Raise TypeError
  end.

(** [v[i]] for a non-negative integer [i]. *)
Definition index (v : json) (i : nat) : res json :=
  match v with
  | JArr l => match l !! i with Some x => Ok x | None => Raise IndexError end
  | JStr s => match chars s !! i with Some x => Ok x | None => Raise IndexError end
  | JObj _ => Raise KeyError
  | _ => Raise TypeError
  end.

(** [t[i]] on a tuple. *)
Definition tuple_index (t : list json) (i : nat) : res json :=
  match t !! i with Some x => Ok x | None => Raise IndexError end.

(** The key of an [int]-keyed dict that [v] is equal to ([True == 1]); a list
    or a dict is unhashable, any other value is equal to no [int]. *)
Definition int_key (v : json) : res (option Z) :=
  match v with
  | JInt z => Ok (Some z)
  | JBool b => Ok (Some (if b then 1 else 0))
  | JNull | JStr _ => Ok None
  | JArr _ | JObj _ => Raise TypeError
  end.

End Py.

(* ===================================================================== *)
(** ** The host application *)
(* ===================================================================== *)

(** Modelled from the spec: the Presentation Surface, that is the [obs]
    module handed to every function of [match_scene_handler.py] by the host
    and not part of the repository.  A source has a name and string
    settings; sources are enumerated in a fixed order and a handle is the
    position of its source in that order. *)
Record source : Type := Source {
  src_name : string;
  src_settings : gmap string string;
}.

Definition src_rename (n : string) (s : source) : source :=
  Source n (src_settings s).

(** [obs_source_update]: the given settings are merged over the old ones. *)
Definition src_update (d : gmap string string) (s : source) : source :=
  Source (src_name s) (d ∪ src_settings s).

Fixpoint first_named (n : string) (l : list source) : option nat :=
  match l with
  | [] => None
  | s :: l' => if String.eqb (src_name s) n then Some 0%nat
               else S <$> first_named n l'
  end.

(* ===================================================================== *)
(** ** The data model of [match_scene_handler.py] *)
(* ===================================================================== *)

(** [class Team]: a position is [None] or the tuple built by [load_roster]. *)
Module Team.
Record t : Type := Team {
  name : string;
  helm : option (list json);
  flex : option (list json);
  mc : option (list json);
  bilge : option (list json);
}.
End Team.

(** The module state: the global [TEAM_ROSTER], the sources of the host and
    what has been printed. *)
Record scene_state : Type := SceneState {
  TEAM_ROSTER : gmap string Team.t;
  sources : list source;
  scene_out : list string;
}.

Definition set_roster (f : gmap string Team.t → gmap string Team.t)
    (st : scene_state) : scene_state :=
  SceneState (f (TEAM_ROSTER st)) (sources st) (scene_out st).

Definition set_sources (f : list source → list source)
    (st : scene_state) : scene_state :=
  SceneState (TEAM_ROSTER st) (f (sources st)) (scene_out st).

(** What opening and parsing [roster.json] comes to: the two failures
    [load_roster] has a handler for, any other exception of [open] or
    [json.load] ([UnicodeDecodeError] on bytes that are not UTF-8,
    [PermissionError] on a file that may not be read), or the parsed
    value. *)
Inductive file_read : Type :=
| FileNotFound
| InvalidJSON (e : string)
| ReadRaises (e : exn)
| Parsed (data : json).

(* ===================================================================== *)
(** ** The data model of [bracket_handler.py] *)
(* ===================================================================== *)

(** The module globals and what has been printed.  A side of a match is the
    resolved name, [JNull] when there is none. *)
Record bracket_state : Type := BracketState {
  API_KEY : string;
  TOURNAMENT_ID : string;
  PARTICIPANTS : gmap Z json;
  MATCHES : gmap Z (json * json);
  bracket_out : list string;
}.

Definition set_participants (p : gmap Z json) (st : bracket_state) :=
  BracketState (API_KEY st) (TOURNAMENT_ID st) p (MATCHES st) (bracket_out st).

Definition set_matches (f : gmap Z (json * json) → gmap Z (json * json))
    (st : bracket_state) :=
  BracketState (API_KEY st) (TOURNAMENT_ID st) (PARTICIPANTS st)
    (f (MATCHES st)) (bracket_out st).

(** What [urlopen], [read] and [json.loads] come to for one request: one of
    the four failures [_api_request] distinguishes, or the decoded payload.
    [body] is [None] when reading the error body fails as well. *)
Inductive http_outcome : Type :=
| HTTPError (code : Z) (reason : string) (body : option string)
| URLError (reason : string)
| JSONDecodeError (e : string)
| OtherError (e : string)
| Payload (j : json).

Section Program.

(** Three things the program takes from its environment: Python's [repr] of
    a list or dict (what an f-string inserts for such a value), Python's
    [int] on a string ([None] when it raises [ValueError]), and the path of
    the roster file, computed from the location of the script. *)
Variable repr_container : json → string.
Variable int_of_str : string → option Z.
Variable ROSTER_FILE : string.

(** And the text an f-string inserts for each of the two dicts of the
    bracket client. *)
Variable str_participants : gmap Z json → string.
Variable str_matches : gmap Z (json * json) → string.

Set Default Proof Using "Type".

(** [str(v)], what [f"{v}"] inserts. *)
Definition py_str (v : json) : string :=
  match v with
  | JNull => "None"
  | JBool true => "True"
  | JBool false => "False"
  | JInt z => pretty z
  | JStr s => s
  | JArr _ | JObj _ => repr_container v
  end.

(** [int(v)]. *)
Definition py_int (v : json) : res Z :=
  match v with
  | JInt z => Ok z
  | JBool b => Ok (if b then 1 else 0)
  | JStr s => match int_of_str s with Some z => Ok z | None => Raise ValueError end
  | JNull | JArr _ | JObj _ => Raise TypeError
  end.

(* ===================================================================== *)
(** ** [match_scene_handler.py] *)
(* ===================================================================== *)

Definition scene_print (msg : string) : M scene_state unit :=
  modify (λ st, SceneState (TEAM_ROSTER st) (sources st) (scene_out st ++ [msg])).

(** *** Roster management *)

(** One keyword argument of the [Team(...)] call in [load_roster]:
    [tuple(team_data[slot].values())
       if team_data.get(slot) and team_data[slot].get("name") else None]. *)
Definition position_tup (team_data : json) (slot : string)
    : res (option (list json)) :=
  present ← Py.get team_data slot JNull;
  cond ← (if Py.truthy present
          then record ← Py.getitem team_data slot; Py.get record "name" JNull
          else mret present);
  if Py.truthy cond
  then record ← Py.getitem team_data slot;
       vs ← Py.values record;
       mret (Some vs)
  else mret None.

(** The [Team(...)] call: the arguments are evaluated in the order written,
    helm, mc, flex, bilge. *)
Definition make_team (team_name : string) (team_data : json) : res Team.t :=
  helm_tup ← position_tup team_data "helm";
  mc_tup ← position_tup team_data "mc";
  flex_tup ← position_tup team_data "flex";
  bilge_tup ← position_tup team_data "bilge";
  mret (Team.Team team_name helm_tup flex_tup mc_tup bilge_tup).

(** The two handlers of [load_roster] are for [FileNotFoundError] and
    [json.JSONDecodeError]; only the read can raise these, and it comes
    before [TEAM_ROSTER.clear()].  Any other exception, of the read or of
    the loop, leaves the function. *)
Definition load_roster (file : file_read) : M scene_state unit :=
  match file with
  | Parsed data =>
      modify (set_roster (λ _, ∅));;
      teams ← lift (Py.getitem data "teams");
      its ← lift (Py.items teams);
      for_each its (λ '(team_name, team_data),
        team ← lift (make_team team_name team_data);
        modify (set_roster <[team_name := team]>));;
      n ← gets (λ st, size (TEAM_ROSTER st));
      scene_print ("[Tournament] Loaded " +:+ pretty n +:+ " teams from roster.json")
  | FileNotFound =>
      scene_print ("[Tournament] roster.json not found at " +:+ ROSTER_FILE)
  | InvalidJSON e =>
      scene_print ("[Tournament] Invalid JSON in roster.json: " +:+ e)
  | ReadRaises e => lift (Raise e)
  end.

Definition get_team (team_name : string) : M scene_state (option Team.t) :=
  gets (λ st, TEAM_ROSTER st !! team_name).

(** [sorted(TEAM_ROSTER.keys())]: strings in ascending order, compared
    character by character. *)
Definition get_team_names : M scene_state (list string) :=
  gets (λ st, merge_sort String.le (map_to_list (TEAM_ROSTER st)).*1).

(** *** Source configuration *)

Definition T1_NAME_SOURCE := "Team 1".
Definition T2_NAME_SOURCE := "Team 2".

Definition T1_HELM_PREFIX := "T1H -".
Definition T1_MC_PREFIX := "T1MC -".
Definition T1_FLEX_PREFIX := "T1F -".
Definition T1_BILGE_PREFIX := "T1B -".

Definition T2_HELM_PREFIX := "T2H -".
Definition T2_MC_PREFIX := "T2MC -".
Definition T2_FLEX_PREFIX := "T2F -".
Definition T2_BILGE_PREFIX := "T2B -".

(** *** Helper functions *)

Definition build_twitch_url (channel : json) : string :=
  if negb (Py.truthy channel) then ""
  else "https://player.twitch.tv/?channel=" +:+ py_str channel
       +:+ "&enableExtensions=true&muted=false&parent=twitch.tv"
       +:+ "&player=popout&quality=480p30&volume=0.69".

Definition get_twitch_link (position_tup : option (list json)) : res json :=
  match position_tup with
  | None => Ok JNull
  | Some t => Py.tuple_index t 1
  end.

Definition get_player_name (position_tup : option (list json)) : res json :=
  match position_tup with
  | None => Ok JNull
  | Some t => Py.tuple_index t 0
  end.

(** *** The calls into the host *)

Definition obs_enum_sources : M scene_state (list nat) :=
  gets (λ st, seq 0 (length (sources st))).

Definition obs_source_get_name (h : nat) : M scene_state (option string) :=
  gets (λ st, src_name <$> sources st !! h).

Definition obs_get_source_by_name (n : string) : M scene_state (option nat) :=
  gets (λ st, first_named n (sources st)).

Definition obs_source_set_name (h : nat) (n : string) : M scene_state unit :=
  modify (set_sources (alter (src_rename n) h)).

Definition obs_source_update (h : nat) (d : gmap string string)
    : M scene_state unit :=
  modify (set_sources (alter (src_update d) h)).

(** *** Source manipulation *)

(** The loop of [find_source_by_prefix], left at the first hit. *)
Fixpoint find_source_loop (prefix : string) (hs : list nat)
    : M scene_state (option string) :=
  match hs with
  | [] => mret None
  | h :: hs' =>
      name ← obs_source_get_name h;
      match name with
      | Some n =>
          if Py.nonempty n && Py.startswith prefix n then mret (Some n)
          else find_source_loop prefix hs'
      | None => find_source_loop prefix hs'
      end
  end.

Definition find_source_by_prefix (prefix : string)
    : M scene_state (option string) :=
  hs ← obs_enum_sources;
  find_source_loop prefix hs.

Definition str_or_none (o : option string) : string :=
  match o with Some s => s | None => "None" end.

Definition set_browser_source_url (prefix : string)
    (player_name twitch_username : json) : M scene_state unit :=
  if negb (Py.nonempty prefix) then mret tt else
  source_name ← find_source_by_prefix prefix;
  scene_print ("[Tournament] Found Source " +:+ str_or_none source_name
               +:+ " from " +:+ prefix);;
  if negb (Py.nonempty (default "" source_name))
  then scene_print ("[Tournament] No source found with prefix: " +:+ prefix)
  else
  source ← obs_get_source_by_name (default "" source_name);
  match source with
  | None =>
      scene_print ("[Tournament] Source not found: " +:+ default "" source_name)
  | Some h =>
      let new_name :=
        if Py.truthy player_name then prefix +:+ " " +:+ py_str player_name
        else prefix in
      obs_source_set_name h new_name;;
      url ← (if negb (Py.truthy twitch_username)
             then scene_print ("[Tournament] Clearing " +:+ new_name);;
                  mret ""
             else scene_print ("[Tournament] Updated " +:+ new_name +:+ " -> "
                               +:+ py_str twitch_username);;
                  mret (build_twitch_url twitch_username));
      obs_source_update h {[ "url" := url ]}
  end.

Definition set_text_source (source_name text : string) : M scene_state unit :=
  if negb (Py.nonempty source_name) then mret tt else
  source ← obs_get_source_by_name source_name;
  match source with
  | None => scene_print ("[Tournament] Text source not found: " +:+ source_name)
  | Some h =>
      obs_source_update h {[ "text" := text ]};;
      scene_print ("[Tournament] Updated text " +:+ source_name +:+ " -> " +:+ text)
  end.

(** The arguments of each call are evaluated before the call, the name
    before the link. *)
Definition apply_team_to_sources (team : Team.t)
    (name_source helm_prefix mc_prefix flex_prefix bilge_prefix : string)
    : M scene_state unit :=
  set_text_source name_source (Team.name team);;
  n ← lift (get_player_name (Team.helm team));
  l ← lift (get_twitch_link (Team.helm team));
  set_browser_source_url helm_prefix n l;;
  n ← lift (get_player_name (Team.mc team));
  l ← lift (get_twitch_link (Team.mc team));
  set_browser_source_url mc_prefix n l;;
  n ← lift (get_player_name (Team.flex team));
  l ← lift (get_twitch_link (Team.flex team));
  set_browser_source_url flex_prefix n l;;
  n ← lift (get_player_name (Team.bilge team));
  l ← lift (get_twitch_link (Team.bilge team));
  set_browser_source_url bilge_prefix n l.

Definition execute_transition (team1_name team2_name : string)
    : M scene_state unit :=
  scene_print ("[Tournament] Executing transition: " +:+ team1_name
               +:+ " vs " +:+ team2_name);;
  team1 ← get_team team1_name;
  match team1 with
  | Some team =>
      apply_team_to_sources team T1_NAME_SOURCE T1_HELM_PREFIX T1_MC_PREFIX
        T1_FLEX_PREFIX T1_BILGE_PREFIX
  | None =>
      scene_print ("[Tournament] Team 1 not found in roster: " +:+ team1_name)
  end;;
  team2 ← get_team team2_name;
  match team2 with
  | Some team =>
      apply_team_to_sources team T2_NAME_SOURCE T2_HELM_PREFIX T2_MC_PREFIX
        T2_FLEX_PREFIX T2_BILGE_PREFIX
  | None =>
      scene_print ("[Tournament] Team 2 not found in roster: " +:+ team2_name)
  end;;
  scene_print "[Tournament] Transition complete!".

(* ===================================================================== *)
(** ** [bracket_handler.py] *)
(* ===================================================================== *)

Definition bracket_print (msg : string) : M bracket_state unit :=
  modify (λ st, BracketState (API_KEY st) (TOURNAMENT_ID st) (PARTICIPANTS st)
                  (MATCHES st) (bracket_out st ++ [msg])).

(** *** Credentials *)

Definition newline : string := String "010" "".

Definition set_credentials (api_key tournament_id : string)
    : M bracket_state unit :=
  modify (λ st, BracketState api_key tournament_id (PARTICIPANTS st)
                  (MATCHES st) (bracket_out st));;
  key ← gets API_KEY;
  tid ← gets TOURNAMENT_ID;
  bracket_print ("[Challonge] Credentials set: " +:+ key +:+ " " +:+ newline
                 +:+ tid).

(** *** API helpers *)

(** [net] is the remote side: what a GET of a URL comes to.  The function
    returns the decoded payload, or [None] after printing the failure. *)
Definition _api_request (net : string → http_outcome) (endpoint : string)
    : M bracket_state json :=
  key ← gets API_KEY;
  if negb (Py.nonempty key)
  then bracket_print "[Challonge] API key not set";; mret JNull
  else
  let base_url := "https://api.challonge.com/v2.1" in
  let url := base_url +:+ endpoint in
  match net url with
  | Payload j => mret j
  | HTTPError code reason body =>
      bracket_print ("[Challonge] HTTP Error " +:+ pretty code +:+ ": " +:+ reason);;
      match body with
      | Some error_body =>
          bracket_print ("[Challonge] Error details: " +:+ error_body)
      | None => mret tt
      end;;
      mret JNull
  | URLError reason =>
      bracket_print ("[Challonge] URL Error: " +:+ reason);; mret JNull
  | JSONDecodeError e =>
      bracket_print ("[Challonge] JSON decode error: " +:+ e);; mret JNull
  | OtherError e =>
      bracket_print ("[Challonge] Unexpected error: " +:+ e);; mret JNull
  end.

(** *** Tournament API *)

(** [result and "data" in result], as the condition of an [if]. *)
Definition has_data (result : json) : res bool :=
  if Py.truthy result then Py.contains "data" result else mret false.

(** The dict comprehension of [get_participants]: key before value, a later
    record with the same id replaces an earlier one. *)
Fixpoint participants_of (ps : list json) (acc : gmap Z json)
    : res (gmap Z json) :=
  match ps with
  | [] => mret acc
  | p :: ps' =>
      id ← Py.getitem p "id";
      k ← py_int id;
      attributes ← Py.getitem p "attributes";
      name ← Py.getitem attributes "name";
      participants_of ps' (<[k := name]> acc)
  end.

Definition get_participants (net : string → http_outcome)
    : M bracket_state unit :=
  tid ← gets TOURNAMENT_ID;
  if negb (Py.nonempty tid)
  then bracket_print "[Challonge] Tournament ID not set"
  else
  result ← _api_request net ("/tournaments/" +:+ tid +:+ "/participants.json");
  ok ← lift (has_data result);
  if (ok : bool) then
    data ← lift (Py.getitem result "data");
    ps ← lift (Py.iter data);
    new ← lift (participants_of ps ∅);
    modify (set_participants new);;
    n ← gets (λ st, size (PARTICIPANTS st));
    bracket_print ("[Challonge] Loaded " +:+ pretty n +:+ " participants")
  else mret tt.

(** [points[i]["participant_id"] if len(points) > i else None]. *)
Definition side_id (points : json) (i : nat) : res json :=
  n ← Py.len points;
  if bool_decide (i < n)%nat
  then e ← Py.index points i; Py.getitem e "participant_id"
  else mret JNull.

(** [PARTICIPANTS.get(id, None)]. *)
Definition participants_get (id : json) : M bracket_state json :=
  ps ← gets PARTICIPANTS;
  k ← lift (Py.int_key id);
  mret (match k with Some z => default JNull (ps !! z) | None => JNull end).

(** The body of the loop of [get_matches]; in the assignment the pair is
    evaluated before the key. *)
Definition match_loop_body (m : json) : M bracket_state unit :=
  attrs ← lift (Py.getitem m "attributes");
  play_order ← lift (Py.get attrs "suggested_play_order" JNull);
  match play_order with
  | JNull => mret tt
  | _ =>
      points ← lift (Py.get attrs "points_by_participant" (JArr []));
      p1_id ← lift (side_id points 0);
      p2_id ← lift (side_id points 1);
      t1 ← participants_get p1_id;
      t2 ← participants_get p2_id;
      k ← lift (py_int play_order);
      modify (set_matches <[k := (t1, t2)]>)
  end.

Definition get_matches (net : string → http_outcome) : M bracket_state unit :=
  tid ← gets TOURNAMENT_ID;
  if negb (Py.nonempty tid)
  then bracket_print "[Challonge] Tournament ID not set"
  else
  let endpoint := "/tournaments/" +:+ tid +:+ "/matches.json" in
  result ← _api_request net endpoint;
  ok ← lift (has_data result);
  if (ok : bool) then
    modify (set_matches (λ _, ∅));;
    data ← lift (Py.getitem result "data");
    ms ← lift (Py.iter data);
    for_each ms match_loop_body;;
    n ← gets (λ st, size (MATCHES st));
    bracket_print ("[Challonge] Loaded " +:+ pretty n +:+ " matches")
  else mret tt.

Definition refresh_bracket (net : string → http_outcome)
    : M bracket_state unit :=
  get_participants net;;
  get_matches net;;
  ps ← gets PARTICIPANTS;
  bracket_print ("[Challonge] Participants: " +:+ str_participants ps);;
  ms ← gets MATCHES;
  bracket_print ("[Challonge] Matches: " +:+ str_matches ms).

(** The name of the text source of side [s] of game [game_num]. *)
Definition source_key (game_num : Z) (s : string) : string :=
  "G" +:+ pretty game_num +:+ "_T" +:+ s.

Definition get_bracket_text_sources : M bracket_state (gmap string json) :=
  gets (λ st,
    map_fold (λ (game_num : Z) (names : json * json) sources,
                let '(t1_name, t2_name) := names in
                <[source_key game_num "2" := t2_name]>
                  (<[source_key game_num "1" := t1_name]> sources))
             (∅ : gmap string json) (MATCHES st)).

(* ===================================================================== *)
(** ** Vocabulary of the statements *)
(* ===================================================================== *)

(** The URL a request for [endpoint] goes to. *)
Definition api_url (endpoint : string) : string :=
  "https://api.challonge.com/v2.1" +:+ endpoint.

Definition participants_url (st : bracket_state) : string :=
  api_url ("/tournaments/" +:+ TOURNAMENT_ID st +:+ "/participants.json").

Definition matches_url (st : bracket_state) : string :=
  api_url ("/tournaments/" +:+ TOURNAMENT_ID st +:+ "/matches.json").

(** A fetch failure: transport error, HTTP error status, undecodable
    payload, or anything else [_api_request] catches. *)
Definition fetch_failed (o : http_outcome) : Prop :=
  match o with
  | Payload _ => False
  | _ => True
  end.

(** The state after some lines have been printed and nothing else changed. *)
Definition bracket_logged (st : bracket_state) (msgs : list string)
    : bracket_state :=
  BracketState (API_KEY st) (TOURNAMENT_ID st) (PARTICIPANTS st) (MATCHES st)
    (bracket_out st ++ msgs).

Definition scene_logged (st : scene_state) (msgs : list string) : scene_state :=
  SceneState (TEAM_ROSTER st) (sources st) (scene_out st ++ msgs).


(** The four positions of a team, the key of each in the roster file and
    the field of [Team] it ends up in. *)
Inductive slot : Type := Helm | Flex | Mc | Bilge.

Definition slot_key (s : slot) : string :=
  match s with
  | Helm => "helm" | Flex => "flex" | Mc => "mc" | Bilge => "bilge"
  end.

Definition position (s : slot) (t : Team.t) : option (list json) :=
  match s with
  | Helm => Team.helm t | Flex => Team.flex t
  | Mc => Team.mc t | Bilge => Team.bilge t
  end.

(** The JSON record of a slot in a team record, and the ["name"] field of
    such a record, when there is one. *)
Definition slot_record (team_data : json) (s : slot) : option json :=
  match team_data with
  | JObj fields => Py.assoc (slot_key s) fields
  | _ => None
  end.

Definition name_field (record : json) : option json :=
  match record with
  | JObj fields => Py.assoc "name" fields
  | _ => None
  end.


(** A source matches a prefix when its name is non-empty and starts with
    it; [first_match] is the position of the first such source in
    enumeration order. *)
Definition matches (prefix : string) (s : source) : bool :=
  Py.nonempty (src_name s) && Py.startswith prefix (src_name s).

Fixpoint first_match (prefix : string) (l : list source) : option nat :=
  match l with
  | [] => None
  | s :: l' => if matches prefix s then Some 0%nat
               else S <$> first_match prefix l'
  end.

(** The name [find_source_by_prefix] returns. *)
Fixpoint find_name (prefix : string) (l : list source) : option string :=
  match l with
  | [] => None
  | s :: l' => if matches prefix s then Some (src_name s)
               else find_name prefix l'
  end.

(** The name and the URL a position source is given. *)
Definition new_source_name (prefix : string) (player_name : json) : string :=
  if Py.truthy player_name then prefix +:+ " " +:+ py_str player_name
  else prefix.

Definition embed_url (twitch_username : json) : string :=
  if Py.truthy twitch_username then build_twitch_url twitch_username else "".

(** What [set_browser_source_url] and [set_text_source] do to the sources
    of the host. *)
Definition browser_update (prefix : string) (player_name twitch_username : json)
    (l : list source) : list source :=
  if Py.nonempty prefix then
    match first_match prefix l with
    | Some i =>
        alter (λ s, src_update {[ "url" := embed_url twitch_username ]}
                      (src_rename (new_source_name prefix player_name) s)) i l
    | None => l
    end
  else l.

Definition text_update (source_name text : string) (l : list source)
    : list source :=
  if Py.nonempty source_name then
    match first_named source_name l with
    | Some i => alter (src_update {[ "text" := text ]}) i l
    | None => l
    end
  else l.

(** Every populated position of the team has a name and a link. *)
Definition arity_ok (team : Team.t) : Prop :=
  ∀ s t, position s team = Some t → (2 ≤ length t)%nat.


(** The two arguments of the call for one position, the name before the
    link. *)
Definition position_args (pos : option (list json)) : res (json * json) :=
  n ← get_player_name pos;
  l ← get_twitch_link pos;
  mret (n, l).

(** The position calls of [apply_team_to_sources] on the sources: they are
    made in order, and the first pair of arguments that fails to evaluate
    ends the run. *)
Fixpoint positions_update (calls : list (string * option (list json)))
    (l : list source) : res unit * list source :=
  match calls with
  | [] => (Ok tt, l)
  | (prefix, pos) :: calls' =>
      match position_args pos with
      | Ok (n, k) => positions_update calls' (browser_update prefix n k l)
      | Raise e => (Raise e, l)
      end
  end.

Definition team_calls (team : Team.t)
    (helm_prefix mc_prefix flex_prefix bilge_prefix : string)
    : list (string * option (list json)) :=
  [(helm_prefix, Team.helm team); (mc_prefix, Team.mc team);
   (flex_prefix, Team.flex team); (bilge_prefix, Team.bilge team)].

Definition team_update (team : Team.t)
    (name_source helm_prefix mc_prefix flex_prefix bilge_prefix : string)
    (l : list source) : res unit * list source :=
  positions_update
    (team_calls team helm_prefix mc_prefix flex_prefix bilge_prefix)
    (text_update name_source (Team.name team) l).


(** A populated position whose tuple has fewer than two values. *)
Definition short (pos : option (list json)) : bool :=
  match pos with
  | Some t => bool_decide (length t < 2)%nat
  | None => false
  end.


(** A match record as the matches endpoint documents it: an object with an
    ["attributes"] object, in which ["suggested_play_order"] is missing,
    null or an integer and, when there is a play order,
    ["points_by_participant"] is missing or a list of objects with an
    integer or null ["participant_id"]. *)
Definition attributes_of (m : json) : option (list (string * json)) :=
  match m with
  | JObj fields =>
      match Py.assoc "attributes" fields with
      | Some (JObj attrs) => Some attrs
      | _ => None
      end
  | _ => None
  end.

Definition play_order_of (m : json) : option Z :=
  match attributes_of m with
  | Some attrs =>
      match Py.assoc "suggested_play_order" attrs with
      | Some (JInt n) => Some n
      | _ => None
      end
  | None => None
  end.

Definition points_of (m : json) : list json :=
  match attributes_of m with
  | Some attrs =>
      match Py.assoc "points_by_participant" attrs with
      | Some (JArr l) => l
      | _ => []
      end
  | None => []
  end.

Definition wf_point (e : json) : bool :=
  match e with
  | JObj fields =>
      match Py.assoc "participant_id" fields with
      | Some (JInt _) | Some JNull => true
      | _ => false
      end
  | _ => false
  end.

Definition wf_match (m : json) : bool :=
  match attributes_of m with
  | Some attrs =>
      match Py.assoc "suggested_play_order" attrs with
      | None | Some JNull => true
      | Some (JInt _) =>
          match Py.assoc "points_by_participant" attrs with
          | None => true
          | Some (JArr l) => forallb wf_point l
          | Some _ => false
          end
      | Some _ => false
      end
  | None => false
  end.

(** The name of side [i] of a record: the entry of the participant mapping
    for the id of element [i] of the points list, [JNull] when the list is
    too short or the mapping has no such id. *)
Definition side_name (parts : gmap Z json) (m : json) (i : nat) : json :=
  match points_of m !! i with
  | Some (JObj fields) =>
      match Py.assoc "participant_id" fields with
      | Some (JInt z) => default JNull (parts !! z)
      | _ => JNull
      end
  | _ => JNull
  end.

(** The match mapping a list of records comes to: a record without a play
    order adds nothing, any other one sets the entry of its play order. *)
Definition add_match (parts : gmap Z json) (acc : gmap Z (json * json))
    (m : json) : gmap Z (json * json) :=
  match play_order_of m with
  | Some n => <[n := (side_name parts m 0, side_name parts m 1)]> acc
  | None => acc
  end.

Definition matches_of (parts : gmap Z json) (ms : list json)
    : gmap Z (json * json) :=
  foldl (add_match parts) ∅ ms.


(** The position calls that get made, with their arguments evaluated: the
    calls up to the first one whose arguments fail to evaluate. *)
Fixpoint resolved (calls : list (string * option (list json)))
    : list (string * json * json) :=
  match calls with
  | [] => []
  | (prefix, pos) :: calls' =>
      match position_args pos with
      | Ok (n, k) => (prefix, n, k) :: resolved calls'
      | Raise _ => []
      end
  end.

Definition run_calls (ops : list (string * json * json)) (l : list source)
    : list source :=
  foldl (λ l op, browser_update op.1.1 op.1.2 op.2 l) l ops.

(** The source a position call leaves behind in place of [s]. *)
Definition written (prefix : string) (player_name twitch_username : json)
    (s : source) : source :=
  src_update {[ "url" := embed_url twitch_username ]}
    (src_rename (new_source_name prefix player_name) s).

(** The sources a slot configuration is about: the one with the name of the
    text source, and those matching one of the prefixes. *)
Definition owned (name_source : string) (prefixes : list string) (s : source)
    : bool :=
  String.eqb (src_name s) name_source
  || existsb (λ p, Py.nonempty p && matches p s) prefixes.

Definition T1_PREFIXES : list string :=
  [T1_HELM_PREFIX; T1_MC_PREFIX; T1_FLEX_PREFIX; T1_BILGE_PREFIX].
Definition T2_PREFIXES : list string :=
  [T2_HELM_PREFIX; T2_MC_PREFIX; T2_FLEX_PREFIX; T2_BILGE_PREFIX].

Definition side1_source : source → bool := owned T1_NAME_SOURCE T1_PREFIXES.
Definition side2_source : source → bool := owned T2_NAME_SOURCE T2_PREFIXES.

(** Neither string is a prefix of the other, so that no name starts with
    both. *)
Definition apart (p q : string) : bool :=
  negb (Py.startswith p q) && negb (Py.startswith q p).

(** The name and the link of a position, as the accessors return them when
    they return. *)
Definition player_of (pos : option (list json)) : json :=
  default JNull (pos ≫= (.!! 0%nat)).
Definition link_of (pos : option (list json)) : json :=
  default JNull (pos ≫= (.!! 1%nat)).


Fixpoint pairwise_apart (ps : list string) : bool :=
  match ps with
  | [] => true
  | p :: ps' => forallb (apart p) ps' && pairwise_apart ps'
  end.

(** A slot configuration whose five sources cannot be mistaken for one
    another: the prefixes are non-empty and pairwise apart, and the name of
    the text source is non-empty and starts with none of them. *)
Definition config_ok (name_source : string) (prefixes : list string) : bool :=
  Py.nonempty name_source
  && forallb Py.nonempty prefixes
  && forallb (λ p, negb (Py.startswith p name_source)) prefixes
  && pairwise_apart prefixes.

(** The prefix of each position on the two sides. *)
Definition T1_PREFIX (s : slot) : string :=
  match s with
  | Helm => T1_HELM_PREFIX | Mc => T1_MC_PREFIX
  | Flex => T1_FLEX_PREFIX | Bilge => T1_BILGE_PREFIX
  end.

Definition T2_PREFIX (s : slot) : string :=
  match s with
  | Helm => T2_HELM_PREFIX | Mc => T2_MC_PREFIX
  | Flex => T2_FLEX_PREFIX | Bilge => T2_BILGE_PREFIX
  end.


Definition slot_prefix (helm_prefix mc_prefix flex_prefix bilge_prefix : string)
    (s : slot) : string :=
  match s with
  | Helm => helm_prefix | Mc => mc_prefix
  | Flex => flex_prefix | Bilge => bilge_prefix
  end.


(** Two slot configurations that are about different sources. *)
Definition configs_apart (ns : string) (ps : list string)
    (ns' : string) (ps' : list string) : bool :=
  negb (String.eqb ns ns')
  && forallb (λ p, negb (Py.startswith p ns')) ps
  && forallb (λ q, negb (Py.startswith q ns)) ps'
  && forallb (λ p, forallb (apart p) ps') ps.

(** The sources of one side after its team has been applied: the source
    with the name of the text source has the team name as its text, and the
    source each prefix finds has the name and the URL of its position, the
    other settings kept. *)
Definition side_updated (name_source : string) (prefix : slot → string)
    (team : Team.t) (l l' : list source) : Prop :=
  (∀ t s, first_named name_source l = Some t → l !! t = Some s →
     l' !! t = Some (src_update {[ "text" := Team.name team ]} s)) ∧
  (∀ x i s, first_match (prefix x) l = Some i → l !! i = Some s →
     l' !! i = Some (written (prefix x) (player_of (position x team))
                       (link_of (position x team)) s)).

(** The sources of one side are where and what they were, and no other
    source has become one of them. *)
Definition side_untouched (side : source → bool) (l l' : list source) : Prop :=
  length l' = length l ∧
  ∀ i, (∀ s, l !! i = Some s → side s = true → l' !! i = Some s) ∧
       (∀ s', l' !! i = Some s' → side s' = true → l !! i = Some s').


(** The number of sources that match a prefix. *)
Definition count_matches (prefix : string) (l : list source) : nat :=
  length (List.filter (matches prefix) l).

(** Two sources with the same settings but for the URL. *)
Definition same_but_url (s s' : source) : Prop :=
  delete "url" (src_settings s) = delete "url" (src_settings s').

(** [s] matches no more of the prefixes [ps] than [s'] does, and has the
    same settings but for the URL. *)
Definition below (ps : list string) (s s' : source) : Prop :=
  (∀ p, p ∈ ps → Py.nonempty p = true →
        matches p s = true → matches p s' = true) ∧
  same_but_url s s'.

(** Every source of [l] is below the source of [b] in its place. *)
Definition all_below (ps : list string) (b l : list source) : Prop :=
  length l = length b ∧
  ∀ j s s0, l !! j = Some s → b !! j = Some s0 → below ps s s0.

(** Two runs of the same calls, the second started from the result [l1] of
    the first: in each place the second run has caught up with the first,
    or has not written yet and holds a source below that of the first. *)
Definition coupled (ps : list string) (l1 a c : list source) : Prop :=
  length c = length a ∧
  ∀ j, c !! j = a !! j ∨
       (c !! j = l1 !! j ∧
        ∀ sc sa, c !! j = Some sc → a !! j = Some sa → below ps sc sa).


(** *** Sample data

    A stand-in for the two Python functions the program takes from its
    environment, the roster of the scenario of the specification, a roster
    whose helm record has a name and nothing else, and some states of the
    host and of the bracket client. *)
Definition sample_repr : json → string := λ _, "".
Definition sample_int : string → option Z := λ _, None.

Definition roster_json : json :=
  JObj [("teams",
    JObj [("Alpha",
      JObj [("helm", JObj [("name", JStr "X"); ("channel", JStr "x1")])])])].

Definition roster_json_short : json :=
  JObj [("teams",
    JObj [("Alpha", JObj [("helm", JObj [("name", JStr "X")])])])].

Definition alpha_team : Team.t :=
  Team.Team "Alpha" (Some [JStr "X"; JStr "x1"]) None None None.

Definition scene0 : scene_state :=
  SceneState ∅
    [Source "Team 1" ∅; Source "T1H - old" ∅; Source "T1MC - old" ∅;
     Source "T1F - old" ∅; Source "T1B - old" ∅;
     Source "Team 2" ∅; Source "T2H - other" {[ "url" := "u" ]}]
    [].

Definition scene_alpha : scene_state :=
  SceneState {[ "Alpha" := alpha_team ]} (sources scene0) [].

(** Four sources, one for each of the prefixes A, B, C and D, and no source
    named ["A X"] yet. *)
Definition scene_abcd : scene_state :=
  SceneState ∅
    [Source "A old" ∅; Source "B old" ∅; Source "C old" ∅; Source "D old" ∅]
    [].

Definition bracket0 : bracket_state :=
  BracketState "key" "cup"
    {[ 7 := JStr "Alpha"; 9 := JStr "Beta" ]}
    {[ 1 := (JStr "Alpha", JStr "Beta") ]}
    [].

Definition net_down : string → http_outcome := λ _, URLError "timed out".

Definition match_records : list json :=
  [JObj [("attributes",
     JObj [("suggested_play_order", JInt 1);
           ("points_by_participant",
            JArr [JObj [("participant_id", JInt 9)];
                  JObj [("participant_id", JInt 7)]])])];
   JObj [("attributes",
     JObj [("suggested_play_order", JNull);
           ("points_by_participant", JArr [])])];
   JObj [("attributes",
     JObj [("suggested_play_order", JInt 2);
           ("points_by_participant",
            JArr [JObj [("participant_id", JInt 5)]])])]].

Definition net_matches : string → http_outcome :=
  λ _, Payload (JObj [("data", JArr match_records)]).

Definition record_without_id : json :=
  JObj [("attributes", JObj [("name", JStr "Gamma")])].

Definition net_bad_participants : string → http_outcome :=
  λ _, Payload (JObj [("data",
         JArr [JObj [("id", JInt 3);
                     ("attributes", JObj [("name", JStr "Alpha")])];
               record_without_id])]).


(** [scene0] after the roster with the short helm record has been loaded,
    and [scene_abcd] after [alpha_team] has been applied once with the
    prefixes A, B, C and D. *)
Definition scene_short : scene_state :=
  SceneState {[ "Alpha" := Team.Team "Alpha" (Some [JStr "X"]) None None None ]}
    (sources scene0)
    ["[Tournament] Loaded 1 teams from roster.json"].

Definition scene_abcd_once : scene_state :=
  SceneState ∅
    [Source "A X"
       {[ "url" := "https://player.twitch.tv/?channel=x1&enableExtensions=true&muted=false&parent=twitch.tv&player=popout&quality=480p30&volume=0.69" ]};
     Source "B" {[ "url" := "" ]}; Source "C" {[ "url" := "" ]};
     Source "D" {[ "url" := "" ]}]
    [].


(** A team record [load_roster] can read: an object in which each of the
    four slots is missing, holds an object, or holds a value Python counts
    as false. *)
Definition slot_value_ok (v : option json) : bool :=
  match v with
  | None => true
  | Some (JObj _) => true
  | Some v => negb (Py.truthy v)
  end.

Definition wf_team_data (team_data : json) : bool :=
  match team_data with
  | JObj fields =>
      forallb (λ key, slot_value_ok (Py.assoc key fields))
        ["helm"; "mc"; "flex"; "bilge"]
  | _ => false
  end.


(** Sources on which the calls of an application have nothing left to do:
    the text call and each position call leave them as they are. *)
Definition settled (name_source text : string)
    (ops : list (string * json * json)) (l : list source) : Prop :=
  text_update name_source text l = l ∧
  ∀ op, op ∈ ops → browser_update op.1.1 op.1.2 op.2 l = l.


(** What [execute_transition] does to the sources, given what the roster
    holds for the two names: each side is applied when its team is known,
    side 1 first, and an exception on side 1 ends the transition. *)
Definition side_update (team : option Team.t)
    (name_source helm_prefix mc_prefix flex_prefix bilge_prefix : string)
    (l : list source) : res unit * list source :=
  match team with
  | Some t =>
      team_update t name_source helm_prefix mc_prefix flex_prefix bilge_prefix l
  | None => (Ok tt, l)
  end.

Definition transition_update (team1 team2 : option Team.t) (l : list source)
    : res unit * list source :=
  match side_update team1 T1_NAME_SOURCE T1_HELM_PREFIX T1_MC_PREFIX
          T1_FLEX_PREFIX T1_BILGE_PREFIX l with
  | (Ok _, l1) =>
      side_update team2 T2_NAME_SOURCE T2_HELM_PREFIX T2_MC_PREFIX
        T2_FLEX_PREFIX T2_BILGE_PREFIX l1
  | (Raise e, l1) => (Raise e, l1)
  end.


(** The id and the name of a participant record, when the record has
    them: the id as [int] reads it, the name as it stands. *)
Definition participant_id_of (p : json) : option Z :=
  match Py.getitem p "id" with
  | Ok v => match py_int v with Ok z => Some z | Raise _ => None end
  | Raise _ => None
  end.

Definition participant_name_of (p : json) : option json :=
  match Py.getitem p "attributes" with
  | Ok a => match Py.getitem a "name" with Ok n => Some n | Raise _ => None end
  | Raise _ => None
  end.

Definition wf_participant (p : json) : bool :=
  bool_decide (is_Some (participant_id_of p))
  && bool_decide (is_Some (participant_name_of p)).

(** The participant mapping a list of records comes to. *)
Definition add_participant (acc : gmap Z json) (p : json) : gmap Z json :=
  match participant_id_of p, participant_name_of p with
  | Some z, Some n => <[z := n]> acc
  | _, _ => acc
  end.



(** A second team, a state with both teams in the roster, and payloads of
    the tournament service: three participant records of which the last
    repeats the id of the first, a service that answers both requests of
    the tournament [cup], one whose participants request fails, and one
    whose second match record has no attributes. *)
Definition beta_team : Team.t :=
  Team.Team "Beta" (Some [JStr "Y"; JStr "y1"]) None None None.

Definition scene_both : scene_state :=
  SceneState {[ "Alpha" := alpha_team; "Beta" := beta_team ]}
    (sources scene0) [].

Definition participant_records : list json :=
  [JObj [("id", JInt 7); ("attributes", JObj [("name", JStr "Alpha")])];
   JObj [("id", JInt 9); ("attributes", JObj [("name", JStr "Beta")])];
   JObj [("id", JInt 7); ("attributes", JObj [("name", JStr "Gamma")])]].

Definition cup_participants_url : string :=
  "https://api.challonge.com/v2.1/tournaments/cup/participants.json".

Definition net_cup : string → http_outcome :=
  λ url, if String.eqb url cup_participants_url
         then Payload (JObj [("data", JArr participant_records)])
         else Payload (JObj [("data", JArr match_records)]).

Definition net_cup_matches_only : string → http_outcome :=
  λ url, if String.eqb url cup_participants_url
         then URLError "timed out"
         else Payload (JObj [("data", JArr match_records)]).

Definition record_without_attributes : json := JObj [("id", JInt 1)].

Definition net_broken_matches : string → http_outcome :=
  λ _, Payload (JObj [("data",
         JArr (take 1 match_records
               ++ record_without_attributes :: drop 1 match_records))]).


(** A roster file whose second team record cannot be read: its helm is a
    string, which has no [get]. *)
Definition roster_json_broken : json :=
  JObj [("teams",
    JObj [("Gamma", JObj []);
          ("Delta", JObj [("helm", JStr "oops")]);
          ("Beta", JObj [])])].

(* ===================================================================== *)
(** ** Properties *)
(* ===================================================================== *)

Ltac unfold_monad :=
  unfold mbind, mret, M_bind, M_ret, res_bind, res_ret, lift, gets, modify in *.

(** *** The URL builder *)

(** C7: for a non-empty channel string the URL builder returns the player
    URL with the channel spliced in, character for character; for the empty
    channel it returns the empty string. *)
Theorem build_twitch_url_exact (c : string) :
  (c ≠ "" →
   build_twitch_url (JStr c)
   = "https://player.twitch.tv/?channel=" +:+ c +:+
     "&enableExtensions=true&muted=false&parent=twitch.tv&player=popout&quality=480p30&volume=0.69")
  ∧ build_twitch_url (JStr "") = "".
Proof.
  split; [|reflexivity].
  intros Hc. unfold build_twitch_url. destruct c as [|a c]; [done|].
  reflexivity.
Qed.

(** *** Fetch failures *)

Lemma _api_request_failed net endpoint st :
  fetch_failed (net (api_url endpoint)) ∨ API_KEY st = "" →
  ∃ msgs, msgs ≠ [] ∧
    _api_request net endpoint st = (Ok JNull, bracket_logged st msgs).
Proof.
  intros H. unfold _api_request, bracket_print, bracket_logged. unfold_monad.
  destruct (Py.nonempty (API_KEY st)) eqn:Hk; simpl.
  - destruct H as [H|H]; [|by rewrite H in Hk]. fold (api_url endpoint).
    destruct (net (api_url endpoint)) as [code reason [body|]| | | |];
      try done; simpl; rewrite <- ?app_assoc; eexists; (split; [|reflexivity]); done.
  - by exists ["[Challonge] API key not set"].
Qed.

(** C2: when the request of a fetch fails (transport or URL error, HTTP
    error status, undecodable payload), [get_participants] and [get_matches]
    print the failure, leave both mappings and the rest of the state as they
    were, and return normally. *)
Theorem fetch_failure_keeps_state (net : string → http_outcome)
    (st : bracket_state) :
  (fetch_failed (net (participants_url st)) →
   ∃ msgs, msgs ≠ [] ∧
     get_participants net st = (Ok tt, bracket_logged st msgs)) ∧
  (fetch_failed (net (matches_url st)) →
   ∃ msgs, msgs ≠ [] ∧
     get_matches net st = (Ok tt, bracket_logged st msgs)).
Proof.
  split; intros Hf.
  - unfold get_participants. unfold_monad.
    destruct (Py.nonempty (TOURNAMENT_ID st)) eqn:Ht; simpl.
    + destruct (_api_request_failed net _ st (or_introl Hf)) as (msgs & Hne & ->).
      exists msgs. by split.
    + by exists ["[Challonge] Tournament ID not set"].
  - unfold get_matches. unfold_monad.
    destruct (Py.nonempty (TOURNAMENT_ID st)) eqn:Ht; simpl.
    + destruct (_api_request_failed net _ st (or_introl Hf)) as (msgs & Hne & ->).
      exists msgs. by split.
    + by exists ["[Challonge] Tournament ID not set"].
Qed.

(** *** The participant mapping is replaced in one step *)

Lemma bracket_logged_nil st : bracket_logged st [] = st.
Proof. destruct st. unfold bracket_logged. simpl. by rewrite app_nil_r. Qed.

Lemma _api_request_cases net endpoint st :
  (∃ msgs, _api_request net endpoint st = (Ok JNull, bracket_logged st msgs)) ∨
  (∃ j, net (api_url endpoint) = Payload j ∧
        _api_request net endpoint st = (Ok j, st)).
Proof.
  destruct (Py.nonempty (API_KEY st)) eqn:Hk.
  - destruct (net (api_url endpoint)) as [code reason body| | | |j] eqn:Hn.
    1-4: left; destruct (_api_request_failed net endpoint st) as (msgs & _ & ->);
         [left; by rewrite Hn|by eexists].
    right. exists j. split; [done|].
    unfold _api_request. unfold_monad. rewrite Hk. simpl.
    fold (api_url endpoint). by rewrite Hn.
  - left. destruct (_api_request_failed net endpoint st) as (msgs & _ & ->);
      [right|by eexists].
    unfold Py.nonempty in Hk. apply negb_false_iff, String.eqb_eq in Hk. done.
Qed.

(** Every run of [get_participants] is of one of three kinds: nothing but
    printing; an exception with the state untouched; or the whole new
    mapping stored. *)
Lemma get_participants_cases net st :
  (∃ msgs, get_participants net st = (Ok tt, bracket_logged st msgs)) ∨
  (∃ e, get_participants net st = (Raise e, st)) ∨
  (∃ result data ps new msg,
     net (participants_url st) = Payload result ∧
     Py.getitem result "data" = Ok data ∧
     Py.iter data = Ok ps ∧
     participants_of ps ∅ = Ok new ∧
     get_participants net st
     = (Ok tt, bracket_logged (set_participants new st) [msg])).
Proof.
  unfold get_participants. unfold_monad.
  destruct (Py.nonempty (TOURNAMENT_ID st)) eqn:Ht; simpl;
    [|left; by exists ["[Challonge] Tournament ID not set"]].
  destruct (_api_request_cases net
    ("/tournaments/" +:+ TOURNAMENT_ID st +:+ "/participants.json") st)
    as [(msgs & ->)|(j & Hn & ->)].
  { left. by exists msgs. }
  destruct (has_data j) as [[|]|e] eqn:Hd; simpl.
  - destruct (Py.getitem j "data") as [data|e] eqn:Hg; simpl; [|by right; left; eexists].
    destruct (Py.iter data) as [ps|e] eqn:Hi; simpl; [|by right; left; eexists].
    destruct (participants_of ps ∅) as [new|e] eqn:Hp; simpl; [|by right; left; eexists].
    right; right. exists j, data, ps, new. eexists. by repeat split.
  - left. exists []. by rewrite bracket_logged_nil.
  - right; left. by eexists.
Qed.

Lemma participants_of_bad_record ps acc p :
  p ∈ ps →
  Py.getitem p "id" = Raise KeyError ∨ Py.getitem p "attributes" = Raise KeyError →
  ∃ e, participants_of ps acc = Raise e.
Proof.
  intros Hin Hbad. revert acc.
  induction ps as [|q ps IH]; intros acc; [by apply elem_of_nil in Hin|].
  simpl. unfold_monad.
  destruct (Py.getitem q "id") as [id|e] eqn:Hid; [|by eexists].
  destruct (py_int id) as [k|e]; [|by eexists].
  destruct (Py.getitem q "attributes") as [a|e] eqn:Ha; [|by eexists].
  destruct (Py.getitem a "name") as [n|e]; [|by eexists].
  apply elem_of_cons in Hin as [->|Hin]; [|by apply IH].
  destruct Hbad; congruence.
Qed.

(** C10: [get_participants] replaces the participant mapping in one step.
    After any run the mapping is either the old one or the complete new one
    built from the whole record list; a run that raises leaves it as it was;
    a record list with a record lacking ["id"] or ["attributes"] makes the
    run raise with the state untouched; and a decoded payload without a
    ["data"] key leaves it as it was, without an exception. *)
Theorem get_participants_atomic (net : string → http_outcome)
    (st : bracket_state) :
  (∀ r st', get_participants net st = (r, st') →
     PARTICIPANTS st' = PARTICIPANTS st ∨
     ∃ result data ps,
       net (participants_url st) = Payload result ∧
       Py.getitem result "data" = Ok data ∧ Py.iter data = Ok ps ∧
       participants_of ps ∅ = Ok (PARTICIPANTS st') ∧ r = Ok tt) ∧
  (∀ e st', get_participants net st = (Raise e, st') →
     PARTICIPANTS st' = PARTICIPANTS st) ∧
  (∀ o ps p,
     API_KEY st ≠ "" → TOURNAMENT_ID st ≠ "" →
     net (participants_url st) = Payload (JObj o) →
     Py.assoc "data" o = Some (JArr ps) →
     p ∈ ps →
     Py.getitem p "id" = Raise KeyError ∨
       Py.getitem p "attributes" = Raise KeyError →
     ∃ e, get_participants net st = (Raise e, st)) ∧
  (∀ o,
     net (participants_url st) = Payload (JObj o) →
     Py.assoc "data" o = None →
     ∃ st', get_participants net st = (Ok tt, st') ∧
            PARTICIPANTS st' = PARTICIPANTS st).
Proof.
  split_and!.
  - intros r st' Hrun.
    destruct (get_participants_cases net st)
      as [(msgs & H)|[(e & H)|(result & data & ps & new & msg & Hn & Hd & Hi & Hp & H)]];
      rewrite H in Hrun; simplify_eq; [by left..|].
    right. by exists result, data, ps.
  - intros e st' Hrun.
    destruct (get_participants_cases net st)
      as [(msgs & H)|[(e' & H)|(result & data & ps & new & msg & _ & _ & _ & _ & H)]];
      rewrite H in Hrun; by simplify_eq.
  - intros o ps p Hk Ht Hn Hdata Hin Hbad.
    destruct (participants_of_bad_record ps ∅ p Hin Hbad) as [e He].
    exists e. unfold get_participants, _api_request. unfold_monad.
    unfold Py.nonempty.
    apply String.eqb_neq in Hk, Ht. rewrite Ht. simpl. rewrite Hk. simpl.
    unfold participants_url, api_url in Hn. rewrite Hn. simpl.
    assert (Hd : has_data (JObj o) = Ok true).
    { unfold has_data, Py.contains. destruct o as [|kv o]; [done|].
      cbn [Py.truthy]. by rewrite Hdata. }
    rewrite Hd. cbn [Py.getitem]. rewrite Hdata. cbn [Py.iter]. by rewrite He.
  - intros o Hn Hdata.
    assert (Hd : has_data (JObj o) = Ok false).
    { unfold has_data, Py.contains. destruct o as [|kv o]; [done|].
      cbn [Py.truthy]. by rewrite Hdata. }
    unfold get_participants. unfold_monad.
    destruct (Py.nonempty (TOURNAMENT_ID st)) eqn:Ht; simpl; [|by eexists].
    destruct (_api_request_cases net
      ("/tournaments/" +:+ TOURNAMENT_ID st +:+ "/participants.json") st)
      as [(msgs & ->)|(j & Hn' & ->)]; [by eexists|].
    unfold participants_url in Hn. rewrite Hn in Hn'. simplify_eq.
    rewrite Hd. by eexists.
Qed.


(** *** Loading the roster *)

(** C4, with the condition it needs: when the roster file is missing, or
    is read as text that is not valid JSON, [load_roster] prints one
    diagnostic, keeps the roster mapping (and everything else) as it was,
    and returns normally.
    These are the two failures it has a handler for; content that is
    invalid in another way, such as bytes that are not UTF-8, is not among
    them. *)
Theorem load_roster_fails_softly (file : file_read) (st : scene_state) :
  file = FileNotFound ∨ (∃ e, file = InvalidJSON e) →
  ∃ msg, load_roster file st = (Ok tt, scene_logged st [msg]) ∧
         TEAM_ROSTER (scene_logged st [msg]) = TEAM_ROSTER st.
Proof.
  intros [->|[e ->]]; eexists; split; reflexivity.
Qed.

(** A file that parses but has no ["teams"] key is another matter: the
    roster has been cleared by the time the lookup raises. *)
Lemma load_roster_without_teams st :
  load_roster (Parsed (JObj [])) st
  = (Raise KeyError, set_roster (λ _, ∅) st).
Proof. reflexivity. Qed.

Lemma assoc_not_in {A} k (o : list (string * A)) :
  k ∉ o.*1 → Py.assoc k o = None.
Proof.
  induction o as [|[k' v] o IH]; [done|]. simpl.
  rewrite not_elem_of_cons. intros [Hne Hni].
  destruct (String.eqb_spec k' k); [congruence|auto].
Qed.

Lemma assoc_in {A} k v (o : list (string * A)) :
  NoDup o.*1 → (k, v) ∈ o → Py.assoc k o = Some v.
Proof.
  induction o as [|[k' v'] o IH]; [by intros _ ?%elem_of_nil|].
  simpl. rewrite NoDup_cons, elem_of_cons. intros [Hni Hnd] [Heq|Hin].
  - simplify_eq. by rewrite String.eqb_refl.
  - destruct (String.eqb_spec k' k) as [->|]; [|auto].
    exfalso. apply Hni. apply list_elem_of_fmap. by exists (k, v).
Qed.

(** The loop of [load_roster]: when it completes, every team record of the
    file has its [Team] in the roster, and nothing else has changed. *)
Lemma load_roster_loop its st st' :
  NoDup its.*1 →
  for_each its (λ '(team_name, team_data),
    team ← lift (make_team team_name team_data);
    modify (set_roster <[team_name := team]>)) st = (Ok tt, st') →
  sources st' = sources st ∧ scene_out st' = scene_out st ∧
  ∀ k, match Py.assoc k its with
       | Some d => ∃ team, make_team k d = Ok team ∧
                           TEAM_ROSTER st' !! k = Some team
       | None => TEAM_ROSTER st' !! k = TEAM_ROSTER st !! k
       end.
Proof.
  revert st. induction its as [|[n d] its IH]; intros st Hnd Hrun.
  { simpl in Hrun. unfold_monad. by simplify_eq. }
  apply NoDup_cons in Hnd as [Hni Hnd].
  simpl in Hrun. unfold_monad.
  destruct (make_team n d) as [team|e] eqn:Hmk; [|done].
  apply IH in Hrun as (Hs & Ho & Hr); [|done].
  split_and!; [done..|].
  intros k. simpl. specialize (Hr k).
  destruct (String.eqb_spec n k) as [->|Hne].
  - rewrite (assoc_not_in k its Hni) in Hr. exists team. split; [done|].
    rewrite Hr. simpl. by rewrite lookup_insert_eq.
  - destruct (Py.assoc k its); [done|]. rewrite Hr. simpl.
    by rewrite lookup_insert_ne.
Qed.

Lemma make_team_positions n d team :
  make_team n d = Ok team →
  Team.name team = n ∧
  ∀ s, position_tup d (slot_key s) = Ok (position s team).
Proof.
  unfold make_team. unfold_monad.
  destruct (position_tup d "helm") as [h|] eqn:Hh; [|done].
  destruct (position_tup d "mc") as [m|] eqn:Hm; [|done].
  destruct (position_tup d "flex") as [f|] eqn:Hf; [|done].
  destruct (position_tup d "bilge") as [b|] eqn:Hb; [|done].
  intros [= <-]. split; [done|]. by intros [].
Qed.

(** What the conditional expression of a position comes to, when it
    evaluates at all. *)
Lemma position_tup_cases d key pos :
  position_tup d key = Ok pos →
  ∃ fields, d = JObj fields ∧
    match Py.assoc key fields with
    | None => pos = None
    | Some record =>
        if Py.truthy record then
          ∃ rf, record = JObj rf ∧
            pos = if Py.truthy (default JNull (Py.assoc "name" rf))
                  then Some (map snd rf) else None
        else pos = None
    end.
Proof.
  unfold position_tup. unfold_monad.
  destruct d as [| | | | |fields]; try done. exists fields. split; [done|].
  simpl in *. destruct (Py.assoc key fields) as [record|]; simpl in *.
  - destruct (Py.truthy record) eqn:Ht.
    + destruct record as [| | | | |rf]; try done. exists rf. split; [done|].
      simpl in *.
      destruct (Py.truthy (default JNull (Py.assoc "name" rf))); by simplify_eq.
    + rewrite Ht in H. by simplify_eq.
  - by simplify_eq.
Qed.


(** C5: in a roster that loads, every team record has its [Team] in the
    mapping, and for each of the four slots the position is absent when the
    slot has no record, when the record has no ["name"], and when the name
    is empty (the empty string, or any other value Python counts as false),
    whatever else the record holds; in the remaining case, a record with a
    non-empty name, the position is populated with the values of the
    record. *)
Theorem load_roster_positions (st st' : scene_state) (data : json)
    (teams : list (string * json)) (team_name : string) (team_data : json) :
  Py.getitem data "teams" = Ok (JObj teams) →
  NoDup teams.*1 →
  load_roster (Parsed data) st = (Ok tt, st') →
  (team_name, team_data) ∈ teams →
  ∃ team,
    TEAM_ROSTER st' !! team_name = Some team ∧
    Team.name team = team_name ∧
    ∀ s : slot,
      (slot_record team_data s = None → position s team = None) ∧
      (∀ record, slot_record team_data s = Some record →
         name_field record = None → position s team = None) ∧
      (∀ record v, slot_record team_data s = Some record →
         name_field record = Some v → Py.truthy v = false →
         position s team = None) ∧
      (∀ fields v, slot_record team_data s = Some (JObj fields) →
         Py.assoc "name" fields = Some v → Py.truthy v = true →
         position s team = Some (map snd fields)) ∧
      (∀ fields, slot_record team_data s = Some (JObj fields) →
         Py.assoc "name" fields = Some (JStr "") → position s team = None) ∧
      (∀ fields nm, slot_record team_data s = Some (JObj fields) →
         Py.assoc "name" fields = Some (JStr nm) → nm ≠ "" →
         position s team = Some (map snd fields)).
Proof.
  intros Hteams Hnd Hrun Hin.
  unfold load_roster in Hrun. unfold_monad. simpl in Hrun.
  rewrite Hteams in Hrun. simpl in Hrun.
  match type of Hrun with
  | context [for_each ?l ?b ?s] => destruct (for_each l b s) as [[[]|e] st1] eqn:Hloop
  end; [|done].
  apply load_roster_loop in Hloop as (_ & _ & Hr); [|done].
  specialize (Hr team_name). rewrite (assoc_in _ _ _ Hnd Hin) in Hr.
  destruct Hr as (team & Hmk & Hlk).
  unfold scene_print in Hrun. unfold_monad. simpl in Hrun. simplify_eq.
  exists team. split; [done|].
  apply make_team_positions in Hmk as [Hname Hpos]. split; [done|].
  intros s. specialize (Hpos s).
  apply position_tup_cases in Hpos as (tf & -> & Hcase).
  assert (Hgen : ∀ fields v, slot_record (JObj tf) s = Some (JObj fields) →
            Py.assoc "name" fields = Some v → Py.truthy v = true →
            position s team = Some (map snd fields)).
  { simpl. intros fields v Hrec Hn Hv. rewrite Hrec in Hcase.
    destruct fields as [|kv fields]; [done|].
    destruct Hcase as (rf & [= <-] & ->). rewrite Hn. simpl. by rewrite Hv. }
  assert (Hemp : ∀ record v, slot_record (JObj tf) s = Some record →
            name_field record = Some v → Py.truthy v = false →
            position s team = None).
  { simpl. intros record v Hrec Hn Hv. rewrite Hrec in Hcase.
    destruct record as [| | | | |rf]; try done. simpl in Hn.
    destruct rf as [|kv rf]; [done|].
    destruct Hcase as (rf' & [= <-] & ->). rewrite Hn. simpl. by rewrite Hv. }
  split_and!.
  - simpl. intros Hrec. by rewrite Hrec in Hcase.
  - simpl. intros record Hrec Hn. rewrite Hrec in Hcase.
    destruct (Py.truthy record) eqn:Ht; [|done].
    destruct Hcase as (rf & -> & ->). simpl in Hn. by rewrite Hn.
  - done.
  - done.
  - intros fields Hrec Hn. by eapply Hemp.
  - intros fields nm Hrec Hn Hne. eapply Hgen; [done..|].
    simpl. unfold Py.nonempty. by apply negb_true_iff, String.eqb_neq.
Qed.


(** *** What the synchronizer does to the sources *)

Lemma find_source_loop_spec prefix st (l1 l2 : list source) :
  sources st = l1 ++ l2 →
  find_source_loop prefix (seq (length l1) (length l2)) st
  = (Ok (find_name prefix l2), st).
Proof.
  revert l1. induction l2 as [|s l2 IH]; intros l1 Hl; [done|].
  cbn [length seq find_source_loop find_name].
  unfold obs_source_get_name. unfold_monad.
  rewrite Hl, (list_lookup_middle l1 l2 s (length l1) eq_refl). simpl.
  fold (matches prefix s). destruct (matches prefix s); [done|].
  specialize (IH (l1 ++ [s])). rewrite length_app, Nat.add_1_r in IH.
  apply IH. by rewrite <- app_assoc.
Qed.

Lemma find_source_by_prefix_spec prefix st :
  find_source_by_prefix prefix st = (Ok (find_name prefix (sources st)), st).
Proof.
  unfold find_source_by_prefix, obs_enum_sources. unfold_monad.
  by apply (find_source_loop_spec prefix st []).
Qed.

Lemma find_name_matches prefix l n :
  find_name prefix l = Some n →
  Py.nonempty n = true ∧ Py.startswith prefix n = true.
Proof.
  induction l as [|s l IH]; [done|]. simpl.
  destruct (matches prefix s) eqn:Hm; [|done].
  intros [= <-]. by apply andb_true_iff in Hm.
Qed.

Lemma find_name_first_match prefix l :
  match find_name prefix l with
  | Some n => first_named n l = first_match prefix l ∧
              is_Some (first_match prefix l)
  | None => first_match prefix l = None
  end.
Proof.
  induction l as [|s l IH]; [done|]. simpl.
  destruct (matches prefix s) eqn:Hm.
  - rewrite String.eqb_refl. eauto.
  - destruct (find_name prefix l) as [n|] eqn:Hf; [|by rewrite IH].
    destruct IH as [-> [i ->]].
    destruct (String.eqb_spec (src_name s) n) as [<-|Hne]; [|eauto].
    apply find_name_matches in Hf as [H1 H2].
    unfold matches in Hm. by rewrite H1, H2 in Hm.
Qed.

Lemma set_browser_source_url_spec prefix player_name twitch_username st :
  ∃ msgs,
    set_browser_source_url prefix player_name twitch_username st
    = (Ok tt, SceneState (TEAM_ROSTER st)
                (browser_update prefix player_name twitch_username (sources st))
                (scene_out st ++ msgs)).
Proof.
  unfold set_browser_source_url, browser_update.
  destruct (Py.nonempty prefix); simpl.
  2: { exists []. destruct st. simpl. by rewrite app_nil_r. }
  unfold_monad. rewrite find_source_by_prefix_spec. simpl.
  pose proof (find_name_first_match prefix (sources st)) as Hfm.
  destruct (find_name prefix (sources st)) as [n|] eqn:Hf; simpl.
  - destruct Hfm as [Hfn [i Hi]].
    apply find_name_matches in Hf as [Hn _]. rewrite Hn. simpl.
    unfold obs_get_source_by_name. unfold_monad. simpl.
    rewrite Hfn, Hi. simpl.
    unfold embed_url, new_source_name.
    destruct (Py.truthy twitch_username); simpl;
      unfold obs_source_update, modify, set_sources; simpl;
      rewrite list_alter_alter_eq, <- !app_assoc; by eexists.
  - rewrite Hfm. unfold scene_print, modify. simpl.
    rewrite <- app_assoc. by eexists.
Qed.

Lemma set_text_source_spec source_name text st :
  ∃ msgs,
    set_text_source source_name text st
    = (Ok tt, SceneState (TEAM_ROSTER st)
                (text_update source_name text (sources st))
                (scene_out st ++ msgs)).
Proof.
  unfold set_text_source, text_update.
  destruct (Py.nonempty source_name); simpl.
  2: { exists []. destruct st. simpl. by rewrite app_nil_r. }
  unfold obs_get_source_by_name. unfold_monad. simpl.
  destruct (first_named source_name (sources st)); simpl; by eexists.
Qed.


Lemma apply_team_to_sources_spec team ns hp mp fp bp st :
  ∃ msgs,
    apply_team_to_sources team ns hp mp fp bp st
    = ((team_update team ns hp mp fp bp (sources st)).1,
       SceneState (TEAM_ROSTER st)
         (team_update team ns hp mp fp bp (sources st)).2
         (scene_out st ++ msgs)).
Proof.
  unfold apply_team_to_sources, team_update, team_calls. unfold_monad.
  destruct (set_text_source_spec ns (Team.name team) st) as [m0 ->].
  cbn [positions_update]. unfold position_args. unfold_monad.
  repeat
    (match goal with
     | |- context [get_player_name ?p] =>
         destruct (get_player_name p); [|by eexists]
     | |- context [get_twitch_link ?p] =>
         destruct (get_twitch_link p); [|by eexists]
     | |- context [set_browser_source_url ?p ?n ?l ?s] =>
         destruct (set_browser_source_url_spec p n l s) as [? ->]
     end; cbn [TEAM_ROSTER sources scene_out]; rewrite <- ?app_assoc).
  by eexists.
Qed.


(** *** Position tuples and their accessors *)

Lemma position_args_short pos :
  position_args pos
  = if short pos then Raise IndexError
    else Ok (default JNull (pos ≫= (.!! 0%nat)), default JNull (pos ≫= (.!! 1%nat))).
Proof.
  destruct pos as [[|a [|b t]]|]; try reflexivity.
Qed.

Lemma positions_update_result calls l :
  (positions_update calls l).1
  = if existsb (λ c, short c.2) calls then Raise IndexError else Ok tt.
Proof.
  revert l. induction calls as [|[p pos] calls IH]; intros l; [done|].
  cbn [positions_update existsb snd]. rewrite position_args_short.
  destruct (short pos); [done|]. simpl. apply IH.
Qed.

Lemma team_calls_short team hp mp fp bp :
  existsb (λ c, short c.2) (team_calls team hp mp fp bp) = true
  ↔ ∃ s t, position s team = Some t ∧ (length t < 2)%nat.
Proof.
  unfold team_calls. cbn [existsb snd]. rewrite !orb_true_iff. split.
  - intros [H|[H|[H|[H|H]]]];
      [exists Helm|exists Mc|exists Flex|exists Bilge|done]; simpl;
      (destruct (_ team) as [t|]; [|done]); exists t;
      by apply bool_decide_eq_true in H.
  - intros ([] & t & Hp & Hlen); simpl in Hp;
      [left|right; right; left|right; left|right; right; right; left];
      rewrite Hp; by apply bool_decide_eq_true.
Qed.

(** C9: a populated position is stored as the values of its record in
    their order: the [Team] that [make_team] builds, and that a roster that
    loads holds in [TEAM_ROSTER] under the team's name, has in each slot
    whose record has a non-empty name the values of that record.  So for a
    record with a non-empty name and nothing else the stored position is a
    1-tuple, on which [get_player_name] succeeds and [get_twitch_link]
    raises [IndexError], and [apply_team_to_sources] on the stored team
    raises [IndexError] whatever the sources are; when every populated
    position record of a team has at least two values, the stored team
    meets the arity condition, the player name is the first value and the
    link the second, and [apply_team_to_sources] completes.
    [get_twitch_link] raises exactly on the tuples of fewer than two
    values, and [apply_team_to_sources] raises [IndexError] exactly when
    some populated position of the team has fewer than two values. *)
Theorem position_accessors_arity :
  (∀ n fields team s rf,
     make_team n (JObj fields) = Ok team →
     Py.assoc (slot_key s) fields = Some (JObj rf) →
     Py.truthy (default JNull (Py.assoc "name" rf)) = true →
     position s team = Some (map snd rf)) ∧
  (∀ st st' data teams team_name fields s v,
     Py.getitem data "teams" = Ok (JObj teams) →
     NoDup teams.*1 →
     load_roster (Parsed data) st = (Ok tt, st') →
     (team_name, JObj fields) ∈ teams →
     Py.assoc (slot_key s) fields = Some (JObj [("name", v)]) →
     Py.truthy v = true →
     ∃ team,
       TEAM_ROSTER st' !! team_name = Some team ∧
       position s team = Some [v] ∧
       get_player_name (position s team) = Ok v ∧
       get_twitch_link (position s team) = Raise IndexError ∧
       ∀ ns hp mp fp bp st0,
         ∃ st1, apply_team_to_sources team ns hp mp fp bp st0
                = (Raise IndexError, st1)) ∧
  (∀ st st' data teams team_name fields,
     Py.getitem data "teams" = Ok (JObj teams) →
     NoDup teams.*1 →
     load_roster (Parsed data) st = (Ok tt, st') →
     (team_name, JObj fields) ∈ teams →
     (∀ s rf, Py.assoc (slot_key s) fields = Some (JObj rf) →
              Py.truthy (default JNull (Py.assoc "name" rf)) = true →
              (2 ≤ length rf)%nat) →
     ∃ team,
       TEAM_ROSTER st' !! team_name = Some team ∧
       arity_ok team ∧
       (∀ s k1 v1 k2 v2 rest,
          Py.assoc (slot_key s) fields
          = Some (JObj ((k1, v1) :: (k2, v2) :: rest)) →
          Py.truthy (default JNull
                       (Py.assoc "name" ((k1, v1) :: (k2, v2) :: rest)))
          = true →
          get_player_name (position s team) = Ok v1 ∧
          get_twitch_link (position s team) = Ok v2) ∧
       ∀ ns hp mp fp bp st0,
         ∃ st1, apply_team_to_sources team ns hp mp fp bp st0 = (Ok tt, st1)) ∧
  (∀ fields key rf,
     Py.assoc key fields = Some (JObj rf) →
     Py.truthy (default JNull (Py.assoc "name" rf)) = true →
     position_tup (JObj fields) key = Ok (Some (map snd rf))) ∧
  (∀ fields key v,
     Py.assoc key fields = Some (JObj [("name", v)]) →
     Py.truthy v = true →
     position_tup (JObj fields) key = Ok (Some [v]) ∧
     get_player_name (Some [v]) = Ok v ∧
     get_twitch_link (Some [v]) = Raise IndexError) ∧
  (∀ t, get_twitch_link (Some t) = Raise IndexError ↔ (length t < 2)%nat) ∧
  (∀ t, (2 ≤ length t)%nat →
     ∃ n k, get_player_name (Some t) = Ok n ∧ get_twitch_link (Some t) = Ok k) ∧
  (∀ team ns hp mp fp bp st,
     (∃ s t, position s team = Some t ∧ (length t < 2)%nat) →
     ∃ st', apply_team_to_sources team ns hp mp fp bp st
            = (Raise IndexError, st')) ∧
  (∀ team ns hp mp fp bp st,
     arity_ok team →
     ∃ st', apply_team_to_sources team ns hp mp fp bp st = (Ok tt, st')).
Proof.
  assert (Hpos : ∀ fields key rf,
     Py.assoc key fields = Some (JObj rf) →
     Py.truthy (default JNull (Py.assoc "name" rf)) = true →
     position_tup (JObj fields) key = Ok (Some (map snd rf))).
  { intros fields key rf Hrec Hname. unfold position_tup. unfold_monad.
    simpl. rewrite Hrec. simpl.
    destruct rf as [|kv rf]; [done|]. cbn [Py.truthy].
    by rewrite Hname. }
  assert (Hmk : ∀ n fields team s rf,
     make_team n (JObj fields) = Ok team →
     Py.assoc (slot_key s) fields = Some (JObj rf) →
     Py.truthy (default JNull (Py.assoc "name" rf)) = true →
     position s team = Some (map snd rf)).
  { intros n fields team s rf Hteam Hrec Hname.
    apply make_team_positions in Hteam as [_ Hteam].
    specialize (Hteam s). rewrite (Hpos _ _ _ Hrec Hname) in Hteam.
    by simplify_eq. }
  assert (Hstored : ∀ st st' data teams team_name fields,
     Py.getitem data "teams" = Ok (JObj teams) →
     NoDup teams.*1 →
     load_roster (Parsed data) st = (Ok tt, st') →
     (team_name, JObj fields) ∈ teams →
     ∃ team, TEAM_ROSTER st' !! team_name = Some team ∧
             make_team team_name (JObj fields) = Ok team).
  { intros st st' data teams team_name fields Hteams Hnd Hrun Hin.
    unfold load_roster in Hrun. unfold_monad. simpl in Hrun.
    rewrite Hteams in Hrun. simpl in Hrun.
    match type of Hrun with
    | context [for_each ?l ?b ?s] =>
        destruct (for_each l b s) as [[[]|e] st1] eqn:Hloop
    end; [|done].
    apply load_roster_loop in Hloop as (_ & _ & Hr); [|done].
    specialize (Hr team_name). rewrite (assoc_in _ _ _ Hnd Hin) in Hr.
    destruct Hr as (team & Hteam & Hlk). exists team. split; [|done].
    unfold scene_print in Hrun. unfold_monad. by simplify_eq. }
  assert (Hraise : ∀ team ns hp mp fp bp st,
     (∃ s t, position s team = Some t ∧ (length t < 2)%nat) →
     ∃ st', apply_team_to_sources team ns hp mp fp bp st
            = (Raise IndexError, st')).
  { intros team ns hp mp fp bp st Hshort.
    destruct (apply_team_to_sources_spec team ns hp mp fp bp st) as [msgs ->].
    unfold team_update. rewrite positions_update_result.
    apply (team_calls_short team hp mp fp bp) in Hshort as ->. by eexists. }
  assert (Hfine : ∀ team ns hp mp fp bp st,
     arity_ok team →
     ∃ st', apply_team_to_sources team ns hp mp fp bp st = (Ok tt, st')).
  { intros team ns hp mp fp bp st Hok.
    destruct (apply_team_to_sources_spec team ns hp mp fp bp st) as [msgs ->].
    unfold team_update. rewrite positions_update_result.
    destruct (existsb _ _) eqn:Hex; [|by eexists].
    apply team_calls_short in Hex as (s & t & Hp & Hlen).
    apply Hok in Hp. lia. }
  split_and!.
  - done.
  - intros st st' data teams team_name fields s v Hteams Hnd Hrun Hin Hrec Hv.
    destruct (Hstored _ _ _ _ _ _ Hteams Hnd Hrun Hin) as (team & Hlk & Hteam).
    assert (Hp : position s team = Some [v]).
    { apply (Hmk _ _ _ _ [("name", v)] Hteam Hrec). by simpl. }
    exists team. rewrite Hp. split_and!; [done..|].
    intros ns hp mp fp bp st0. apply Hraise. exists s, [v]. split; [done|].
    simpl. lia.
  - intros st st' data teams team_name fields Hteams Hnd Hrun Hin Htwo.
    destruct (Hstored _ _ _ _ _ _ Hteams Hnd Hrun Hin) as (team & Hlk & Hteam).
    assert (Hok : arity_ok team).
    { intros s t Hp.
      pose proof (make_team_positions _ _ _ Hteam) as [_ Hpt].
      specialize (Hpt s). rewrite Hp in Hpt.
      apply position_tup_cases in Hpt as (fields' & [= <-] & Hcase).
      destruct (Py.assoc (slot_key s) fields) as [record|] eqn:Hrec; [|done].
      destruct (Py.truthy record); [|done].
      destruct Hcase as (rf & -> & Hcase).
      destruct (Py.truthy (default JNull (Py.assoc "name" rf))) eqn:Hn;
        [|done].
      simplify_eq. rewrite length_map. by apply (Htwo s). }
    exists team. split_and!; [done..| |].
    + intros s k1 v1 k2 v2 rest Hrec Hname.
      by rewrite (Hmk _ _ _ _ _ Hteam Hrec Hname).
    + intros ns hp mp fp bp st0. by apply Hfine.
  - done.
  - intros fields key v Hrec Hv. split_and!; [|done..].
    apply (Hpos fields key [("name", v)] Hrec). by simpl.
  - intros [|a [|b t]]; simpl; split; (done || lia).
  - intros [|a [|b t]] Hlen; simpl in *; [lia..|]. by exists a, b.
  - done.
  - done.
Qed.


(** *** The display mapping *)

Lemma append_cons a s t : String a s +:+ t = String a (s +:+ t).
Proof. reflexivity. Qed.

Lemma append_nil t : "" +:+ t = t.
Proof. reflexivity. Qed.

Lemma length_append s t :
  String.length (s +:+ t) = (String.length s + String.length t)%nat.
Proof.
  induction s as [|a s IH]; [done|].
  rewrite append_cons. simpl. by rewrite IH.
Qed.

(** Two strings with suffixes of the same length are equal only when both
    parts are. *)
Lemma append_inj s1 s2 t1 t2 :
  String.length t1 = String.length t2 →
  s1 +:+ t1 = s2 +:+ t2 → s1 = s2 ∧ t1 = t2.
Proof.
  intros Hlen. revert s2.
  induction s1 as [|a s1 IH]; intros [|b s2]; rewrite ?append_cons, ?append_nil.
  - done.
  - intros ->. simpl in Hlen. rewrite length_append in Hlen. lia.
  - intros <-. simpl in Hlen. rewrite length_append in Hlen. lia.
  - intros [= -> H]. apply IH in H as [-> ->]. done.
Qed.

Lemma source_key_inj n m s s' :
  String.length s = String.length s' →
  source_key n s = source_key m s' → n = m ∧ s = s'.
Proof.
  unfold source_key. intros Hlen H.
  rewrite !append_cons, !append_nil in H. injection H as H.
  apply append_inj in H as [Hp H].
  - split; [by apply (inj pretty)|]. by simplify_eq.
  - simpl. by rewrite Hlen.
Qed.

Lemma text_sources_lookup (m : gmap Z (json * json)) k v :
  map_fold (λ (game_num : Z) (names : json * json) sources,
              let '(t1_name, t2_name) := names in
              <[source_key game_num "2" := t2_name]>
                (<[source_key game_num "1" := t1_name]> sources))
           (∅ : gmap string json) m !! k = Some v
  ↔ ∃ n t1 t2, m !! n = Some (t1, t2) ∧
       ((k = source_key n "1" ∧ v = t1) ∨ (k = source_key n "2" ∧ v = t2)).
Proof.
  revert k v.
  apply (map_fold_weak_ind (λ (r : gmap string json) (m : gmap Z (json * json)),
    ∀ k v, r !! k = Some v ↔
      ∃ n t1 t2, m !! n = Some (t1, t2) ∧
        ((k = source_key n "1" ∧ v = t1) ∨ (k = source_key n "2" ∧ v = t2)))).
  { intros k v. rewrite lookup_empty. split; [done|].
    intros (n & t1 & t2 & H & _). by rewrite lookup_empty in H. }
  clear m. intros i [a b] m r Hi IH k v. split.
  - intros H.
    destruct (decide (k = source_key i "2")) as [->|Hk2].
    { rewrite lookup_insert_eq in H. simplify_eq.
      exists i, a, v. rewrite lookup_insert_eq. auto. }
    rewrite lookup_insert_ne in H by done.
    destruct (decide (k = source_key i "1")) as [->|Hk1].
    { rewrite lookup_insert_eq in H. simplify_eq.
      exists i, v, b. rewrite lookup_insert_eq. auto. }
    rewrite lookup_insert_ne in H by done.
    apply IH in H as (n & t1 & t2 & Hn & H).
    exists n, t1, t2. split; [|done].
    rewrite lookup_insert_ne; [done|]. intros ->. by rewrite Hi in Hn.
  - intros (n & t1 & t2 & Hn & H).
    destruct (decide (i = n)) as [->|Hne].
    + rewrite lookup_insert_eq in Hn. simplify_eq.
      destruct H as [[-> ->]|[-> ->]].
      * rewrite lookup_insert_ne, lookup_insert_eq; [done|].
        intros [_ ?]%source_key_inj; done.
      * by rewrite lookup_insert_eq.
    + rewrite lookup_insert_ne in Hn by done.
      assert (k ≠ source_key i "2" ∧ k ≠ source_key i "1") as [H2 H1].
      { destruct H as [[-> _]|[-> _]]; split;
          intros [? _]%source_key_inj; done. }
      rewrite !lookup_insert_ne by done. apply IH. by exists n, t1, t2.
Qed.

(** C6: [get_bracket_text_sources] only reads the match mapping: it
    returns normally and leaves the state as it is; the keys of the result
    are exactly [G{n}_T1] and [G{n}_T2] for the play orders [n] of the
    mapping, each mapped to the name of that side of game [n] ([JNull] when
    there is none); and two states with the same match mapping give the same
    result. *)
Theorem get_bracket_text_sources_spec (st : bracket_state) :
  ∃ src,
    get_bracket_text_sources st = (Ok src, st) ∧
    (∀ k, k ∈ dom src ↔
          ∃ n, n ∈ dom (MATCHES st) ∧
               (k = source_key n "1" ∨ k = source_key n "2")) ∧
    (∀ n t1 t2, MATCHES st !! n = Some (t1, t2) →
       src !! source_key n "1" = Some t1 ∧
       src !! source_key n "2" = Some t2) ∧
    (∀ st2, MATCHES st2 = MATCHES st →
       get_bracket_text_sources st2 = (Ok src, st2)).
Proof.
  eexists. split; [reflexivity|]. split_and!.
  - intros k. rewrite elem_of_dom. unfold is_Some.
    setoid_rewrite text_sources_lookup. split.
    + intros (v & n & t1 & t2 & Hn & H). exists n. split.
      * apply elem_of_dom. eauto.
      * destruct H as [[-> _]|[-> _]]; auto.
    + intros (n & [[t1 t2] Hn]%elem_of_dom & [->| ->]).
      * exists t1, n, t1, t2. auto.
      * exists t2, n, t1, t2. auto.
  - intros n t1 t2 Hn. split; apply text_sources_lookup; exists n, t1, t2; auto.
  - intros st2 Heq. unfold get_bracket_text_sources, gets. by rewrite Heq.
Qed.


(** *** Building the match mapping *)

Lemma set_matches_id st : set_matches (λ m, m) st = st.
Proof. by destruct st. Qed.

Lemma side_id_wf l i :
  forallb wf_point l = true →
  ∃ id, side_id (JArr l) i = Ok id ∧
    ∀ parts st, PARTICIPANTS st = parts →
      participants_get id st
      = (Ok (match l !! i with
             | Some (JObj fields) =>
                 match Py.assoc "participant_id" fields with
                 | Some (JInt z) => default JNull (parts !! z)
                 | _ => JNull
                 end
             | _ => JNull
             end), st).
Proof.
  intros Hwf. unfold side_id. unfold_monad. simpl.
  case_bool_decide as Hlt.
  - apply lookup_lt_is_Some in Hlt as [e He]. rewrite He.
    assert (wf_point e = true) as Hwe.
    { rewrite forallb_forall in Hwf. apply Hwf.
      apply list_elem_of_In. by eapply list_elem_of_lookup_2. }
    destruct e as [| | | | |fields]; try done. simpl in *.
    destruct (Py.assoc "participant_id" fields) as [[| |z| | |]|]; try done;
      eexists; (split; [reflexivity|]); by intros parts st <-.
  - apply Nat.nlt_ge, lookup_ge_None in Hlt. rewrite Hlt.
    eexists. split; [reflexivity|]. by intros parts st <-.
Qed.

(** On a well-formed record the body of the loop completes and has the
    effect of [add_match]. *)
Lemma match_loop_body_wf m st :
  wf_match m = true →
  match_loop_body m st
  = (Ok tt, set_matches (λ acc, add_match (PARTICIPANTS st) acc m) st).
Proof.
  unfold wf_match, match_loop_body, add_match, play_order_of, side_name,
    points_of, attributes_of.
  destruct m as [| | | | |fields]; try done. unfold_monad. simpl.
  destruct (Py.assoc "attributes" fields) as [[| | | | |attrs]|]; try done.
  simpl.
  destruct (Py.assoc "suggested_play_order" attrs) as [[| |n| | |]|];
    try done; simpl; try (intros _; by rewrite set_matches_id).
  destruct (Py.assoc "points_by_participant" attrs) as [[| | | |l|]|];
    try done; simpl.
  intros Hwf.
  destruct (side_id_wf l 0 Hwf) as (id1 & -> & H1).
  destruct (side_id_wf l 1 Hwf) as (id2 & -> & H2).
  by rewrite (H1 _ st eq_refl), (H2 _ st eq_refl).
Qed.

Lemma get_matches_loop ms st :
  forallb wf_match ms = true →
  for_each ms match_loop_body st
  = (Ok tt, set_matches (λ acc, foldl (add_match (PARTICIPANTS st)) acc ms) st).
Proof.
  revert st. induction ms as [|m ms IH]; intros st Hwf.
  { simpl. unfold_monad. by rewrite set_matches_id. }
  simpl in Hwf. apply andb_true_iff in Hwf as [Hm Hms].
  cbn [for_each]. unfold_monad. rewrite (match_loop_body_wf m st Hm).
  rewrite (IH _ Hms). by destruct st.
Qed.


Lemma add_match_dom parts acc ms n :
  n ∈ dom (foldl (add_match parts) acc ms)
  ↔ n ∈ dom acc ∨ ∃ m, m ∈ ms ∧ play_order_of m = Some n.
Proof.
  revert acc. induction ms as [|m ms IH]; intros acc; simpl.
  { split; [auto|]. intros [?|(m & Hm%elem_of_nil & _)]; done. }
  rewrite IH. unfold add_match at 1. split.
  - intros [Hd|(m' & Hin & Hpo)].
    + destruct (play_order_of m) as [k|] eqn:Hk; [|auto].
      apply dom_insert, elem_of_union in Hd as [->%elem_of_singleton|Hd]; [|auto].
      right. exists m. split; [left|done].
    + right. exists m'. split; [by right|done].
  - intros [Hd|(m' & Hin & Hpo)].
    + left. destruct (play_order_of m); [|done].
      apply dom_insert, elem_of_union. auto.
    + apply elem_of_cons in Hin as [->|Hin].
      * left. rewrite Hpo. apply dom_insert, elem_of_union. left.
        by apply elem_of_singleton.
      * right. by exists m'.
Qed.

Lemma add_match_size parts acc ms :
  (size (foldl (add_match parts) acc ms) ≤ size acc + length ms)%nat.
Proof.
  revert acc. induction ms as [|m ms IH]; intros acc; simpl; [lia|].
  etrans; [apply IH|]. unfold add_match.
  destruct (play_order_of m) as [k|]; [|lia].
  destruct (acc !! k) eqn:Hk.
  - rewrite map_size_insert_Some by eauto. lia.
  - rewrite map_size_insert_None by done. lia.
Qed.

Lemma add_match_size_distinct parts acc ms :
  NoDup (omap play_order_of ms) →
  (∀ n, n ∈ omap play_order_of ms → acc !! n = None) →
  size (foldl (add_match parts) acc ms)
  = (size acc + length (omap play_order_of ms))%nat.
Proof.
  revert acc. induction ms as [|m ms IH]; intros acc Hnd Hfresh; simpl; [lia|].
  unfold add_match at 2. simpl in Hnd, Hfresh.
  destruct (play_order_of m) as [k|] eqn:Hk; simpl in *.
  - apply NoDup_cons in Hnd as [Hni Hnd]. rewrite IH; [|done|].
    + rewrite map_size_insert_None; [by rewrite Nat.add_succ_r|].
      apply Hfresh. left.
    + intros n Hn. rewrite lookup_insert_ne; [|by intros ->].
      apply Hfresh. by right.
  - by apply IH.
Qed.

Lemma add_match_lookup parts acc ms n v :
  foldl (add_match parts) acc ms !! n = Some v →
  (acc !! n = Some v ∧ ∀ m, m ∈ ms → play_order_of m ≠ Some n) ∨
  ∃ pre m post,
    ms = pre ++ m :: post ∧ play_order_of m = Some n ∧
    (∀ m', m' ∈ post → play_order_of m' ≠ Some n) ∧
    v = (side_name parts m 0, side_name parts m 1).
Proof.
  revert acc. induction ms as [|m ms IH]; intros acc; simpl.
  { intros H. left. split; [done|]. by intros m ?%elem_of_nil. }
  intros [[Hacc Hlater]|(pre & m0 & post & -> & Hpo & Hpost & ->)]%IH.
  - unfold add_match in Hacc.
    destruct (play_order_of m) as [k|] eqn:Hk.
    + destruct (decide (k = n)) as [->|Hne].
      * rewrite lookup_insert_eq in Hacc. simplify_eq.
        right. by exists [], m, ms.
      * rewrite lookup_insert_ne in Hacc by done. left. split; [done|].
        intros m' [->|Hin]%elem_of_cons; [congruence|auto].
    + left. split; [done|].
      intros m' [->|Hin]%elem_of_cons; [congruence|auto].
  - right. by exists (m :: pre), m0, post.
Qed.

(** C3: for a list of well-formed match records the fetch completes and the
    match mapping has exactly the play orders of the records that carry one
    as keys (a record without one adds nothing, so the mapping has at most
    as many entries as there are records, and as many as there are records
    with a play order when these are distinct); each entry holds the two
    sides of the last record with that play order, side 1 resolved through
    the participant mapping from element 0 of its points list and side 2
    from element 1, [JNull] when the list is too short or the id is
    unknown. *)
Theorem get_matches_spec (net : string → http_outcome) (st : bracket_state)
    (o : list (string * json)) (ms : list json) :
  API_KEY st ≠ "" → TOURNAMENT_ID st ≠ "" →
  net (matches_url st) = Payload (JObj o) →
  Py.assoc "data" o = Some (JArr ms) →
  forallb wf_match ms = true →
  ∃ st',
    get_matches net st = (Ok tt, st') ∧
    PARTICIPANTS st' = PARTICIPANTS st ∧
    MATCHES st' = matches_of (PARTICIPANTS st) ms ∧
    (∀ n, n ∈ dom (MATCHES st') ↔
          ∃ m, m ∈ ms ∧ play_order_of m = Some n) ∧
    (size (MATCHES st') ≤ length ms)%nat ∧
    (NoDup (omap play_order_of ms) →
     size (MATCHES st') = length (omap play_order_of ms)) ∧
    (∀ n v, MATCHES st' !! n = Some v →
       ∃ pre m post,
         ms = pre ++ m :: post ∧ play_order_of m = Some n ∧
         (∀ m', m' ∈ post → play_order_of m' ≠ Some n) ∧
         v = (side_name (PARTICIPANTS st) m 0,
              side_name (PARTICIPANTS st) m 1)).
Proof.
  intros Hk Ht Hn Hdata Hwf.
  assert (Hd : has_data (JObj o) = Ok true).
  { unfold has_data, Py.contains. destruct o as [|kv o]; [done|].
    cbn [Py.truthy]. by rewrite Hdata. }
  eexists. split.
  { unfold get_matches, _api_request. unfold_monad. unfold Py.nonempty.
    apply String.eqb_neq in Hk, Ht. rewrite Ht. simpl. rewrite Hk. simpl.
    unfold matches_url, api_url in Hn. rewrite Hn. simpl.
    rewrite Hd. cbn [Py.getitem]. rewrite Hdata. cbn [Py.iter].
    rewrite get_matches_loop by done. reflexivity. }
  simpl. fold (matches_of (PARTICIPANTS st) ms). split_and!; [done..| | | |].
  - intros n. unfold matches_of. rewrite add_match_dom, dom_empty.
    split; [|auto]. intros [[]%elem_of_empty|H]; done.
  - etrans; [apply add_match_size|]. by rewrite map_size_empty.
  - intros Hnd. unfold matches_of.
    rewrite add_match_size_distinct, ?map_size_empty; done.
  - intros n v [[H _]|H]%add_match_lookup; [by rewrite lookup_empty in H|done].
Qed.


(** *** Prefixes of source names *)

Lemma startswith_refl p : Py.startswith p p = true.
Proof. induction p as [|a p IH]; [done|]. simpl. by rewrite Ascii.eqb_refl. Qed.

Lemma startswith_app p s : Py.startswith p (p +:+ s) = true.
Proof.
  induction p as [|a p IH]; [done|].
  rewrite append_cons. simpl. by rewrite Ascii.eqb_refl.
Qed.

Lemma startswith_trans p q s :
  Py.startswith p q = true → Py.startswith q s = true →
  Py.startswith p s = true.
Proof.
  revert q s. induction p as [|a p IH]; intros [|b q] [|c s]; simpl; try done.
  destruct (Ascii.eqb_spec a b) as [->|]; [|done].
  destruct (Ascii.eqb_spec b c) as [->|]; [|done].
  apply IH.
Qed.

(** Two prefixes of one string: one of them is a prefix of the other. *)
Lemma startswith_comparable p q s :
  Py.startswith p s = true → Py.startswith q s = true →
  Py.startswith p q = true ∨ Py.startswith q p = true.
Proof.
  revert q s. induction p as [|a p IH]; intros [|b q] [|c s]; simpl; auto;
    try done.
  destruct (Ascii.eqb_spec a c) as [->|]; [|done].
  destruct (Ascii.eqb_spec b c) as [->|]; [|done].
  rewrite Ascii.eqb_refl. apply IH.
Qed.

Lemma startswith_nonempty p s :
  Py.nonempty p = true → Py.startswith p s = true → Py.nonempty s = true.
Proof. by destruct p, s. Qed.

Lemma new_source_name_startswith p n :
  Py.startswith p (new_source_name p n) = true.
Proof.
  unfold new_source_name.
  destruct (Py.truthy n); [apply startswith_app|apply startswith_refl].
Qed.

(** The source a position call writes matches the prefix of the call. *)
Lemma matches_written p n d s :
  Py.nonempty p = true →
  matches p (src_update d (src_rename (new_source_name p n) s)) = true.
Proof.
  intros Hp. unfold matches. simpl.
  rewrite new_source_name_startswith, andb_true_r.
  eapply startswith_nonempty; [done|apply new_source_name_startswith].
Qed.

(** *** Searching the sources *)

Lemma first_match_Some p l i :
  first_match p l = Some i →
  ∃ s, l !! i = Some s ∧ matches p s = true ∧
       ∀ j s', (j < i)%nat → l !! j = Some s' → matches p s' = false.
Proof.
  revert i. induction l as [|s l IH]; intros i; [done|]. simpl.
  destruct (matches p s) eqn:Hm.
  - intros [= <-]. exists s. split_and!; [done..|]. intros; lia.
  - destruct (first_match p l) as [i'|]; [|done]. intros [= <-].
    destruct (IH i' eq_refl) as (s0 & Hl & Hm0 & Hbefore).
    exists s0. split_and!; [done..|].
    intros [|j] s' Hj; simpl; [by intros [= <-]|].
    apply Hbefore. lia.
Qed.

Lemma first_match_None p l :
  first_match p l = None → ∀ j s, l !! j = Some s → matches p s = false.
Proof.
  induction l as [|s l IH]; [done|]. simpl.
  destruct (matches p s) eqn:Hm; [done|].
  destruct (first_match p l); [done|]. intros _ [|j] s'; simpl.
  - by intros [= <-].
  - by apply IH.
Qed.

Lemma first_named_Some n l i :
  first_named n l = Some i →
  ∃ s, l !! i = Some s ∧ src_name s = n ∧
       ∀ j s', (j < i)%nat → l !! j = Some s' → src_name s' ≠ n.
Proof.
  revert i. induction l as [|s l IH]; intros i; [done|]. simpl.
  destruct (String.eqb_spec (src_name s) n) as [Heq|Hne].
  - intros [= <-]. exists s. split_and!; [done..|]. intros; lia.
  - destruct (first_named n l) as [i'|]; [|done]. intros [= <-].
    destruct (IH i' eq_refl) as (s0 & Hl & Hm0 & Hbefore).
    exists s0. split_and!; [done..|].
    intros [|j] s' Hj; simpl; [by intros [= <-]|].
    apply Hbefore. lia.
Qed.

(** A change of one source that keeps what the search looks at keeps the
    result of the search. *)
Lemma first_match_alter p f i l :
  (∀ s, l !! i = Some s → matches p (f s) = matches p s) →
  first_match p (alter f i l) = first_match p l.
Proof.
  revert i. induction l as [|s l IH]; intros i Hf; [done|].
  destruct i as [|i].
  - simpl. by rewrite (Hf s eq_refl).
  - change (first_match p (s :: alter f i l) = first_match p (s :: l)).
    simpl. rewrite IH; [done|]. intros s' Hs'. by apply Hf.
Qed.

Lemma first_named_alter n f i l :
  (∀ s, l !! i = Some s →
        String.eqb (src_name (f s)) n = String.eqb (src_name s) n) →
  first_named n (alter f i l) = first_named n l.
Proof.
  revert i. induction l as [|s l IH]; intros i Hf; [done|].
  destruct i as [|i].
  - simpl. by rewrite (Hf s eq_refl).
  - change (first_named n (s :: alter f i l) = first_named n (s :: l)).
    simpl. rewrite IH; [done|]. intros s' Hs'. by apply Hf.
Qed.


(** *** The calls of [apply_team_to_sources], one by one *)

Lemma positions_update_run calls l :
  (positions_update calls l).2 = run_calls (resolved calls) l.
Proof.
  revert l. induction calls as [|[p pos] calls IH]; intros l; [done|].
  simpl. destruct (position_args pos) as [[n k]|e]; [|done]. apply IH.
Qed.

Lemma browser_update_lookup p n k l j :
  browser_update p n k l !! j
  = if Py.nonempty p && bool_decide (first_match p l = Some j)
    then written p n k <$> l !! j else l !! j.
Proof.
  unfold browser_update. destruct (Py.nonempty p); [|done]. simpl.
  destruct (first_match p l) as [i|]; [|by rewrite bool_decide_false].
  case_bool_decide as Hj.
  - simplify_eq. by rewrite list_lookup_alter_eq.
  - rewrite list_lookup_alter_ne; [done|congruence].
Qed.

(** A position call changes at most one source, one that matches the
    prefix before and after. *)
Lemma browser_update_frame p n k l j :
  browser_update p n k l !! j = l !! j ∨
  ∃ s, l !! j = Some s ∧
       browser_update p n k l !! j = Some (written p n k s) ∧
       first_match p l = Some j ∧
       Py.nonempty p = true ∧ matches p s = true ∧
       matches p (written p n k s) = true.
Proof.
  rewrite browser_update_lookup.
  destruct (Py.nonempty p) eqn:Hp; [|by left]. simpl.
  case_bool_decide as Hj; [|by left].
  destruct (first_match_Some _ _ _ Hj) as (s & Hs & Hm & _).
  right. exists s. rewrite Hs. split_and!; try done.
  by apply matches_written.
Qed.

Lemma text_update_lookup ns t l j :
  text_update ns t l !! j
  = if Py.nonempty ns && bool_decide (first_named ns l = Some j)
    then src_update {[ "text" := t ]} <$> l !! j else l !! j.
Proof.
  unfold text_update. destruct (Py.nonempty ns); [|done]. simpl.
  destruct (first_named ns l) as [i|]; [|by rewrite bool_decide_false].
  case_bool_decide as Hj.
  - simplify_eq. by rewrite list_lookup_alter_eq.
  - rewrite list_lookup_alter_ne; [done|congruence].
Qed.

Lemma text_update_frame ns t l j :
  text_update ns t l !! j = l !! j ∨
  ∃ s, l !! j = Some s ∧
       text_update ns t l !! j = Some (src_update {[ "text" := t ]} s) ∧
       first_named ns l = Some j ∧ src_name s = ns.
Proof.
  rewrite text_update_lookup.
  destruct (Py.nonempty ns) eqn:Hp; [|by left]. simpl.
  case_bool_decide as Hj; [|by left].
  destruct (first_named_Some _ _ _ Hj) as (s & Hs & Hm & _).
  right. exists s. by rewrite Hs.
Qed.

Lemma owned_name ns ps s : src_name s = ns → owned ns ps s = true.
Proof. intros <-. unfold owned. by rewrite String.eqb_refl. Qed.

Lemma owned_prefix ns ps p s :
  p ∈ ps → Py.nonempty p = true → matches p s = true → owned ns ps s = true.
Proof.
  intros Hin Hp Hm. unfold owned. apply orb_true_iff. right.
  apply existsb_exists. exists p. rewrite Hp, Hm.
  split; [by apply list_elem_of_In|done].
Qed.

(** A run of position calls changes only sources the configuration is
    about, and leaves them such. *)
Lemma run_calls_frame ns ps ops l j :
  (∀ op, op ∈ ops → op.1.1 ∈ ps) →
  run_calls ops l !! j = l !! j ∨
  ∃ s s', l !! j = Some s ∧ run_calls ops l !! j = Some s' ∧
          owned ns ps s = true ∧ owned ns ps s' = true.
Proof.
  revert l. induction ops as [|[[p n] k] ops IH]; intros l Hps; [by left|].
  simpl.
  assert (Hp : p ∈ ps) by (apply (Hps (p, n, k)); left).
  destruct (IH (browser_update p n k l)) as [Heq|(s & s' & Hs & Hs' & Ho & Ho')].
  { intros op Hop. apply Hps. by right. }
  - rewrite Heq.
    destruct (browser_update_frame p n k l j)
      as [?|(s & Hs & -> & _ & Hne & Hm & Hm')]; [by left|].
    right. exists s, (written p n k s). split_and!; try done;
      by eapply owned_prefix.
  - rewrite Hs'.
    destruct (browser_update_frame p n k l j)
      as [Heq|(s0 & Hs0 & Hw & _ & Hne & Hm & Hm')].
    + right. exists s, s'. by rewrite <- Heq.
    + right. exists s0, s'. split_and!; try done. by eapply owned_prefix.
Qed.

Lemma team_update_frame team ns hp mp fp bp l j :
  (team_update team ns hp mp fp bp l).2 !! j = l !! j ∨
  ∃ s s', l !! j = Some s ∧
          (team_update team ns hp mp fp bp l).2 !! j = Some s' ∧
          owned ns [hp; mp; fp; bp] s = true ∧
          owned ns [hp; mp; fp; bp] s' = true.
Proof.
  clear int_of_str.
  unfold team_update. rewrite positions_update_run.
  set (l' := text_update ns (Team.name team) l).
  assert (Hps : ∀ op, op ∈ resolved (team_calls team hp mp fp bp) →
                      op.1.1 ∈ [hp; mp; fp; bp]).
  { unfold team_calls. simpl. intros op.
    repeat (destruct (position_args _) as [[??]|?]; simpl;
            [|set_solver]). set_solver. }
  destruct (run_calls_frame ns [hp; mp; fp; bp] _ l' j Hps)
    as [Heq|(s & s' & Hs & Hs' & Ho & Ho')].
  - rewrite Heq. subst l'.
    destruct (text_update_frame ns (Team.name team) l j)
      as [?|(s & Hs & -> & _ & Hn)]; [by left|].
    right. exists s, (src_update {[ "text" := Team.name team ]} s).
    split_and!; try done; by apply owned_name.
  - rewrite Hs'. subst l'.
    destruct (text_update_frame ns (Team.name team) l j)
      as [Heq|(s0 & Hs0 & Hw & _ & Hn)].
    + right. exists s, s'. by rewrite <- Heq.
    + right. exists s0, s'. split_and!; try done. by apply owned_name.
Qed.


Lemma apart_sym p q : apart p q = apart q p.
Proof. unfold apart. apply andb_comm. Qed.

Lemma apart_matches p q s :
  apart p q = true → matches p s = true → matches q s = false.
Proof.
  unfold apart, matches. intros [Hpq Hqp]%andb_true_iff [Hn Hp]%andb_true_iff.
  rewrite Hn. simpl. destruct (Py.startswith q (src_name s)) eqn:Hq; [|done].
  destruct (startswith_comparable _ _ _ Hp Hq) as [H|H]; rewrite H in *; done.
Qed.

(** Sources that match none of the prefixes of a run are left alone. *)
Lemma run_calls_foreign ops l i s :
  l !! i = Some s →
  (∀ op, op ∈ ops → Py.nonempty op.1.1 = true → matches op.1.1 s = false) →
  run_calls ops l !! i = Some s.
Proof.
  revert l. induction ops as [|[[p n] k] ops IH]; intros l Hs Hf; [done|].
  simpl. apply IH; [|intros op Hop; apply Hf; by right].
  destruct (browser_update_frame p n k l i)
    as [->|(s0 & Hs0 & _ & _ & Hne & Hm & _)]; [done|].
  simplify_eq. specialize (Hf (p, n, k)). simpl in Hf.
  rewrite Hf in Hm; [done|left|done].
Qed.

Lemma first_match_browser_update p q n k l :
  apart q p = true →
  first_match p (browser_update q n k l) = first_match p l.
Proof.
  intros Hap. unfold browser_update.
  destruct (Py.nonempty q) eqn:Hq; [|done].
  destruct (first_match q l) as [j|] eqn:Hj; [|done].
  apply first_match_alter. intros s Hs.
  destruct (first_match_Some _ _ _ Hj) as (s' & Hs' & Hm & _). simplify_eq.
  rewrite (apart_matches q p s Hap Hm).
  apply (apart_matches q p _ Hap). by apply matches_written.
Qed.

Lemma first_match_run_calls p ops l :
  (∀ op, op ∈ ops → apart op.1.1 p = true) →
  first_match p (run_calls ops l) = first_match p l.
Proof.
  revert l. induction ops as [|[[q n] k] ops IH]; intros l Hap; [done|].
  simpl. rewrite IH; [|intros op Hop; apply Hap; by right].
  apply first_match_browser_update. apply (Hap (q, n, k)). left.
Qed.

Lemma pairwise_apart_app ps p qs :
  pairwise_apart (ps ++ p :: qs) = true →
  (∀ q, q ∈ ps → apart q p = true) ∧ (∀ q, q ∈ qs → apart q p = true).
Proof.
  clear int_of_str.
  induction ps as [|a ps IH]; simpl.
  - intros [Hf _]%andb_true_iff. split; [by intros q ?%elem_of_nil|].
    intros q Hq. rewrite apart_sym. rewrite forallb_forall in Hf.
    apply Hf. by apply list_elem_of_In.
  - intros [Hf Hrest]%andb_true_iff. destruct (IH Hrest) as [H1 H2].
    split; [|done]. intros q [->|Hq]%elem_of_cons; [|auto].
    rewrite forallb_forall in Hf. apply Hf, list_elem_of_In. set_solver.
Qed.

(** With prefixes pairwise apart, the source a prefix finds before the run
    is the source its call writes, and it stays as written. *)
Lemma run_calls_lookup pre p n k post l i s :
  pairwise_apart ((pre ++ (p, n, k) :: post).*1.*1) = true →
  Py.nonempty p = true →
  first_match p l = Some i → l !! i = Some s →
  run_calls (pre ++ (p, n, k) :: post) l !! i = Some (written p n k s).
Proof.
  intros Hpw Hp Hi Hs.
  rewrite !fmap_app, !fmap_cons in Hpw. simpl in Hpw.
  apply pairwise_apart_app in Hpw as [Hpre Hpost].
  destruct (first_match_Some _ _ _ Hi) as (s' & Hs' & Hm & _). simplify_eq.
  unfold run_calls. rewrite foldl_app. simpl. fold (run_calls pre l).
  match goal with |- foldl ?f ?a post !! _ = _ => change (foldl f a post) with (run_calls post a) end.
  assert (Hpre' : ∀ op, op ∈ pre → apart op.1.1 p = true).
  { intros op Hop. apply Hpre. apply list_elem_of_fmap. exists op.1.
    split; [done|]. apply list_elem_of_fmap. by exists op. }
  assert (Hpost' : ∀ op, op ∈ post → apart op.1.1 p = true).
  { intros op Hop. apply Hpost. apply list_elem_of_fmap. exists op.1.
    split; [done|]. apply list_elem_of_fmap. by exists op. }
  apply run_calls_foreign.
  - rewrite browser_update_lookup, Hp, first_match_run_calls by done.
    rewrite Hi, bool_decide_true by done. simpl.
    rewrite (run_calls_foreign pre l i s Hs); [done|].
    intros op Hop _. rewrite <- (apart_matches p op.1.1 s); [done| |done].
    rewrite apart_sym. auto.
  - intros op Hop _. apply (apart_matches p); [rewrite apart_sym; auto|].
    by apply matches_written.
Qed.


Lemma arity_ok_short team s : arity_ok team → short (position s team) = false.
Proof.
  intros Hok. unfold short. destruct (position s team) as [t|] eqn:Hp; [|done].
  apply Hok in Hp. apply bool_decide_eq_false. lia.
Qed.

Lemma resolved_team_calls team hp mp fp bp :
  arity_ok team →
  resolved (team_calls team hp mp fp bp)
  = [(hp, player_of (Team.helm team), link_of (Team.helm team));
     (mp, player_of (Team.mc team), link_of (Team.mc team));
     (fp, player_of (Team.flex team), link_of (Team.flex team));
     (bp, player_of (Team.bilge team), link_of (Team.bilge team))].
Proof.
  intros Hok. unfold team_calls. cbn [resolved].
  rewrite position_args_short.
  pose proof (arity_ok_short team Helm Hok) as H1.
  pose proof (arity_ok_short team Mc Hok) as H2.
  pose proof (arity_ok_short team Flex Hok) as H3.
  pose proof (arity_ok_short team Bilge Hok) as H4.
  simpl in H1, H2, H3, H4. rewrite H1. cbn [resolved].
  rewrite position_args_short, H2. cbn [resolved].
  rewrite position_args_short, H3. cbn [resolved].
  rewrite position_args_short, H4. reflexivity.
Qed.

(** What [apply_team_to_sources] leaves behind under a configuration whose
    sources cannot be mistaken for one another: the run completes, the text
    source shows the team name, and the source each prefix finds carries the
    name and the URL of its position. *)
Lemma team_update_described team ns hp mp fp bp l :
  arity_ok team →
  config_ok ns [hp; mp; fp; bp] = true →
  (team_update team ns hp mp fp bp l).1 = Ok tt ∧
  (∀ t s, first_named ns l = Some t → l !! t = Some s →
     (team_update team ns hp mp fp bp l).2 !! t
     = Some (src_update {[ "text" := Team.name team ]} s)) ∧
  (∀ x i s, first_match (slot_prefix hp mp fp bp x) l = Some i →
     l !! i = Some s →
     (team_update team ns hp mp fp bp l).2 !! i
     = Some (written (slot_prefix hp mp fp bp x)
               (player_of (position x team)) (link_of (position x team)) s)).
Proof.
  clear int_of_str.
  intros Hok Hcfg. unfold config_ok in Hcfg.
  apply andb_true_iff in Hcfg as [Hcfg Hpw].
  apply andb_true_iff in Hcfg as [Hcfg Hns].
  apply andb_true_iff in Hcfg as [Hne Hps].
  assert (Hforeign : ∀ s p, src_name s = ns → p ∈ [hp; mp; fp; bp] →
            matches p s = false).
  { intros s p Hs Hp. rewrite forallb_forall in Hns.
    apply list_elem_of_In, Hns, negb_true_iff in Hp.
    unfold matches. by rewrite Hs, Hp, andb_false_r. }
  assert (Hin : ∀ op, op ∈ resolved (team_calls team hp mp fp bp) →
                      op.1.1 ∈ [hp; mp; fp; bp]).
  { rewrite resolved_team_calls by done. intros op. set_solver. }
  split_and!.
  - unfold team_update. rewrite positions_update_result.
    destruct (existsb _ _) eqn:Hex; [|done].
    apply team_calls_short in Hex as (s & t & Hp & Hlen).
    apply Hok in Hp. lia.
  - intros t s Ht Hs. unfold team_update. rewrite positions_update_run.
    apply run_calls_foreign.
    + rewrite text_update_lookup, Hne, Ht, bool_decide_true, Hs by done. done.
    + intros op Hop _. destruct (first_named_Some _ _ _ Ht) as (s' & ? & Hn & _).
      simplify_eq. apply Hforeign; [done|auto].
  - intros x i s Hi Hs. unfold team_update. rewrite positions_update_run.
    set (l' := text_update ns (Team.name team) l).
    assert (Hi' : first_match (slot_prefix hp mp fp bp x) l' = Some i).
    { subst l'. unfold text_update. rewrite Hne.
      destruct (first_named ns l); [|done].
      by rewrite first_match_alter. }
    assert (Hs' : l' !! i = Some s).
    { subst l'.
      destruct (text_update_frame ns (Team.name team) l i)
        as [->|(s0 & Hs0 & _ & _ & Hn)]; [done|]. simplify_eq.
      destruct (first_match_Some _ _ _ Hi) as (s' & ? & Hm & _). simplify_eq.
      rewrite Hforeign in Hm; [done..|]. destruct x; set_solver. }
    assert (Hp : Py.nonempty (slot_prefix hp mp fp bp x) = true).
    { rewrite forallb_forall in Hps. apply Hps, list_elem_of_In.
      destruct x; set_solver. }
    rewrite resolved_team_calls by done.
    destruct x; cbn [slot_prefix position] in *.
    + apply (run_calls_lookup [] hp _ _ [_; _; _]); [exact Hpw|done..].
    + apply (run_calls_lookup [_; _] fp _ _ [_]); [exact Hpw|done..].
    + apply (run_calls_lookup [_] mp _ _ [_; _]); [exact Hpw|done..].
    + apply (run_calls_lookup [_; _; _] bp _ _ []); [exact Hpw|done..].
Qed.


(** *** The two sides do not meet *)

Lemma owned_disjoint ns ps ns' ps' s :
  configs_apart ns ps ns' ps' = true →
  owned ns ps s = true → owned ns' ps' s = false.
Proof.
  unfold configs_apart. intros H.
  apply andb_true_iff in H as [H Hap].
  apply andb_true_iff in H as [H Hq].
  apply andb_true_iff in H as [Hne Hp].
  apply negb_true_iff, String.eqb_neq in Hne.
  rewrite forallb_forall in Hap, Hq, Hp.
  unfold owned. intros [Hn|Hm]%orb_true_iff; apply orb_false_iff; split.
  - apply String.eqb_eq in Hn. apply String.eqb_neq. congruence.
  - apply String.eqb_eq in Hn. apply not_true_iff_false.
    intros (q & Hin & Hqs)%existsb_exists.
    apply andb_true_iff in Hqs as [_ [_ Hqs]%andb_true_iff].
    apply Hq, negb_true_iff in Hin. congruence.
  - apply existsb_exists in Hm as (p & Hin & Hps).
    apply andb_true_iff in Hps as [_ [_ Hps]%andb_true_iff].
    apply String.eqb_neq. intros Heq.
    apply Hp, negb_true_iff in Hin. congruence.
  - apply existsb_exists in Hm as (p & Hin & Hps).
    apply andb_true_iff in Hps as [_ Hps].
    apply not_true_iff_false. intros (q & Hin' & Hqs)%existsb_exists.
    apply andb_true_iff in Hqs as [_ Hqs].
    apply Hap in Hin. rewrite forallb_forall in Hin. apply Hin in Hin'.
    by rewrite (apart_matches p q s Hin' Hps) in Hqs.
Qed.

Lemma team_update_length team ns hp mp fp bp l :
  length (team_update team ns hp mp fp bp l).2 = length l.
Proof.
  unfold team_update. rewrite positions_update_run.
  assert (Ht : length (text_update ns (Team.name team) l) = length l).
  { unfold text_update. destruct (Py.nonempty ns); [|done].
    destruct (first_named ns l); [|done]. apply length_alter. }
  rewrite <- Ht. generalize (text_update ns (Team.name team) l).
  induction (resolved _) as [|[[p n] k] ops IH]; intros l0; [done|].
  simpl. rewrite IH. unfold browser_update.
  destruct (Py.nonempty p); [|done].
  destruct (first_match p l0); [|done]. apply length_alter.
Qed.

(** Applying a team under one configuration leaves the sources of a
    configuration apart from it untouched. *)
Lemma team_update_untouched team ns hp mp fp bp ns' ps' l :
  configs_apart ns [hp; mp; fp; bp] ns' ps' = true →
  side_untouched (owned ns' ps') l (team_update team ns hp mp fp bp l).2.
Proof.
  intros Hap. split; [apply team_update_length|].
  intros i.
  destruct (team_update_frame team ns hp mp fp bp l i)
    as [->|(s & s' & Hs & -> & Ho & Ho')]; [done|].
  split; intros s0 ? Hside; simplify_eq.
  - by rewrite (owned_disjoint _ _ _ _ _ Hap Ho) in Hside.
  - by rewrite (owned_disjoint _ _ _ _ _ Hap Ho') in Hside.
Qed.


(** *** A transition with one team missing *)

Lemma T1_config_ok : config_ok T1_NAME_SOURCE T1_PREFIXES = true.
Proof. reflexivity. Qed.

Lemma T2_config_ok : config_ok T2_NAME_SOURCE T2_PREFIXES = true.
Proof. reflexivity. Qed.

Lemma T1_T2_apart :
  configs_apart T1_NAME_SOURCE T1_PREFIXES T2_NAME_SOURCE T2_PREFIXES = true.
Proof. reflexivity. Qed.

Lemma T2_T1_apart :
  configs_apart T2_NAME_SOURCE T2_PREFIXES T1_NAME_SOURCE T1_PREFIXES = true.
Proof. reflexivity. Qed.

(** C1, with the condition it needs: when one of the two selected names is
    in the roster and the other is not, and every populated position of the
    known team has a name and a link, [execute_transition] returns
    normally; the sources of the known side are updated as
    [apply_team_to_sources] does it (text source, and the source found by
    each of the four prefixes); the sources of the other side are where and
    what they were; the roster is unchanged; and the missing team is
    reported.  This holds for a missing side 2 and for a missing side 1. *)
Theorem execute_transition_one_side (st : scene_state)
    (known unknown : string) (team : Team.t) :
  TEAM_ROSTER st !! known = Some team →
  TEAM_ROSTER st !! unknown = None →
  arity_ok team →
  (∃ st',
     execute_transition known unknown st = (Ok tt, st') ∧
     TEAM_ROSTER st' = TEAM_ROSTER st ∧
     sources st'
     = (team_update team T1_NAME_SOURCE T1_HELM_PREFIX T1_MC_PREFIX
          T1_FLEX_PREFIX T1_BILGE_PREFIX (sources st)).2 ∧
     side_updated T1_NAME_SOURCE T1_PREFIX team (sources st) (sources st') ∧
     side_untouched side2_source (sources st) (sources st') ∧
     ("[Tournament] Team 2 not found in roster: " +:+ unknown) ∈ scene_out st') ∧
  (∃ st',
     execute_transition unknown known st = (Ok tt, st') ∧
     TEAM_ROSTER st' = TEAM_ROSTER st ∧
     sources st'
     = (team_update team T2_NAME_SOURCE T2_HELM_PREFIX T2_MC_PREFIX
          T2_FLEX_PREFIX T2_BILGE_PREFIX (sources st)).2 ∧
     side_updated T2_NAME_SOURCE T2_PREFIX team (sources st) (sources st') ∧
     side_untouched side1_source (sources st) (sources st') ∧
     ("[Tournament] Team 1 not found in roster: " +:+ unknown) ∈ scene_out st').
Proof.
  intros Hknown Hunknown Hok. split.
  - destruct (team_update_described team T1_NAME_SOURCE T1_HELM_PREFIX
      T1_MC_PREFIX T1_FLEX_PREFIX T1_BILGE_PREFIX (sources st) Hok T1_config_ok)
      as (Hres & Htext & Hpos).
    destruct (apply_team_to_sources_spec team T1_NAME_SOURCE T1_HELM_PREFIX
      T1_MC_PREFIX T1_FLEX_PREFIX T1_BILGE_PREFIX
      (scene_logged st ["[Tournament] Executing transition: " +:+ known
                          +:+ " vs " +:+ unknown])) as [msgs Hrun].
    eexists. split.
    { unfold execute_transition, scene_print, get_team. unfold_monad.
      cbn [TEAM_ROSTER sources scene_out]. rewrite Hknown.
      unfold scene_logged in Hrun. rewrite Hrun.
      cbn [TEAM_ROSTER sources scene_out]. rewrite Hres, Hunknown.
      reflexivity. }
    cbn [TEAM_ROSTER sources scene_out]. split_and!; [done..| | |].
    + split; [exact Htext|]. intros x. specialize (Hpos x). by destruct x.
    + apply (team_update_untouched _ _ _ _ _ _ _ _ _ T1_T2_apart).
    + rewrite !elem_of_app, !elem_of_cons. auto 10.
  - destruct (team_update_described team T2_NAME_SOURCE T2_HELM_PREFIX
      T2_MC_PREFIX T2_FLEX_PREFIX T2_BILGE_PREFIX (sources st) Hok T2_config_ok)
      as (Hres & Htext & Hpos).
    destruct (apply_team_to_sources_spec team T2_NAME_SOURCE T2_HELM_PREFIX
      T2_MC_PREFIX T2_FLEX_PREFIX T2_BILGE_PREFIX
      (scene_logged st ["[Tournament] Executing transition: " +:+ unknown
                          +:+ " vs " +:+ known;
                        "[Tournament] Team 1 not found in roster: " +:+ unknown]))
      as [msgs Hrun].
    eexists. split.
    { unfold execute_transition, scene_print, get_team. unfold_monad.
      cbn [TEAM_ROSTER sources scene_out]. rewrite Hunknown.
      cbn [TEAM_ROSTER sources scene_out]. rewrite Hknown.
      unfold scene_logged in Hrun. rewrite <- app_assoc. simpl app.
      rewrite Hrun.
      cbn [TEAM_ROSTER sources scene_out]. rewrite Hres.
      reflexivity. }
    cbn [TEAM_ROSTER sources scene_out]. split_and!; [done..| | |].
    + split; [exact Htext|]. intros x. specialize (Hpos x). by destruct x.
    + apply (team_update_untouched _ _ _ _ _ _ _ _ _ T2_T1_apart).
    + rewrite !elem_of_app, !elem_of_cons. auto 10.
Qed.


(** *** Applying a team twice *)

Lemma count_matches_zero p l :
  count_matches p l = 0%nat → ∀ j s, l !! j = Some s → matches p s = false.
Proof.
  unfold count_matches. induction l as [|s l IH]; [done|]. simpl.
  destruct (matches p s) eqn:Hm; [done|].
  intros H [|j] s'; simpl; [by intros [= <-]|by apply IH].
Qed.

(** Exactly one source matches: it has a place, and no other place holds a
    match. *)
Lemma count_matches_one p l :
  count_matches p l = 1%nat →
  ∃ i s, l !! i = Some s ∧ matches p s = true ∧
         ∀ j s', l !! j = Some s' → matches p s' = true → j = i.
Proof.
  unfold count_matches. induction l as [|s l IH]; [done|]. simpl.
  destruct (matches p s) eqn:Hm; simpl.
  - intros [= H]. exists 0%nat, s. split_and!; [done..|].
    intros [|j] s'; [done|]. simpl. intros Hs' Hm'.
    by rewrite (count_matches_zero p l H j s' Hs') in Hm'.
  - intros H. destruct (IH H) as (i & s0 & Hs0 & Hm0 & Huniq).
    exists (S i), s0. split_and!; [done..|].
    intros [|j] s'; simpl.
    + intros [= <-] Hm'. congruence.
    + intros Hs' Hm'. f_equal. by eapply Huniq.
Qed.

Lemma count_matches_alter p f i l :
  (∀ s, l !! i = Some s → matches p (f s) = matches p s) →
  count_matches p (alter f i l) = count_matches p l.
Proof.
  unfold count_matches. revert i.
  induction l as [|s l IH]; intros i Hf; [done|]. destruct i as [|i].
  - simpl. rewrite (Hf s eq_refl). by destruct (matches p s).
  - change (alter f (S i) (s :: l)) with (s :: alter f i l). simpl.
    specialize (IH i (λ s' Hs', Hf s' Hs')).
    destruct (matches p s); simpl; by rewrite IH.
Qed.

Lemma written_same_but_url p n k s s' :
  same_but_url s s' → written p n k s = written p n k s'.
Proof.
  unfold same_but_url, written, src_update, src_rename. simpl. intros H.
  f_equal. rewrite <- !insert_union_singleton_l.
  by rewrite <- (insert_delete_eq (src_settings s)),
    <- (insert_delete_eq (src_settings s')), H.
Qed.

Lemma same_but_url_written p n k s s' :
  same_but_url s s' → same_but_url (written p n k s) s'.
Proof.
  unfold same_but_url, written, src_update, src_rename. simpl. intros <-.
  by rewrite <- insert_union_singleton_l, delete_insert_eq.
Qed.


Lemma browser_update_length p n k l :
  length (browser_update p n k l) = length l.
Proof.
  unfold browser_update. destruct (Py.nonempty p); [|done].
  destruct (first_match p l); [|done]. apply length_alter.
Qed.

Lemma matches_startswith p s :
  matches p s = true →
  Py.nonempty (src_name s) = true ∧ Py.startswith p (src_name s) = true.
Proof. unfold matches. by intros ?%andb_true_iff. Qed.

Lemma first_match_is_Some p l j s :
  l !! j = Some s → matches p s = true → is_Some (first_match p l).
Proof.
  intros Hs Hm. destruct (first_match p l) eqn:Hf; [done|].
  by rewrite (first_match_None _ _ Hf j s Hs) in Hm.
Qed.

Section Twice.

(** The prefixes of a configuration, and sources [b] in which each of them
    is matched by exactly one source. *)
Variable ps : list string.
Variable b : list source.
Hypothesis Hunique : ∀ p, p ∈ ps → count_matches p b = 1%nat.

Set Default Proof Using "Type*".

Lemma unique_place p j j' s s' :
  p ∈ ps →
  b !! j = Some s → matches p s = true →
  b !! j' = Some s' → matches p s' = true →
  j = j'.
Proof.
  intros Hp Hs Hm Hs' Hm'.
  destruct (count_matches_one p b (Hunique p Hp)) as (i & s0 & _ & _ & Hu).
  rewrite (Hu j s Hs Hm). symmetry. by eapply Hu.
Qed.

Lemma all_below_match l p j s :
  all_below ps b l → p ∈ ps → Py.nonempty p = true →
  l !! j = Some s → matches p s = true →
  ∃ s0, b !! j = Some s0 ∧ matches p s0 = true ∧ below ps s s0.
Proof.
  intros [Hlen Hb] Hp Hne Hs Hm.
  destruct (lookup_lt_is_Some_2 b j) as [s0 Hs0].
  { rewrite <- Hlen. by eapply lookup_lt_Some. }
  exists s0. pose proof (Hb j s s0 Hs Hs0) as Hbelow.
  split_and!; [done| |done]. by apply Hbelow.
Qed.

(** Where a prefix finds a source in a list below [b], it is in the place
    of the one source of [b] that matches it. *)
Lemma all_below_first_match l p i j s :
  all_below ps b l → p ∈ ps → Py.nonempty p = true →
  first_match p l = Some i →
  l !! j = Some s → matches p s = true →
  j = i.
Proof.
  intros Hl Hp Hne Hi Hs Hm.
  destruct (first_match_Some _ _ _ Hi) as (si & Hsi & Hmi & _).
  destruct (all_below_match l p i si Hl Hp Hne Hsi Hmi) as (s0 & Hs0 & Hm0 & _).
  destruct (all_below_match l p j s Hl Hp Hne Hs Hm) as (s1 & Hs1 & Hm1 & _).
  by eapply unique_place.
Qed.

Lemma below_written p n k j s s0 :
  p ∈ ps → Py.nonempty p = true →
  b !! j = Some s0 → matches p s0 = true →
  same_but_url s s0 →
  below ps (written p n k s) s0.
Proof.
  intros Hp Hne Hs0 Hm0 Hsame. split; [|by apply same_but_url_written].
  intros q Hq Hqne Hmq.
  apply matches_startswith in Hmq as [_ Hq'].
  apply matches_startswith in Hm0 as [Hn0 Hp0].
  pose proof (new_source_name_startswith p n) as Hp'.
  change (src_name (written p n k s)) with (new_source_name p n) in Hq'.
  destruct (startswith_comparable _ _ _ Hq' Hp') as [Hqp|Hpq].
  - unfold matches. by rewrite Hn0, (startswith_trans _ _ _ Hqp Hp0).
  - destruct (count_matches_one q b (Hunique q Hq)) as (i & sq & Hsq & Hmq & _).
    pose proof Hmq as [Hnq Hqq]%matches_startswith.
    assert (matches p sq = true) as Hpsq.
    { unfold matches. by rewrite Hnq, (startswith_trans _ _ _ Hpq Hqq). }
    assert (i = j) as ->.
    { eapply (unique_place p); [done|exact Hsq|done|exact Hs0|].
      unfold matches. by rewrite Hn0, Hp0. }
    by simplify_eq.
Qed.

Lemma all_below_step p n k l :
  p ∈ ps → all_below ps b l → all_below ps b (browser_update p n k l).
Proof.
  intros Hp Hl. pose proof Hl as [Hlen Hb].
  split; [by rewrite browser_update_length|].
  intros j s' s0 Hs' Hs0.
  destruct (browser_update_frame p n k l j)
    as [Heq|(s & Hs & Hw & _ & Hne & Hm & _)].
  - rewrite Heq in Hs'. by eapply Hb.
  - rewrite Hw in Hs'. simplify_eq.
    destruct (all_below_match l p j s Hl Hp Hne Hs Hm) as (s1 & ? & Hm1 & Hbel).
    simplify_eq. eapply below_written; try done. apply Hbel.
Qed.

Lemma all_below_run ops l :
  (∀ op, op ∈ ops → op.1.1 ∈ ps) →
  all_below ps b l → all_below ps b (run_calls ops l).
Proof.
  revert l. induction ops as [|[[p n] k] ops IH]; intros l Hps Hl; [done|].
  simpl. apply IH; [intros op Hop; apply Hps; by right|].
  apply all_below_step; [|done]. apply (Hps (p, n, k)). left.
Qed.

(** One call made in both runs keeps them coupled. *)
Lemma coupled_step l1 p n k a c :
  p ∈ ps → all_below ps b a → all_below ps b c →
  coupled ps l1 a c →
  coupled ps l1 (browser_update p n k a) (browser_update p n k c).
Proof.
  intros Hp Ha Hc [Hlen Hcpl].
  split; [by rewrite !browser_update_length|].
  destruct (Py.nonempty p) eqn:Hne.
  2: { unfold browser_update. by rewrite Hne. }
  (* where the second run finds a source, the first run finds it too *)
  assert (HX : ∀ i, first_match p c = Some i → first_match p a = Some i).
  { intros i Hi. destruct (first_match_Some _ _ _ Hi) as (sc & Hsc & Hmc & _).
    assert (∃ sa, a !! i = Some sa ∧ matches p sa = true) as (sa & Hsa & Hma).
    { destruct (Hcpl i) as [Heq|[_ Hbel]].
      - exists sc. by rewrite <- Heq.
      - destruct (lookup_lt_is_Some_2 a i) as [sa Hsa].
        { rewrite <- Hlen. by eapply lookup_lt_Some. }
        exists sa. split; [done|]. by apply (Hbel sc sa Hsc Hsa). }
    destruct (first_match_is_Some p a i sa Hsa Hma) as [i' Hi'].
    rewrite Hi'. f_equal. symmetry.
    by eapply (all_below_first_match a p i' i sa). }
  intros j. rewrite !browser_update_lookup, Hne. simpl.
  destruct (decide (first_match p c = Some j)) as [Hcj|Hcj].
  - (* both runs write in place [j] *)
    rewrite (bool_decide_true _ Hcj), (bool_decide_true _ (HX j Hcj)).
    left. destruct (first_match_Some _ _ _ Hcj) as (sc & Hsc & Hmc & _).
    destruct (Hcpl j) as [Heq|[_ Hbel]]; [by rewrite Heq|].
    destruct (lookup_lt_is_Some_2 a j) as [sa Hsa].
    { rewrite <- Hlen. by eapply lookup_lt_Some. }
    rewrite Hsc, Hsa. simpl. f_equal.
    apply written_same_but_url. by apply (Hbel sc sa Hsc Hsa).
  - rewrite (bool_decide_false _ Hcj).
    destruct (decide (first_match p a = Some j)) as [Haj|Haj].
    + (* only the first run writes in place [j] *)
      rewrite (bool_decide_true _ Haj).
      destruct (first_match_Some _ _ _ Haj) as (sa & Hsa & Hma & _).
      assert (Hnc : ∀ sc, c !! j = Some sc → matches p sc = false).
      { intros sc Hsc. apply not_true_iff_false. intros Hmc.
        destruct (first_match_is_Some p c j sc Hsc Hmc) as [i Hi].
        apply Hcj. rewrite Hi. f_equal. symmetry.
        by eapply (all_below_first_match c p i j sc). }
      destruct (Hcpl j) as [Heq|[Hl1 Hbel]].
      { rewrite <- Heq in Hsa. by rewrite (Hnc sa Hsa) in Hma. }
      right. split; [done|]. rewrite Hsa. simpl.
      intros sc sa' Hsc [= <-].
      destruct (Hbel sc sa Hsc Hsa) as [Hmatch Hsame].
      destruct (all_below_match a p j sa Ha Hp Hne Hsa Hma)
        as (s0 & Hs0 & Hm0 & _).
      destruct Hc as [_ Hcb].
      destruct (Hcb j sc s0 Hsc Hs0) as [Hc0 _].
      split.
      * intros q Hq Hqne Hmq.
        pose proof (Hc0 q Hq Hqne Hmq) as [_ Hq0]%matches_startswith.
        pose proof Hm0 as [_ Hp0]%matches_startswith.
        pose proof Hmq as [Hnsc Hqsc]%matches_startswith.
        destruct (startswith_comparable _ _ _ Hq0 Hp0) as [Hqp|Hpq].
        -- pose proof (matches_written p n (<["url" := embed_url k]> ∅) sa Hne)
             as [Hnw Hpw]%matches_startswith.
           unfold matches. simpl in *. rewrite Hnw. simpl.
           by apply (startswith_trans _ _ _ Hqp).
        -- exfalso. specialize (Hnc sc Hsc). unfold matches in Hnc.
           by rewrite Hnsc, (startswith_trans _ _ _ Hpq Hqsc) in Hnc.
      * unfold same_but_url in *. rewrite Hsame. symmetry.
        by apply same_but_url_written.
    + (* neither run writes in place [j] *)
      rewrite (bool_decide_false _ Haj). apply Hcpl.
Qed.

Lemma coupled_run l1 ops a c :
  (∀ op, op ∈ ops → op.1.1 ∈ ps) →
  all_below ps b a → all_below ps b c →
  coupled ps l1 a c →
  coupled ps l1 (run_calls ops a) (run_calls ops c).
Proof.
  revert a c. induction ops as [|[[p n] k] ops IH]; intros a c Hps Ha Hc Hcpl;
    [done|].
  assert (Hp : p ∈ ps) by (apply (Hps (p, n, k)); left).
  simpl. apply IH.
  - intros op Hop. apply Hps. by right.
  - by apply all_below_step.
  - by apply all_below_step.
  - by apply coupled_step.
Qed.

Lemma all_below_refl : all_below ps b b.
Proof using Type. split; [done|]. intros j s s0 Hs Hs0. by simplify_eq. Qed.

(** Running the calls again on the result of a run changes nothing. *)
Lemma run_calls_twice ops :
  (∀ op, op ∈ ops → op.1.1 ∈ ps) →
  run_calls ops (run_calls ops b) = run_calls ops b.
Proof.
  intros Hps. set (l1 := run_calls ops b).
  assert (Hl1 : all_below ps b l1) by (apply all_below_run; [done|apply all_below_refl]).
  assert (Hcpl : coupled ps l1 b l1).
  { destruct Hl1 as [Hlen Hb]. split; [done|]. intros j. right.
    split; [done|]. intros sc sa Hsc Hsa. by eapply Hb. }
  apply (coupled_run l1 ops b l1 Hps all_below_refl Hl1) in Hcpl.
  fold l1 in Hcpl. destruct Hcpl as [_ Hcpl].
  apply list_eq. intros j. by destruct (Hcpl j) as [?|[? _]].
Qed.

End Twice.


Lemma resolved_prefixes team hp mp fp bp op :
  op ∈ resolved (team_calls team hp mp fp bp) → op.1.1 ∈ [hp; mp; fp; bp].
Proof.
  clear repr_container int_of_str.
  unfold team_calls. simpl.
  repeat (destruct (position_args _) as [[??]|?]; simpl; [|set_solver]).
  set_solver.
Qed.

Lemma src_update_twice d s : src_update d (src_update d s) = src_update d s.
Proof.
  unfold src_update. simpl. f_equal.
  by rewrite (assoc_L (∪)), (idemp_L (∪)).
Qed.

Lemma first_named_text_update ns ns' t l :
  first_named ns (text_update ns' t l) = first_named ns l.
Proof.
  unfold text_update. destruct (Py.nonempty ns'); [|done].
  destruct (first_named ns' l); [|done]. by apply first_named_alter.
Qed.

Lemma count_matches_text_update p ns t l :
  count_matches p (text_update ns t l) = count_matches p l.
Proof.
  unfold text_update. destruct (Py.nonempty ns); [|done].
  destruct (first_named ns l); [|done]. by apply count_matches_alter.
Qed.

(** The position calls neither rename the text source nor give its name
    to another source, when that name starts with none of their
    prefixes. *)
Lemma first_named_run_calls ns ops l :
  (∀ op, op ∈ ops → Py.nonempty op.1.1 = true →
         Py.startswith op.1.1 ns = false) →
  first_named ns (run_calls ops l) = first_named ns l.
Proof.
  revert l. induction ops as [|[[p n] k] ops IH]; intros l Hns; [done|].
  simpl. rewrite IH; [|intros op Hop; apply Hns; by right].
  unfold browser_update. destruct (Py.nonempty p) eqn:Hne; [|done].
  destruct (first_match p l) as [i|] eqn:Hi; [|done].
  specialize (Hns (p, n, k)). simpl in Hns.
  assert (Hp : Py.startswith p ns = false) by (apply Hns; [left|done]).
  apply first_named_alter. intros s Hs.
  destruct (first_match_Some _ _ _ Hi) as (s' & ? & Hm & _). simplify_eq.
  apply matches_startswith in Hm as [_ Hm].
  pose proof (new_source_name_startswith p n) as Hnew. simpl.
  destruct (String.eqb_spec (new_source_name p n) ns) as [Heq|_];
    [congruence|].
  destruct (String.eqb_spec (src_name s) ns) as [Heq|_]; [congruence|done].
Qed.

Lemma text_update_after_run ns t ops l :
  (∀ op, op ∈ ops → Py.nonempty op.1.1 = true →
         Py.startswith op.1.1 ns = false) →
  text_update ns t (run_calls ops (text_update ns t l))
  = run_calls ops (text_update ns t l).
Proof.
  intros Hns. set (b := text_update ns t l). set (l1 := run_calls ops b).
  unfold text_update at 1. destruct (Py.nonempty ns) eqn:Hne; [|done].
  subst l1. rewrite first_named_run_calls by done.
  subst b. rewrite first_named_text_update.
  destruct (first_named ns l) as [i|] eqn:Hi; [|done].
  destruct (first_named_Some _ _ _ Hi) as (s & Hs & Hn & _).
  apply list_eq. intros j. destruct (decide (j = i)) as [->|Hj].
  - rewrite list_lookup_alter_eq.
    rewrite (run_calls_foreign ops _ i (src_update {[ "text" := t ]} s)).
    + simpl. by rewrite src_update_twice.
    + by rewrite text_update_lookup, Hne, Hi, bool_decide_true, Hs.
    + intros op Hop Hop'. unfold matches. simpl.
      by rewrite Hn, (Hns op Hop Hop'), andb_false_r.
  - by rewrite list_lookup_alter_ne.
Qed.

(** C8, with the condition it needs: when exactly one source matches each
    of the four prefixes and the name of the text source starts with none
    of the (non-empty) prefixes, applying a team a second time ends as the
    first application did and leaves the sources, names, URLs and text, as
    the first application left them. *)
Theorem apply_team_twice (team : Team.t)
    (ns hp mp fp bp : string) (st st1 : scene_state) (r : res unit) :
  (∀ p, p ∈ [hp; mp; fp; bp] → count_matches p (sources st) = 1%nat) →
  (∀ p, p ∈ [hp; mp; fp; bp] → Py.nonempty p = true →
        Py.startswith p ns = false) →
  apply_team_to_sources team ns hp mp fp bp st = (r, st1) →
  ∃ st2,
    apply_team_to_sources team ns hp mp fp bp st1 = (r, st2) ∧
    sources st2 = sources st1 ∧
    TEAM_ROSTER st2 = TEAM_ROSTER st1.
Proof.
  intros Hunique Hns Hrun.
  destruct (apply_team_to_sources_spec team ns hp mp fp bp st) as [m1 H1].
  rewrite H1 in Hrun. injection Hrun as <- <-.
  match goal with
  | |- context [apply_team_to_sources _ _ _ _ _ _ ?s] =>
      destruct (apply_team_to_sources_spec team ns hp mp fp bp s) as [m2 H2]
  end.
  cbn [sources] in H2.
  assert (Hr : ∀ l l', (team_update team ns hp mp fp bp l).1
                       = (team_update team ns hp mp fp bp l').1).
  { intros l l'. unfold team_update. by rewrite !positions_update_result. }
  rewrite (Hr _ (sources st)) in H2.
  eexists. split; [exact H2|]. cbn [sources TEAM_ROSTER]. split; [|done].
  unfold team_update. rewrite !positions_update_run.
  set (ops := resolved (team_calls team hp mp fp bp)).
  assert (Hops : ∀ op, op ∈ ops → op.1.1 ∈ [hp; mp; fp; bp])
    by (intros op; apply resolved_prefixes).
  rewrite text_update_after_run by (intros op Hop; apply Hns; auto).
  apply (run_calls_twice [hp; mp; fp; bp]); [|done].
  intros p Hp. rewrite count_matches_text_update. by apply Hunique.
Qed.

(* ===================================================================== *)
(** ** Further properties of the code *)
(* ===================================================================== *)

(** *** The roster store *)

(** X1: [get_team_names] returns, in ascending order and without
    repetition, exactly the names for which [get_team] finds a team; it
    changes nothing. *)
Theorem get_team_names_spec (st : scene_state) :
  ∃ names,
    get_team_names st = (Ok names, st) ∧
    StronglySorted String.le names ∧
    NoDup names ∧
    length names = size (TEAM_ROSTER st) ∧
    ∀ n, n ∈ names ↔ ∃ team, get_team n st = (Ok (Some team), st).
Proof.
  eexists. split; [reflexivity|].
  pose proof (merge_sort_Permutation String.le
                (map_to_list (TEAM_ROSTER st)).*1) as Hperm.
  split_and!.
  - apply StronglySorted_merge_sort; apply _.
  - rewrite Hperm. apply NoDup_fst_map_to_list.
  - rewrite Hperm, length_fmap. apply length_map_to_list.
  - intros n. rewrite Hperm. unfold get_team, gets. split.
    + intros ([k team] & -> & Hin%elem_of_map_to_list)%list_elem_of_fmap.
      exists team. simpl. by rewrite Hin.
    + intros (team & [= Hlk]). apply list_elem_of_fmap. exists (n, team).
      split; [done|]. by apply elem_of_map_to_list.
Qed.

(** X2: the URL builder gives different channels different URLs: the
    channel can be read back from the URL. *)
Theorem build_twitch_url_inj (c1 c2 : string) :
  build_twitch_url (JStr c1) = build_twitch_url (JStr c2) → c1 = c2.
Proof.
  unfold build_twitch_url. simpl. unfold Py.nonempty.
  destruct (String.eqb_spec c1 "") as [->|H1];
    destruct (String.eqb_spec c2 "") as [->|H2]; simpl; try done.
  intros H. rewrite !append_cons, !append_nil in H.
  simplify_eq. by apply append_inj in H as [-> _].
Qed.

Lemma position_tup_populated fields key rf :
  Py.assoc key fields = Some (JObj rf) →
  Py.truthy (default JNull (Py.assoc "name" rf)) = true →
  position_tup (JObj fields) key = Ok (Some (map snd rf)).
Proof.
  intros Hrec Hname. unfold position_tup. unfold_monad.
  simpl. rewrite Hrec. simpl.
  destruct rf as [|kv rf]; [done|]. cbn [Py.truthy].
  by rewrite Hname.
Qed.

(** X3: the accessors go by position, not by key: for a populated position
    the player name is the first value of the record and the link its
    second value, whatever the keys are called; a record that lists the
    channel before the name has the channel shown as the player name. *)
Theorem position_accessors_by_order :
  (∀ fields key rf k1 v1 k2 v2 rest,
     Py.assoc key fields = Some (JObj rf) →
     rf = (k1, v1) :: (k2, v2) :: rest →
     Py.truthy (default JNull (Py.assoc "name" rf)) = true →
     ∃ pos, position_tup (JObj fields) key = Ok (Some pos) ∧
            get_player_name (Some pos) = Ok v1 ∧
            get_twitch_link (Some pos) = Ok v2) ∧
  (∀ fields key c n,
     Py.assoc key fields = Some (JObj [("channel", c); ("name", n)]) →
     Py.truthy n = true →
     ∃ pos, position_tup (JObj fields) key = Ok (Some pos) ∧
            get_player_name (Some pos) = Ok c ∧
            get_twitch_link (Some pos) = Ok n).
Proof.
  split.
  - intros fields key rf k1 v1 k2 v2 rest Hrec -> Hname.
    eexists. split; [by apply position_tup_populated|]. done.
  - intros fields key c n Hrec Hn.
    eexists. split; [by apply position_tup_populated|]. done.
Qed.

Lemma position_tup_ok fields key :
  slot_value_ok (Py.assoc key fields) = true →
  ∃ pos, position_tup (JObj fields) key = Ok pos.
Proof.
  intros Hok. unfold position_tup. unfold_monad. cbn [Py.get Py.getitem].
  destruct (Py.assoc key fields) as [v|] eqn:Ha; cbn [default];
    [|by eexists].
  unfold slot_value_ok in Hok.
  destruct (Py.truthy v) eqn:Ht.
  - destruct v as [| | | | |rf]; try discriminate Hok.
    simpl. destruct rf as [|kv rf]; [done|].
    destruct (Py.truthy (default JNull (Py.assoc "name" (kv :: rf)))); simpl;
      by eexists.
  - simpl. rewrite !Ht. by eexists.
Qed.

Lemma make_team_wf n d :
  wf_team_data d = true → ∃ team, make_team n d = Ok team.
Proof.
  unfold wf_team_data. destruct d as [| | | | |fields]; try done.
  cbn [forallb]. rewrite !andb_true_iff. intros (Hh & Hm & Hf & Hb & _).
  unfold make_team. unfold_monad.
  destruct (position_tup_ok fields "helm" Hh) as [h ->].
  destruct (position_tup_ok fields "mc" Hm) as [m ->].
  destruct (position_tup_ok fields "flex" Hf) as [f ->].
  destruct (position_tup_ok fields "bilge" Hb) as [b ->].
  by eexists.
Qed.

(** The loop of [load_roster], however it ends: the sources and the log
    are as they were, and a team in the roster was there before or comes
    from the file. *)
Lemma load_roster_loop_any its st r st' :
  for_each its (λ '(team_name, team_data),
    team ← lift (make_team team_name team_data);
    modify (set_roster <[team_name := team]>)) st = (r, st') →
  sources st' = sources st ∧ scene_out st' = scene_out st ∧
  ∀ k t, TEAM_ROSTER st' !! k = Some t →
    TEAM_ROSTER st !! k = Some t ∨
    ∃ d, (k, d) ∈ its ∧ make_team k d = Ok t.
Proof.
  revert st. induction its as [|[n d] its IH]; intros st Hrun.
  { simpl in Hrun. unfold_monad. simplify_eq. auto. }
  simpl in Hrun. unfold_monad.
  destruct (make_team n d) as [team|e] eqn:Hmk.
  - apply IH in Hrun as (Hs & Ho & Hr). split_and!; [done..|].
    intros k t [Hk|(d' & Hin & Hd')]%Hr.
    + simpl in Hk. destruct (decide (n = k)) as [->|Hne].
      * rewrite lookup_insert_eq in Hk. simplify_eq.
        right. exists d. split; [left|done].
      * rewrite lookup_insert_ne in Hk by done. by left.
    + right. exists d'. split; [by right|done].
  - simplify_eq. auto.
Qed.

Lemma load_roster_loop_total its st :
  forallb (λ it, wf_team_data it.2) its = true →
  ∃ st',
    for_each its (λ '(team_name, team_data),
      team ← lift (make_team team_name team_data);
      modify (set_roster <[team_name := team]>)) st = (Ok tt, st') ∧
    dom (TEAM_ROSTER st') = dom (TEAM_ROSTER st) ∪ list_to_set its.*1.
Proof.
  clear repr_container int_of_str.
  revert st. induction its as [|[n d] its IH]; intros st Hwf.
  { exists st. split; [done|]. simpl. set_solver. }
  simpl in Hwf. apply andb_true_iff in Hwf as [Hd Hwf].
  destruct (make_team_wf n d Hd) as [team Hmk].
  destruct (IH (set_roster <[n := team]> st) Hwf) as (st' & Hrun & Hdom).
  exists st'. split.
  - simpl. unfold_monad. by rewrite Hmk.
  - rewrite Hdom. simpl. rewrite dom_insert_L. set_solver.
Qed.

(** X4: a roster file whose team records can be read replaces the roster
    wholesale: the load returns normally, the roster holds exactly the team
    names of the file (no earlier team survives), the number of teams is
    reported, and the sources of the host are as they were. *)
Theorem load_roster_replaces (st : scene_state) (data : json)
    (teams : list (string * json)) :
  Py.getitem data "teams" = Ok (JObj teams) →
  forallb (λ it, wf_team_data it.2) teams = true →
  ∃ st',
    load_roster (Parsed data) st = (Ok tt, st') ∧
    dom (TEAM_ROSTER st') = list_to_set teams.*1 ∧
    (∀ k, k ∉ teams.*1 → TEAM_ROSTER st' !! k = None) ∧
    sources st' = sources st ∧
    scene_out st'
    = scene_out st ++ ["[Tournament] Loaded "
                       +:+ pretty (size (TEAM_ROSTER st'))
                       +:+ " teams from roster.json"].
Proof.
  intros Hteams Hwf.
  destruct (load_roster_loop_total teams (set_roster (λ _, ∅) st) Hwf)
    as (st1 & Hloop & Hdom).
  destruct (load_roster_loop_any _ _ _ _ Hloop) as (Hs & Ho & _).
  simpl in Hdom. rewrite dom_empty_L, (left_id_L ∅ (∪)) in Hdom.
  eexists. split.
  { unfold load_roster. unfold_monad. simpl. rewrite Hteams. simpl.
    rewrite Hloop. reflexivity. }
  simpl. split_and!; [done| |done|by rewrite Ho].
  intros k Hk. apply not_elem_of_dom. rewrite Hdom. set_solver.
Qed.

Lemma for_each_app {S A} (l1 l2 : list A) (body : A → M S unit) st :
  for_each (l1 ++ l2) body st
  = match for_each l1 body st with
    | (Ok _, st1) => for_each l2 body st1
    | (Raise e, st1) => (Raise e, st1)
    end.
Proof.
  revert st. induction l1 as [|x l1 IH]; intros st; [done|].
  cbn [app for_each]. unfold_monad.
  destruct (body x st) as [[[]|e] st1]; [apply IH|done].
Qed.

(** A run of the loop of [load_roster] that raises has stopped at the
    first record that cannot be read, the records before it done. *)
Lemma load_roster_loop_raises its st e st' :
  for_each its (λ '(team_name, team_data),
    team ← lift (make_team team_name team_data);
    modify (set_roster <[team_name := team]>)) st = (Raise e, st') →
  ∃ pre k d post,
    its = pre ++ (k, d) :: post ∧
    make_team k d = Raise e ∧
    Forall (λ it, ∃ t, make_team it.1 it.2 = Ok t) pre ∧
    for_each pre (λ '(team_name, team_data),
      team ← lift (make_team team_name team_data);
      modify (set_roster <[team_name := team]>)) st = (Ok tt, st').
Proof.
  revert st. induction its as [|[n d] its IH]; intros st Hrun.
  { simpl in Hrun. unfold_monad. done. }
  simpl in Hrun. unfold_monad.
  destruct (make_team n d) as [team|e'] eqn:Hmk.
  - apply IH in Hrun as (pre & k & d' & post & -> & Hbad & Hpre & Hrun).
    exists ((n, d) :: pre), k, d', post. split_and!; [done..| |].
    + constructor; [by exists team|done].
    + simpl. unfold_monad. by rewrite Hmk.
  - simplify_eq. exists [], n, d, its. split_and!; [done..|constructor|done].
Qed.

Lemma load_roster_loop_dom its st st' :
  for_each its (λ '(team_name, team_data),
    team ← lift (make_team team_name team_data);
    modify (set_roster <[team_name := team]>)) st = (Ok tt, st') →
  dom (TEAM_ROSTER st') = dom (TEAM_ROSTER st) ∪ list_to_set its.*1.
Proof.
  clear repr_container int_of_str.
  revert st. induction its as [|[n d] its IH]; intros st Hrun.
  { simpl in Hrun. unfold_monad. simplify_eq. simpl. set_solver. }
  simpl in Hrun. unfold_monad.
  destruct (make_team n d) as [team|e'] eqn:Hmk; [|done].
  apply IH in Hrun. rewrite Hrun. simpl. rewrite dom_insert_L. set_solver.
Qed.

(** X5: a parsed file that cannot be read through is not harmless.  When
    [load_roster] raises on it, the sources and the log are untouched and
    the roster is either empty, the ["teams"] entry being missing or no
    object, or holds exactly the teams of the records before the first one
    that cannot be read: none of the teams it held before, and none of the
    records after the bad one.  Conversely, team records that can be read
    up to one that cannot make the load raise that record's exception and
    leave the teams of the records before it; and a file without a
    ["teams"] entry raises and leaves the roster empty. *)
Theorem load_roster_raises_after_clear (st : scene_state) (data : json) :
  (∀ e st', load_roster (Parsed data) st = (Raise e, st') →
     sources st' = sources st ∧ scene_out st' = scene_out st ∧
     ((TEAM_ROSTER st' = ∅ ∧
       (Py.getitem data "teams" = Raise e ∨
        ∃ v, Py.getitem data "teams" = Ok v ∧ Py.items v = Raise e)) ∨
      ∃ pre k d post,
        Py.getitem data "teams" = Ok (JObj (pre ++ (k, d) :: post)) ∧
        make_team k d = Raise e ∧
        Forall (λ it, ∃ t, make_team it.1 it.2 = Ok t) pre ∧
        dom (TEAM_ROSTER st') = list_to_set pre.*1 ∧
        ∀ n t, TEAM_ROSTER st' !! n = Some t →
               ∃ d', (n, d') ∈ pre ∧ make_team n d' = Ok t)) ∧
  (∀ pre k d post e,
     Py.getitem data "teams" = Ok (JObj (pre ++ (k, d) :: post)) →
     forallb (λ it, wf_team_data it.2) pre = true →
     make_team k d = Raise e →
     ∃ st',
       load_roster (Parsed data) st = (Raise e, st') ∧
       sources st' = sources st ∧ scene_out st' = scene_out st ∧
       dom (TEAM_ROSTER st') = list_to_set pre.*1 ∧
       ∀ n t, TEAM_ROSTER st' !! n = Some t →
              ∃ d', (n, d') ∈ pre ∧ make_team n d' = Ok t) ∧
  (∀ e, Py.getitem data "teams" = Raise e →
     load_roster (Parsed data) st = (Raise e, set_roster (λ _, ∅) st)).
Proof.
  split_and!.
  - intros e st' Hrun. unfold load_roster in Hrun. unfold_monad.
    simpl in Hrun.
    destruct (Py.getitem data "teams") as [teams|e'] eqn:Hteams; simpl in Hrun;
      [|simplify_eq; split_and!; [done..|left; auto]].
    destruct (Py.items teams) as [its|e'] eqn:Hits; simpl in Hrun;
      [|simplify_eq; split_and!; [done..|left; split; [done|right; eauto]]].
    destruct teams as [| | | | |o]; try done. simpl in Hits. simplify_eq.
    match type of Hrun with
    | context [for_each ?l ?b ?s] =>
        destruct (for_each l b s) as [[[]|e'] st1] eqn:Hloop
    end.
    { unfold scene_print in Hrun. unfold_monad. done. }
    simplify_eq.
    apply load_roster_loop_raises in Hloop
      as (pre & k & d & post & -> & Hbad & Hpre & Hloop).
    pose proof (load_roster_loop_dom _ _ _ Hloop) as Hdom.
    apply load_roster_loop_any in Hloop as (Hs & Ho & Hr).
    simpl in Hdom. rewrite dom_empty_L, (left_id_L ∅ (∪)) in Hdom.
    split_and!; [done..|]. right. exists pre, k, d, post.
    split_and!; [done..|].
    intros n t [Hk|H]%Hr; [done|exact H].
  - intros pre k d post e Hteams Hwf Hbad.
    destruct (load_roster_loop_total pre (set_roster (λ _, ∅) st) Hwf)
      as (st1 & Hloop & Hdom).
    destruct (load_roster_loop_any _ _ _ _ Hloop) as (Hs & Ho & Hr).
    simpl in Hdom. rewrite dom_empty_L, (left_id_L ∅ (∪)) in Hdom.
    assert (Hall : for_each (pre ++ (k, d) :: post)
      (λ '(team_name, team_data),
         team ← lift (make_team team_name team_data);
         modify (set_roster <[team_name := team]>))
      (set_roster (λ _, ∅) st) = (Raise e, st1)).
    { rewrite for_each_app, Hloop. cbn [for_each]. unfold_monad.
      by rewrite Hbad. }
    exists st1. split_and!; [|done..|].
    + unfold load_roster. unfold_monad. simpl. rewrite Hteams. simpl.
      by rewrite Hall.
    + intros n t [Hk|H]%Hr; [done|exact H].
  - intros e He. unfold load_roster. unfold_monad. simpl. by rewrite He.
Qed.

(** *** Single calls of the synchronizer *)

Lemma find_name_lookup p l :
  find_name p l = first_match p l ≫= λ i, src_name <$> l !! i.
Proof.
  induction l as [|s l IH]; [done|]. simpl.
  destruct (matches p s); [done|]. rewrite IH.
  by destruct (first_match p l).
Qed.

(** X6: [find_source_by_prefix] returns the name of the first source, in
    enumeration order, whose name is non-empty and starts with the prefix,
    and [None] when no source is such; it changes nothing. *)
Theorem find_source_by_prefix_first (prefix : string) (st : scene_state) :
  ∃ found,
    find_source_by_prefix prefix st = (Ok found, st) ∧
    match found with
    | Some n =>
        n ≠ "" ∧ Py.startswith prefix n = true ∧
        ∃ i s, sources st !! i = Some s ∧ src_name s = n ∧
               ∀ j s', (j < i)%nat → sources st !! j = Some s' →
                       matches prefix s' = false
    | None => ∀ j s', sources st !! j = Some s' → matches prefix s' = false
    end.
Proof.
  exists (find_name prefix (sources st)).
  split; [apply find_source_by_prefix_spec|].
  rewrite find_name_lookup.
  destruct (first_match prefix (sources st)) as [i|] eqn:Hi; simpl.
  - destruct (first_match_Some _ _ _ Hi) as (s & Hs & Hm & Hbefore).
    rewrite Hs. simpl.
    apply matches_startswith in Hm as [Hne Hp]. split_and!; [|done|by eauto].
    intros Heq. by rewrite Heq in Hne.
  - by apply first_match_None.
Qed.

(** X7: [set_browser_source_url] never raises and leaves the roster and the
    number of sources alone.  With an empty prefix or no matching source no
    source changes; otherwise exactly the first matching source changes: it
    gets the new name and the URL, and keeps every other setting. *)
Theorem set_browser_source_url_frame (prefix : string)
    (player_name twitch_username : json) (st : scene_state) :
  ∃ st',
    set_browser_source_url prefix player_name twitch_username st = (Ok tt, st') ∧
    TEAM_ROSTER st' = TEAM_ROSTER st ∧
    length (sources st') = length (sources st) ∧
    (prefix = "" ∨ first_match prefix (sources st) = None →
     sources st' = sources st) ∧
    (∀ i s, prefix ≠ "" → first_match prefix (sources st) = Some i →
       sources st !! i = Some s →
       (∀ j, j ≠ i → sources st' !! j = sources st !! j) ∧
       ∃ s', sources st' !! i = Some s' ∧
             src_name s' = new_source_name prefix player_name ∧
             src_settings s' !! "url" = Some (embed_url twitch_username) ∧
             ∀ key, key ≠ "url" →
                    src_settings s' !! key = src_settings s !! key).
Proof.
  destruct (set_browser_source_url_spec prefix player_name twitch_username st)
    as [msgs ->].
  eexists. split; [reflexivity|]. cbn [TEAM_ROSTER sources].
  split_and!; [done|apply browser_update_length| |].
  - intros [->|Hnone]; [done|]. unfold browser_update.
    rewrite Hnone. by destruct (Py.nonempty prefix).
  - intros i s Hne Hi Hs.
    assert (Hp : Py.nonempty prefix = true).
    { unfold Py.nonempty. by apply negb_true_iff, String.eqb_neq. }
    split.
    + intros j Hj. rewrite browser_update_lookup, Hp, Hi.
      rewrite bool_decide_false; [done|congruence].
    + exists (written prefix player_name twitch_username s).
      rewrite browser_update_lookup, Hp, Hi, bool_decide_true, Hs by done.
      split_and!; [done|done| |].
      * simpl. by rewrite lookup_union_l', lookup_singleton_eq.
      * intros key Hkey. simpl.
        rewrite lookup_union_r; [done|]. by rewrite lookup_singleton_ne.
Qed.

(** X8: [set_text_source] never raises, renames no source and leaves the
    roster alone.  With an empty name or no source of that name nothing
    changes; otherwise exactly the first source of that name changes: its
    text is set, and every other setting is kept. *)
Theorem set_text_source_frame (source_name text : string) (st : scene_state) :
  ∃ st',
    set_text_source source_name text st = (Ok tt, st') ∧
    TEAM_ROSTER st' = TEAM_ROSTER st ∧
    src_name <$> sources st' = src_name <$> sources st ∧
    (source_name = "" ∨ first_named source_name (sources st) = None →
     sources st' = sources st) ∧
    (∀ i s, source_name ≠ "" →
       first_named source_name (sources st) = Some i →
       sources st !! i = Some s →
       (∀ j, j ≠ i → sources st' !! j = sources st !! j) ∧
       ∃ s', sources st' !! i = Some s' ∧
             src_settings s' !! "text" = Some text ∧
             ∀ key, key ≠ "text" →
                    src_settings s' !! key = src_settings s !! key).
Proof.
  destruct (set_text_source_spec source_name text st) as [msgs ->].
  eexists. split; [reflexivity|]. cbn [TEAM_ROSTER sources].
  split_and!; [done| | |].
  - apply list_eq. intros j. rewrite !list_lookup_fmap, text_update_lookup.
    destruct (_ && _); [|done]. by destruct (sources st !! j).
  - intros [->|Hnone]; [done|]. unfold text_update.
    rewrite Hnone. by destruct (Py.nonempty source_name).
  - intros i s Hne Hi Hs.
    assert (Hp : Py.nonempty source_name = true).
    { unfold Py.nonempty. by apply negb_true_iff, String.eqb_neq. }
    split.
    + intros j Hj. rewrite text_update_lookup, Hp, Hi.
      rewrite bool_decide_false; [done|congruence].
    + exists (src_update {[ "text" := text ]} s).
      rewrite text_update_lookup, Hp, Hi, bool_decide_true, Hs by done.
      split_and!; [done| |].
      * simpl. by rewrite lookup_union_l', lookup_singleton_eq.
      * intros key Hkey. simpl.
        rewrite lookup_union_r; [done|]. by rewrite lookup_singleton_ne.
Qed.

(** *** Applying teams again *)

Lemma written_twice p n k s : written p n k (written p n k s) = written p n k s.
Proof.
  unfold written, src_update, src_rename. simpl. f_equal.
  by rewrite (assoc_L (∪)), (idemp_L (∪)).
Qed.

Lemma pairwise_apart_app_l ps qs :
  pairwise_apart (ps ++ qs) = true → pairwise_apart ps = true.
Proof.
  induction ps as [|p ps IH]; [done|]. simpl.
  rewrite !andb_true_iff, forallb_app, andb_true_iff.
  intros [[Hp _] Hrest]. auto.
Qed.

Lemma resolved_is_prefix calls :
  ∃ rest, calls.*1 = (resolved calls).*1.*1 ++ rest.
Proof.
  induction calls as [|[p pos] calls [rest IH]]; [by exists []|].
  simpl. destruct (position_args pos) as [[n k]|e].
  - exists rest. simpl. f_equal. exact IH.
  - by eexists.
Qed.

Lemma run_calls_settled ops l :
  (∀ op, op ∈ ops → browser_update op.1.1 op.1.2 op.2 l = l) →
  run_calls ops l = l.
Proof.
  induction ops as [|op ops IH]; intros Hid; [done|].
  simpl. rewrite (Hid op) by left. apply IH. intros op' Hop'.
  apply Hid. by right.
Qed.

Lemma first_match_browser_update_self p n k l :
  first_match p (browser_update p n k l) = first_match p l.
Proof.
  unfold browser_update. destruct (Py.nonempty p) eqn:Hp; [|done].
  destruct (first_match p l) as [i|] eqn:Hi; [|done].
  rewrite first_match_alter; [done|]. intros s Hs.
  destruct (first_match_Some _ _ _ Hi) as (s' & ? & Hm & _). simplify_eq.
  rewrite Hm. by apply matches_written.
Qed.

(** After a run of calls with prefixes pairwise apart, each call of the run
    has nothing left to do. *)
Lemma run_calls_call_settled ops l op :
  pairwise_apart ops.*1.*1 = true →
  op ∈ ops →
  browser_update op.1.1 op.1.2 op.2 (run_calls ops l) = run_calls ops l.
Proof.
  intros Hpw Hop.
  apply list_elem_of_split in Hop as (pre & post & ->).
  destruct op as [[p n] k]. simpl.
  set (l1 := run_calls (pre ++ (p, n, k) :: post) l).
  destruct (Py.nonempty p) eqn:Hp; [|by unfold browser_update; rewrite Hp].
  pose proof Hpw as Hpw'.
  rewrite !fmap_app, !fmap_cons in Hpw'. simpl in Hpw'.
  apply pairwise_apart_app in Hpw' as [Hpre Hpost].
  assert (Hpre' : ∀ op, op ∈ pre → apart op.1.1 p = true).
  { intros op Hop. apply Hpre. apply list_elem_of_fmap. exists op.1.
    split; [done|]. apply list_elem_of_fmap. by exists op. }
  assert (Hpost' : ∀ op, op ∈ post → apart op.1.1 p = true).
  { intros op Hop. apply Hpost. apply list_elem_of_fmap. exists op.1.
    split; [done|]. apply list_elem_of_fmap. by exists op. }
  assert (Hfm : first_match p l1 = first_match p l).
  { subst l1. unfold run_calls. rewrite foldl_app. simpl.
    fold (run_calls pre l).
    match goal with
    | |- first_match _ (foldl ?f ?a post) = _ =>
        change (foldl f a post) with (run_calls post a)
    end.
    by rewrite first_match_run_calls, first_match_browser_update_self,
      first_match_run_calls. }
  unfold browser_update. rewrite Hp, Hfm.
  destruct (first_match p l) as [i|] eqn:Hi; [|done].
  destruct (first_match_Some _ _ _ Hi) as (s & Hs & _).
  apply list_eq. intros j. destruct (decide (j = i)) as [->|Hj].
  - rewrite list_lookup_alter_eq. subst l1.
    rewrite (run_calls_lookup pre p n k post l i s Hpw Hp Hi Hs). simpl.
    fold (written p n k (written p n k s)). by rewrite written_twice.
  - by rewrite list_lookup_alter_ne.
Qed.

Lemma resolved_pairwise_apart team hp mp fp bp :
  pairwise_apart [hp; mp; fp; bp] = true →
  pairwise_apart (resolved (team_calls team hp mp fp bp)).*1.*1 = true.
Proof.
  intros Hpw.
  destruct (resolved_is_prefix (team_calls team hp mp fp bp)) as [rest Hrest].
  apply (pairwise_apart_app_l _ rest). by rewrite <- Hrest.
Qed.

(** What an application under a configuration whose sources cannot be
    mistaken for one another leaves behind is settled for its calls. *)
Lemma team_update_settled team ns hp mp fp bp l :
  config_ok ns [hp; mp; fp; bp] = true →
  settled ns (Team.name team) (resolved (team_calls team hp mp fp bp))
    (team_update team ns hp mp fp bp l).2.
Proof.
  intros Hcfg. unfold config_ok in Hcfg.
  apply andb_true_iff in Hcfg as [Hcfg Hpw].
  apply andb_true_iff in Hcfg as [Hcfg Hns].
  apply andb_true_iff in Hcfg as [Hne Hps].
  unfold team_update. rewrite positions_update_run. split.
  - apply text_update_after_run. intros op Hop _.
    apply resolved_prefixes in Hop. rewrite forallb_forall in Hns.
    by apply negb_true_iff, Hns, list_elem_of_In.
  - intros op Hop. apply run_calls_call_settled; [|done].
    by apply resolved_pairwise_apart.
Qed.

Lemma team_update_of_settled team ns hp mp fp bp l :
  settled ns (Team.name team) (resolved (team_calls team hp mp fp bp)) l →
  (team_update team ns hp mp fp bp l).2 = l.
Proof.
  intros [Htext Hops]. unfold team_update.
  rewrite positions_update_run, Htext. by apply run_calls_settled.
Qed.

Lemma team_update_result team ns hp mp fp bp l l' :
  (team_update team ns hp mp fp bp l).1 = (team_update team ns hp mp fp bp l').1.
Proof. unfold team_update. by rewrite !positions_update_result. Qed.

(** X9: under a configuration whose prefixes are non-empty and pairwise
    apart and whose text source is named apart from them, applying a team a
    second time changes no source, whatever sources the host has and
    however the first application ended. *)
Theorem apply_team_twice_apart (team : Team.t) (ns hp mp fp bp : string)
    (st st1 : scene_state) (r : res unit) :
  config_ok ns [hp; mp; fp; bp] = true →
  apply_team_to_sources team ns hp mp fp bp st = (r, st1) →
  ∃ st2,
    apply_team_to_sources team ns hp mp fp bp st1 = (r, st2) ∧
    sources st2 = sources st1 ∧
    TEAM_ROSTER st2 = TEAM_ROSTER st1.
Proof.
  intros Hcfg Hrun.
  destruct (apply_team_to_sources_spec team ns hp mp fp bp st) as [m1 H1].
  rewrite H1 in Hrun. injection Hrun as <- <-.
  match goal with
  | |- context [apply_team_to_sources _ _ _ _ _ _ ?s] =>
      destruct (apply_team_to_sources_spec team ns hp mp fp bp s) as [m2 H2]
  end.
  cbn [sources] in H2.
  rewrite (team_update_result _ _ _ _ _ _ _ (sources st)) in H2.
  eexists. split; [exact H2|]. cbn [sources TEAM_ROSTER]. split; [|done].
  apply team_update_of_settled. by apply team_update_settled.
Qed.

(** *** Transitions *)

Lemma execute_transition_spec n1 n2 st :
  ∃ msgs,
    execute_transition n1 n2 st
    = ((transition_update (TEAM_ROSTER st !! n1) (TEAM_ROSTER st !! n2)
          (sources st)).1,
       SceneState (TEAM_ROSTER st)
         (transition_update (TEAM_ROSTER st !! n1) (TEAM_ROSTER st !! n2)
            (sources st)).2
         (scene_out st ++ msgs)).
Proof.
  unfold execute_transition, transition_update, side_update, scene_print,
    get_team.
  unfold_monad. cbn [TEAM_ROSTER sources scene_out].
  destruct (TEAM_ROSTER st !! n1) as [t1|].
  - match goal with
    | |- context [apply_team_to_sources ?t ?a ?b ?c ?d ?e ?s] =>
        destruct (apply_team_to_sources_spec t a b c d e s) as [m1 ->]
    end.
    cbn [TEAM_ROSTER sources scene_out].
    destruct (team_update t1 _ _ _ _ _ _) as [[[]|e] l1];
      cbn [fst snd TEAM_ROSTER sources scene_out];
      [|rewrite <- app_assoc; by eexists].
    destruct (TEAM_ROSTER st !! n2) as [t2|].
    + match goal with
      | |- context [apply_team_to_sources ?t ?a ?b ?c ?d ?e ?s] =>
          destruct (apply_team_to_sources_spec t a b c d e s) as [m2 ->]
      end.
      cbn [TEAM_ROSTER sources scene_out].
      destruct (team_update t2 _ _ _ _ _ _) as [[[]|e] l2];
        cbn [fst snd TEAM_ROSTER sources scene_out];
        rewrite <- !app_assoc; by eexists.
    + cbn [fst snd TEAM_ROSTER sources scene_out].
      rewrite <- !app_assoc; by eexists.
  - cbn [TEAM_ROSTER sources scene_out].
    destruct (TEAM_ROSTER st !! n2) as [t2|].
    + match goal with
      | |- context [apply_team_to_sources ?t ?a ?b ?c ?d ?e ?s] =>
          destruct (apply_team_to_sources_spec t a b c d e s) as [m2 ->]
      end.
      cbn [TEAM_ROSTER sources scene_out].
      destruct (team_update t2 _ _ _ _ _ _) as [[[]|e] l2];
        cbn [fst snd TEAM_ROSTER sources scene_out];
        rewrite <- !app_assoc; by eexists.
    + cbn [fst snd TEAM_ROSTER sources scene_out].
      rewrite <- !app_assoc; by eexists.
Qed.

Lemma alter_fixed {A} (f : A → A) i (l : list A) x :
  alter f i l = l → l !! i = Some x → f x = x.
Proof.
  intros Heq Hx. apply (f_equal (.!! i)) in Heq.
  rewrite list_lookup_alter_eq, Hx in Heq. simpl in Heq. congruence.
Qed.

Lemma alter_id_at {A} (f : A → A) i (l : list A) x :
  l !! i = Some x → f x = x → alter f i l = l.
Proof.
  intros Hx Hf. apply list_eq. intros j. destruct (decide (j = i)) as [->|Hj].
  - rewrite list_lookup_alter_eq, Hx. simpl. by rewrite Hf.
  - by rewrite list_lookup_alter_ne.
Qed.

Lemma first_match_text_update q ns t l :
  first_match q (text_update ns t l) = first_match q l.
Proof.
  unfold text_update. destruct (Py.nonempty ns); [|done].
  destruct (first_named ns l); [|done]. by apply first_match_alter.
Qed.

(** An application under one configuration does not move what a
    configuration apart from it looks for. *)
Lemma first_match_team_update team ns hp mp fp bp q l :
  forallb (λ p, apart p q) [hp; mp; fp; bp] = true →
  first_match q (team_update team ns hp mp fp bp l).2 = first_match q l.
Proof.
  intros Hap. unfold team_update.
  rewrite positions_update_run, first_match_run_calls.
  - apply first_match_text_update.
  - intros op Hop%resolved_prefixes. rewrite forallb_forall in Hap.
    by apply Hap, list_elem_of_In.
Qed.

Lemma first_named_team_update team ns hp mp fp bp ns' l :
  forallb (λ p, negb (Py.startswith p ns')) [hp; mp; fp; bp] = true →
  first_named ns' (team_update team ns hp mp fp bp l).2 = first_named ns' l.
Proof.
  intros Hns. unfold team_update.
  rewrite positions_update_run, first_named_run_calls.
  - apply first_named_text_update.
  - intros op Hop%resolved_prefixes _. rewrite forallb_forall in Hns.
    by apply negb_true_iff, Hns, list_elem_of_In.
Qed.

(** Sources settled for one configuration stay settled when a team is
    applied under a configuration apart from it. *)
Lemma team_update_keeps_settled team ns hp mp fp bp ns' ps' text ops l :
  configs_apart ns [hp; mp; fp; bp] ns' ps' = true →
  (∀ op, op ∈ ops → op.1.1 ∈ ps') →
  settled ns' text ops l →
  settled ns' text ops (team_update team ns hp mp fp bp l).2.
Proof.
  intros Hap Hops [Htext Hcalls].
  pose proof (team_update_untouched team _ _ _ _ _ _ _ l Hap) as [_ Hun].
  unfold configs_apart in Hap.
  apply andb_true_iff in Hap as [Hap Hpq].
  apply andb_true_iff in Hap as [Hap Hq].
  apply andb_true_iff in Hap as [_ Hp].
  set (l2 := (team_update team ns hp mp fp bp l).2) in *.
  split.
  - unfold text_update in *. destruct (Py.nonempty ns'); [|done].
    subst l2. rewrite first_named_team_update by done.
    destruct (first_named ns' l) as [t|] eqn:Ht; [|done].
    destruct (first_named_Some _ _ _ Ht) as (s & Hs & Hn & _).
    apply (alter_id_at (src_update {[ "text" := text ]}) t _ s).
    + apply Hun; [done|]. by apply owned_name.
    + exact (alter_fixed _ t l s Htext Hs).
  - intros [[p n] k] Hop. specialize (Hcalls _ Hop).
    assert (Hin : p ∈ ps') by apply (Hops _ Hop).
    cbn [fst snd] in *.
    unfold browser_update in *. destruct (Py.nonempty p) eqn:Hne; [|done].
    subst l2. rewrite first_match_team_update.
    2: { rewrite forallb_forall in Hpq. apply forallb_forall.
         intros p' Hp'. apply Hpq in Hp'. rewrite forallb_forall in Hp'.
         by apply Hp', list_elem_of_In. }
    destruct (first_match p l) as [i|] eqn:Hi; [|done].
    destruct (first_match_Some _ _ _ Hi) as (s & Hs & Hm & _).
    apply (alter_id_at (written p n k) i _ s).
    + apply Hun; [done|]. by eapply owned_prefix.
    + exact (alter_fixed (written p n k) i l s Hcalls Hs).
Qed.

Lemma side_update_result team ns hp mp fp bp l l' :
  (side_update team ns hp mp fp bp l).1 = (side_update team ns hp mp fp bp l').1.
Proof. destruct team; [apply team_update_result|done]. Qed.

(** A second transition finds nothing to do. *)
Lemma transition_update_twice team1 team2 l :
  transition_update team1 team2 (transition_update team1 team2 l).2
  = transition_update team1 team2 l.
Proof.
  unfold transition_update.
  destruct team1 as [t1|]; cbn [side_update].
  - pose proof (team_update_settled t1 T1_NAME_SOURCE T1_HELM_PREFIX
      T1_MC_PREFIX T1_FLEX_PREFIX T1_BILGE_PREFIX l T1_config_ok) as Hs1.
    destruct (team_update t1 T1_NAME_SOURCE T1_HELM_PREFIX T1_MC_PREFIX
      T1_FLEX_PREFIX T1_BILGE_PREFIX l) as [r1 l1] eqn:H1.
    cbn [snd] in Hs1.
    assert (Hr1 : ∀ l', (team_update t1 T1_NAME_SOURCE T1_HELM_PREFIX
      T1_MC_PREFIX T1_FLEX_PREFIX T1_BILGE_PREFIX l').1 = r1).
    { intros l'. rewrite (team_update_result _ _ _ _ _ _ l' l). by rewrite H1. }
    destruct r1 as [[]|e]; cbn [snd].
    + destruct team2 as [t2|]; cbn [side_update].
      * pose proof (team_update_settled t2 T2_NAME_SOURCE T2_HELM_PREFIX
          T2_MC_PREFIX T2_FLEX_PREFIX T2_BILGE_PREFIX l1 T2_config_ok) as Hs2.
        pose proof (team_update_keeps_settled t2 _ _ _ _ _ _ T1_PREFIXES _ _ l1
          T2_T1_apart (λ op Hop, resolved_prefixes _ _ _ _ _ op Hop) Hs1) as Hs12.
        apply team_update_of_settled in Hs12, Hs2.
        set (l2 := (team_update t2 T2_NAME_SOURCE T2_HELM_PREFIX T2_MC_PREFIX
                      T2_FLEX_PREFIX T2_BILGE_PREFIX l1).2) in *.
        rewrite (surjective_pairing (team_update t1 _ _ _ _ _ l2)).
        rewrite Hr1, Hs12.
        rewrite (surjective_pairing (team_update t2 _ _ _ _ _ l2)).
        rewrite Hs2, (team_update_result _ _ _ _ _ _ l2 l1).
        subst l2. by rewrite <- surjective_pairing.
      * apply team_update_of_settled in Hs1.
        rewrite (surjective_pairing (team_update t1 _ _ _ _ _ l1)).
        by rewrite Hr1, Hs1.
    + apply team_update_of_settled in Hs1.
      rewrite (surjective_pairing (team_update t1 _ _ _ _ _ l1)).
      by rewrite Hr1, Hs1.
  - destruct team2 as [t2|]; cbn [side_update snd]; [|done].
    pose proof (team_update_settled t2 T2_NAME_SOURCE T2_HELM_PREFIX
      T2_MC_PREFIX T2_FLEX_PREFIX T2_BILGE_PREFIX l T2_config_ok) as Hs2.
    apply team_update_of_settled in Hs2.
    set (l2 := (team_update t2 T2_NAME_SOURCE T2_HELM_PREFIX T2_MC_PREFIX
                  T2_FLEX_PREFIX T2_BILGE_PREFIX l).2) in *.
    rewrite (surjective_pairing (team_update t2 _ _ _ _ _ l2)).
    rewrite Hs2, (team_update_result _ _ _ _ _ _ l2 l).
    subst l2. by rewrite <- surjective_pairing.
Qed.

(** X10: a transition is idempotent, without any condition: running
    [execute_transition] again with the same two names, whatever the roster
    holds for them and whatever sources the host has, ends as the first run
    did and changes no source and no roster entry. *)
Theorem execute_transition_twice (team1_name team2_name : string)
    (st st1 : scene_state) (r : res unit) :
  execute_transition team1_name team2_name st = (r, st1) →
  ∃ st2,
    execute_transition team1_name team2_name st1 = (r, st2) ∧
    sources st2 = sources st1 ∧
    TEAM_ROSTER st2 = TEAM_ROSTER st1.
Proof.
  intros Hrun.
  destruct (execute_transition_spec team1_name team2_name st) as [m1 H1].
  rewrite H1 in Hrun. injection Hrun as <- <-.
  match goal with
  | |- context [execute_transition _ _ ?s] =>
      destruct (execute_transition_spec team1_name team2_name s) as [m2 H2]
  end.
  cbn [TEAM_ROSTER sources scene_out] in H2.
  rewrite transition_update_twice in H2.
  eexists. split; [exact H2|]. done.
Qed.

Lemma T1_PREFIX_in x : T1_PREFIX x ∈ T1_PREFIXES.
Proof. destruct x; unfold T1_PREFIXES; repeat constructor. Qed.

Lemma T2_PREFIX_in x : T2_PREFIX x ∈ T2_PREFIXES.
Proof. destruct x; unfold T2_PREFIXES; repeat constructor. Qed.

(** X11: with both teams in the roster, and a name and a link in each of
    their populated positions, one transition serves both sides: it returns
    normally, the five sources of side 1 carry the data of team 1 and the
    five sources of side 2 the data of team 2, neither side disturbing the
    other. *)
Theorem execute_transition_both (st : scene_state)
    (team1_name team2_name : string) (team1 team2 : Team.t) :
  TEAM_ROSTER st !! team1_name = Some team1 →
  TEAM_ROSTER st !! team2_name = Some team2 →
  arity_ok team1 → arity_ok team2 →
  ∃ st',
    execute_transition team1_name team2_name st = (Ok tt, st') ∧
    TEAM_ROSTER st' = TEAM_ROSTER st ∧
    side_updated T1_NAME_SOURCE T1_PREFIX team1 (sources st) (sources st') ∧
    side_updated T2_NAME_SOURCE T2_PREFIX team2 (sources st) (sources st').
Proof.
  intros H1 H2 Hok1 Hok2.
  destruct (execute_transition_spec team1_name team2_name st) as [msgs Hrun].
  rewrite H1, H2 in Hrun. unfold transition_update, side_update in Hrun.
  set (l := sources st) in *.
  destruct (team_update_described team1 T1_NAME_SOURCE T1_HELM_PREFIX
    T1_MC_PREFIX T1_FLEX_PREFIX T1_BILGE_PREFIX l Hok1 T1_config_ok)
    as (Hres1 & Htext1 & Hpos1).
  pose proof (team_update_untouched team1 _ _ _ _ _ _ _ l T1_T2_apart)
    as [_ Hun1].
  rewrite (surjective_pairing (team_update team1 _ _ _ _ _ l)), Hres1 in Hrun.
  set (l1 := (team_update team1 T1_NAME_SOURCE T1_HELM_PREFIX T1_MC_PREFIX
                T1_FLEX_PREFIX T1_BILGE_PREFIX l).2) in *.
  destruct (team_update_described team2 T2_NAME_SOURCE T2_HELM_PREFIX
    T2_MC_PREFIX T2_FLEX_PREFIX T2_BILGE_PREFIX l1 Hok2 T2_config_ok)
    as (Hres2 & Htext2 & Hpos2).
  pose proof (team_update_untouched team2 _ _ _ _ _ _ _ l1 T2_T1_apart)
    as [_ Hun2].
  rewrite Hres2 in Hrun.
  set (l2 := (team_update team2 T2_NAME_SOURCE T2_HELM_PREFIX T2_MC_PREFIX
                T2_FLEX_PREFIX T2_BILGE_PREFIX l1).2) in *.
  eexists. split; [exact Hrun|]. cbn [TEAM_ROSTER sources].
  split_and!; [done| |].
  - split.
    + intros t s Ht Hs. apply Hun2; [by apply Htext1|].
      apply owned_name. simpl.
      by destruct (first_named_Some _ _ _ Ht) as (s' & ? & ? & _); simplify_eq.
    + intros x i s Hi Hs.
      assert (Hw : l1 !! i
                   = Some (written (T1_PREFIX x) (player_of (position x team1))
                             (link_of (position x team1)) s)).
      { specialize (Hpos1 x i s). destruct x; by apply Hpos1. }
      apply Hun2; [done|].
      apply (owned_prefix _ _ (T1_PREFIX x)); [apply T1_PREFIX_in|by destruct x|].
      apply matches_written. by destruct x.
  - split.
    + intros t s Ht Hs. apply Htext2.
      * subst l1. by rewrite first_named_team_update.
      * apply Hun1; [done|]. apply owned_name.
        by destruct (first_named_Some _ _ _ Ht) as (s' & ? & ? & _); simplify_eq.
    + intros x i s Hi Hs.
      assert (Hi1 : first_match (T2_PREFIX x) l1 = Some i).
      { subst l1. rewrite first_match_team_update; [done|]. by destruct x. }
      assert (Hs1 : l1 !! i = Some s).
      { apply Hun1; [done|].
        destruct (first_match_Some _ _ _ Hi) as (s' & ? & Hm & _). simplify_eq.
        apply (owned_prefix _ _ (T2_PREFIX x));
          [apply T2_PREFIX_in|by destruct x|done]. }
      specialize (Hpos2 x i s). destruct x; by apply Hpos2.
Qed.

(** X12: a transition keeps to its ten sources.  However it ends, and it
    ends normally or with [IndexError], the roster and the number of sources
    are as before and every source that belongs to neither side (not named
    as a text source, matching none of the eight prefixes) is where and
    what it was; when neither name is in the roster no source changes at
    all. *)
Theorem execute_transition_frame (team1_name team2_name : string)
    (st st' : scene_state) (r : res unit) :
  execute_transition team1_name team2_name st = (r, st') →
  (r = Ok tt ∨ r = Raise IndexError) ∧
  TEAM_ROSTER st' = TEAM_ROSTER st ∧
  length (sources st') = length (sources st) ∧
  (∀ i s, sources st !! i = Some s →
     side1_source s = false → side2_source s = false →
     sources st' !! i = Some s) ∧
  (TEAM_ROSTER st !! team1_name = None →
   TEAM_ROSTER st !! team2_name = None →
   r = Ok tt ∧ sources st' = sources st).
Proof.
  intros Hrun.
  destruct (execute_transition_spec team1_name team2_name st) as [msgs H].
  rewrite H in Hrun. injection Hrun as <- <-. cbn [TEAM_ROSTER sources].
  clear H. set (l := sources st).
  assert (Hside : ∀ team ns hp mp fp bp l0,
    ((side_update team ns hp mp fp bp l0).1 = Ok tt ∨
     (side_update team ns hp mp fp bp l0).1 = Raise IndexError) ∧
    length (side_update team ns hp mp fp bp l0).2 = length l0 ∧
    ∀ i s, l0 !! i = Some s → owned ns [hp; mp; fp; bp] s = false →
           (side_update team ns hp mp fp bp l0).2 !! i = Some s).
  { intros [team|] ns hp mp fp bp l0; simpl; [|auto].
    split_and!.
    - unfold team_update. rewrite positions_update_result.
      destruct (existsb _ _); auto.
    - apply team_update_length.
    - intros i s Hs Hown.
      destruct (team_update_frame team ns hp mp fp bp l0 i)
        as [->|(s0 & s' & Hs0 & _ & Ho & _)]; [done|].
      simplify_eq. congruence. }
  unfold transition_update.
  destruct (Hside (TEAM_ROSTER st !! team1_name) T1_NAME_SOURCE T1_HELM_PREFIX
    T1_MC_PREFIX T1_FLEX_PREFIX T1_BILGE_PREFIX l) as (Hr1 & Hl1 & Hf1).
  destruct (side_update (TEAM_ROSTER st !! team1_name) _ _ _ _ _ l)
    as [r1 l1] eqn:Hu1. cbn [fst snd] in *.
  destruct (Hside (TEAM_ROSTER st !! team2_name) T2_NAME_SOURCE T2_HELM_PREFIX
    T2_MC_PREFIX T2_FLEX_PREFIX T2_BILGE_PREFIX l1) as (Hr2 & Hl2 & Hf2).
  split_and!.
  - destruct r1 as [[]|e]; [done|]. cbn [fst]. destruct Hr1; [done|auto].
  - done.
  - destruct r1 as [[]|e]; cbn [snd]; congruence.
  - intros i s Hs Hn1 Hn2. destruct r1 as [[]|e]; cbn [snd]; auto.
  - intros Hk1 Hk2. rewrite Hk1 in Hu1. rewrite Hk2. simpl in Hu1.
    by simplify_eq.
Qed.

(** *** The bracket client *)

Lemma nonempty_false s : Py.nonempty s = false ↔ s = "".
Proof.
  unfold Py.nonempty. rewrite negb_false_iff. apply String.eqb_eq.
Qed.

Lemma nonempty_true s : Py.nonempty s = true ↔ s ≠ "".
Proof.
  unfold Py.nonempty. rewrite negb_true_iff. apply String.eqb_neq.
Qed.

(** X13: credentials that are not both set make the two fetches inert:
    after [set_credentials] with an empty key or an empty tournament id,
    [get_participants] and [get_matches] return normally whatever the remote
    side would answer, print the one warning that names what is missing
    (the tournament id is checked first) and leave both mappings as they
    were before the credentials were set. *)
Theorem fetch_without_credentials (api_key tournament_id : string)
    (net : string → http_outcome) (st : bracket_state) :
  api_key = "" ∨ tournament_id = "" →
  ∃ st1 warning,
    set_credentials api_key tournament_id st = (Ok tt, st1) ∧
    PARTICIPANTS st1 = PARTICIPANTS st ∧ MATCHES st1 = MATCHES st ∧
    warning = (if Py.nonempty tournament_id
               then "[Challonge] API key not set"
               else "[Challonge] Tournament ID not set") ∧
    get_participants net st1 = (Ok tt, bracket_logged st1 [warning]) ∧
    get_matches net st1 = (Ok tt, bracket_logged st1 [warning]).
Proof.
  intros Hunset. eexists _, _. split; [reflexivity|].
  cbn [PARTICIPANTS MATCHES]. split_and!; [done..| |].
  - unfold get_participants, _api_request, bracket_print, bracket_logged.
    unfold_monad. cbn [API_KEY TOURNAMENT_ID PARTICIPANTS MATCHES bracket_out].
    destruct (Py.nonempty tournament_id) eqn:Ht; [|done].
    destruct Hunset as [->| ->]; [done|]. by apply nonempty_true in Ht.
  - unfold get_matches, _api_request, bracket_print, bracket_logged.
    unfold_monad. cbn [API_KEY TOURNAMENT_ID PARTICIPANTS MATCHES bracket_out].
    destruct (Py.nonempty tournament_id) eqn:Ht; [|done].
    destruct Hunset as [->| ->]; [done|]. by apply nonempty_true in Ht.
Qed.

(** X14: [_api_request] never raises and changes nothing but the log.  It
    returns the decoded payload, printing nothing, exactly when the key is
    set and the request for the URL of the endpoint succeeds; in every
    other case it returns [None] after printing at least one line.  The
    remote side is consulted for that one URL only. *)
Theorem _api_request_total (net : string → http_outcome) (endpoint : string)
    (st : bracket_state) :
  (∀ j, API_KEY st ≠ "" → net (api_url endpoint) = Payload j →
        _api_request net endpoint st = (Ok j, st)) ∧
  (API_KEY st = "" ∨ fetch_failed (net (api_url endpoint)) →
   ∃ msgs, msgs ≠ [] ∧
     _api_request net endpoint st = (Ok JNull, bracket_logged st msgs)) ∧
  (∀ net', net' (api_url endpoint) = net (api_url endpoint) →
           _api_request net' endpoint st = _api_request net endpoint st).
Proof.
  clear int_of_str ROSTER_FILE.
  split_and!.
  - intros j Hk Hn. unfold _api_request. unfold_monad.
    apply nonempty_true in Hk. rewrite Hk. simpl.
    fold (api_url endpoint). by rewrite Hn.
  - intros H. apply _api_request_failed. tauto.
  - intros net' Heq. unfold _api_request. unfold_monad.
    fold (api_url endpoint). by rewrite Heq.
Qed.

Lemma participants_of_wf ps acc :
  forallb wf_participant ps = true →
  participants_of ps acc = Ok (foldl add_participant acc ps).
Proof.
  revert acc. induction ps as [|p ps IH]; intros acc Hwf; [done|].
  simpl in Hwf. apply andb_true_iff in Hwf as [Hp Hps].
  unfold wf_participant in Hp. apply andb_true_iff in Hp as [Hid Hname].
  apply bool_decide_eq_true in Hid as [z Hz], Hname as [n Hn].
  cbn [participants_of foldl]. unfold add_participant at 2.
  rewrite Hz, Hn. unfold participant_id_of, participant_name_of in Hz, Hn.
  unfold_monad.
  destruct (Py.getitem p "id") as [v|]; [|done].
  destruct (py_int v) as [z'|]; [|done].
  destruct (Py.getitem p "attributes") as [a|]; [|done].
  destruct (Py.getitem a "name") as [n'|]; [|done].
  simplify_eq. by apply IH.
Qed.

Lemma add_participant_dom acc ps z :
  z ∈ dom (foldl add_participant acc ps)
  ↔ z ∈ dom acc ∨
    ∃ p, p ∈ ps ∧ participant_id_of p = Some z ∧
         is_Some (participant_name_of p).
Proof.
  revert acc. induction ps as [|p ps IH]; intros acc; simpl.
  { split; [auto|]. intros [?|(p & Hp%elem_of_nil & _)]; done. }
  rewrite IH. unfold add_participant at 1. split.
  - intros [Hd|(p' & Hin & Hid)].
    + destruct (participant_id_of p) as [k|] eqn:Hk; [|auto].
      destruct (participant_name_of p) as [n|] eqn:Hn; [|auto].
      apply dom_insert, elem_of_union in Hd as [->%elem_of_singleton|Hd];
        [|auto].
      right. exists p. rewrite Hn. split_and!; [left|done|by eexists].
    + right. exists p'. split; [by right|done].
  - intros [Hd|(p' & Hin & Hid & [n Hn])].
    + left. destruct (participant_id_of p); [|done].
      destruct (participant_name_of p); [|done].
      apply dom_insert, elem_of_union. auto.
    + apply elem_of_cons in Hin as [->|Hin].
      * left. rewrite Hid, Hn. apply dom_insert, elem_of_union. left.
        by apply elem_of_singleton.
      * right. exists p'. split_and!; [done..|by eexists].
Qed.

Lemma add_participant_lookup acc ps z v :
  foldl add_participant acc ps !! z = Some v →
  (acc !! z = Some v ∧ ∀ p, p ∈ ps → wf_participant p = true →
                            participant_id_of p ≠ Some z) ∨
  ∃ pre p post,
    ps = pre ++ p :: post ∧ participant_id_of p = Some z ∧
    participant_name_of p = Some v ∧
    ∀ p', p' ∈ post → wf_participant p' = true →
          participant_id_of p' ≠ Some z.
Proof.
  revert acc. induction ps as [|p ps IH]; intros acc; simpl.
  { intros H. left. split; [done|]. by intros p ?%elem_of_nil. }
  intros [[Hacc Hlater]|(pre & p0 & post & -> & Hid & Hname & Hpost)]%IH.
  - unfold add_participant in Hacc.
    destruct (participant_id_of p) as [k|] eqn:Hk;
      [destruct (participant_name_of p) as [n|] eqn:Hn|].
    + destruct (decide (k = z)) as [->|Hne].
      * rewrite lookup_insert_eq in Hacc. simplify_eq.
        right. by exists [], p, ps.
      * rewrite lookup_insert_ne in Hacc by done. left. split; [done|].
        intros p' [->|Hin]%elem_of_cons; [congruence|auto].
    + left. split; [done|].
      intros p' [->|Hin]%elem_of_cons Hwf; [|auto].
      unfold wf_participant in Hwf. rewrite Hn in Hwf.
      apply andb_true_iff in Hwf as [_ [? ?]%bool_decide_eq_true]. done.
    + left. split; [done|].
      intros p' [->|Hin]%elem_of_cons; [congruence|auto].
  - right. by exists (p :: pre), p0, post.
Qed.

Lemma add_participant_size acc ps :
  (size (foldl add_participant acc ps) ≤ size acc + length ps)%nat.
Proof.
  revert acc. induction ps as [|p ps IH]; intros acc; simpl; [lia|].
  etrans; [apply IH|]. unfold add_participant.
  destruct (participant_id_of p) as [k|]; [|lia].
  destruct (participant_name_of p) as [n|]; [|lia].
  destruct (acc !! k) eqn:Hk.
  - rewrite map_size_insert_Some by done. lia.
  - rewrite map_size_insert_None by done. lia.
Qed.

(** X15: a participants payload of well-formed records replaces the
    participant mapping as a whole and leaves the matches alone: the new
    mapping has exactly the ids of the records as keys, each with the
    name of the last record carrying that id, so an entry of the mapping
    before the call is gone unless a record brings it again; one line
    with the number of entries is printed. *)
Theorem get_participants_loads (net : string → http_outcome)
    (st : bracket_state) (o : list (string * json)) (ps : list json) :
  API_KEY st ≠ "" → TOURNAMENT_ID st ≠ "" →
  net (participants_url st) = Payload (JObj o) →
  Py.assoc "data" o = Some (JArr ps) →
  forallb wf_participant ps = true →
  ∃ st',
    get_participants net st = (Ok tt, st') ∧
    MATCHES st' = MATCHES st ∧
    API_KEY st' = API_KEY st ∧ TOURNAMENT_ID st' = TOURNAMENT_ID st ∧
    bracket_out st'
    = bracket_out st ++ ["[Challonge] Loaded "
                         +:+ pretty (size (PARTICIPANTS st'))
                         +:+ " participants"] ∧
    (size (PARTICIPANTS st') ≤ length ps)%nat ∧
    (∀ z, z ∈ dom (PARTICIPANTS st') ↔
          ∃ p, p ∈ ps ∧ participant_id_of p = Some z) ∧
    (∀ z v, PARTICIPANTS st' !! z = Some v →
       ∃ pre p post,
         ps = pre ++ p :: post ∧ participant_id_of p = Some z ∧
         participant_name_of p = Some v ∧
         ∀ p', p' ∈ post → participant_id_of p' ≠ Some z).
Proof.
  intros Hk Ht Hn Hdata Hwf.
  assert (Hd : has_data (JObj o) = Ok true).
  { unfold has_data, Py.contains. destruct o as [|kv o]; [done|].
    cbn [Py.truthy]. by rewrite Hdata. }
  eexists. split.
  { unfold get_participants, _api_request. unfold_monad. unfold Py.nonempty.
    apply String.eqb_neq in Hk, Ht. rewrite Ht. simpl. rewrite Hk. simpl.
    unfold participants_url, api_url in Hn. rewrite Hn. simpl.
    rewrite Hd. cbn [Py.getitem]. rewrite Hdata. cbn [Py.iter].
    rewrite participants_of_wf by done. reflexivity. }
  simpl. split_and!; [done..| | |].
  - etrans; [apply add_participant_size|]. by rewrite map_size_empty.
  - intros z. rewrite add_participant_dom, dom_empty. split.
    + intros [[]%elem_of_empty|(p & Hin & Hid & _)]. by exists p.
    + intros (p & Hin & Hid). right. exists p. split_and!; [done..|].
      rewrite forallb_forall in Hwf. apply list_elem_of_In, Hwf in Hin.
      unfold wf_participant in Hin.
      by apply andb_true_iff in Hin as [_ ?%bool_decide_eq_true].
  - intros z v [[H _]|(pre & p & post & -> & Hid & Hname & Hpost)]
      %add_participant_lookup; [by rewrite lookup_empty in H|].
    exists pre, p, post. split_and!; [done..|].
    intros p' Hin. apply Hpost; [done|].
    rewrite forallb_forall in Hwf. apply Hwf, list_elem_of_In.
    apply elem_of_app. right. by right.
Qed.

(** *** Runs of the two fetches on a payload *)

Lemma has_data_payload o v : Py.assoc "data" o = Some v → has_data (JObj o) = Ok true.
Proof.
  intros Hdata. unfold has_data, Py.contains. destruct o as [|kv o]; [done|].
  cbn [Py.truthy]. by rewrite Hdata.
Qed.


Lemma get_matches_payload net st o ms :
  API_KEY st ≠ "" → TOURNAMENT_ID st ≠ "" →
  net (matches_url st) = Payload (JObj o) →
  Py.assoc "data" o = Some (JArr ms) →
  forallb wf_match ms = true →
  get_matches net st
  = (Ok tt, bracket_logged
              (set_matches (λ _, matches_of (PARTICIPANTS st) ms) st)
              ["[Challonge] Loaded "
               +:+ pretty (size (matches_of (PARTICIPANTS st) ms))
               +:+ " matches"]).
Proof.
  intros Hk Ht Hn Hdata Hwf.
  unfold get_matches, _api_request. unfold_monad. unfold Py.nonempty.
  apply String.eqb_neq in Hk, Ht. rewrite Ht. simpl. rewrite Hk. simpl.
  unfold matches_url, api_url in Hn. rewrite Hn. simpl.
  rewrite (has_data_payload _ _ Hdata). cbn [Py.getitem]. rewrite Hdata.
  cbn [Py.iter]. rewrite get_matches_loop by done. reflexivity.
Qed.

Lemma get_participants_failed net st :
  API_KEY st ≠ "" → TOURNAMENT_ID st ≠ "" →
  fetch_failed (net (participants_url st)) →
  ∃ msgs, msgs ≠ [] ∧
    get_participants net st = (Ok tt, bracket_logged st msgs).
Proof.
  intros Hk Ht Hf.
  destruct (_api_request_failed net
    ("/tournaments/" +:+ TOURNAMENT_ID st +:+ "/participants.json") st)
    as (msgs & Hne & Hrun); [by left|].
  exists msgs. split; [done|].
  unfold get_participants. unfold_monad. unfold Py.nonempty.
  apply String.eqb_neq in Ht. rewrite Ht. simpl. by rewrite Hrun.
Qed.

Lemma for_each_match_raises pre m post st e :
  forallb wf_match pre = true →
  Py.getitem m "attributes" = Raise e →
  for_each (pre ++ m :: post) match_loop_body st
  = (Raise e,
     set_matches (λ acc, foldl (add_match (PARTICIPANTS st)) acc pre) st).
Proof.
  intros Hwf Hm. revert st. induction pre as [|m0 pre IH]; intros st.
  { simpl. unfold match_loop_body. unfold_monad. rewrite Hm.
    by rewrite set_matches_id. }
  simpl in Hwf. apply andb_true_iff in Hwf as [Hm0 Hpre].
  cbn [app for_each]. unfold_monad. rewrite (match_loop_body_wf m0 st Hm0).
  rewrite (IH Hpre). by destruct st.
Qed.

(** X16: the match fetch is not all-or-nothing.  When the records of the
    payload are well-formed up to one whose [attributes] cannot be read,
    the call raises that record's exception after the match mapping has
    been emptied and refilled from the records before it: the entries of
    the mapping before the call are lost, the records after the bad one
    are never looked at, and nothing is printed. *)
Theorem get_matches_stops_midway (net : string → http_outcome)
    (st : bracket_state) (o : list (string * json))
    (pre post : list json) (m : json) (e : exn) :
  API_KEY st ≠ "" → TOURNAMENT_ID st ≠ "" →
  net (matches_url st) = Payload (JObj o) →
  Py.assoc "data" o = Some (JArr (pre ++ m :: post)) →
  forallb wf_match pre = true →
  Py.getitem m "attributes" = Raise e →
  ∃ st',
    get_matches net st = (Raise e, st') ∧
    MATCHES st' = matches_of (PARTICIPANTS st) pre ∧
    (∀ n, n ∈ dom (MATCHES st') ↔
          ∃ m', m' ∈ pre ∧ play_order_of m' = Some n) ∧
    PARTICIPANTS st' = PARTICIPANTS st ∧
    bracket_out st' = bracket_out st.
Proof.
  intros Hk Ht Hn Hdata Hwf Hm.
  eexists. split.
  { unfold get_matches, _api_request. unfold_monad. unfold Py.nonempty.
    apply String.eqb_neq in Hk, Ht. rewrite Ht. simpl. rewrite Hk. simpl.
    unfold matches_url, api_url in Hn. rewrite Hn. simpl.
    rewrite (has_data_payload _ _ Hdata). cbn [Py.getitem]. rewrite Hdata.
    cbn [Py.iter]. rewrite (for_each_match_raises pre m post _ e) by done.
    reflexivity. }
  simpl. fold (matches_of (PARTICIPANTS st) pre). split_and!; [done| |done..].
  intros n. unfold matches_of. rewrite add_match_dom, dom_empty.
  split; [|auto]. intros [[]%elem_of_empty|H]; done.
Qed.


(** X18: when the participants request of [refresh_bracket] fails, the
    matches are still fetched, and their sides are resolved through the
    participants of the state before the call, which are kept. *)
Theorem refresh_bracket_stale (net : string → http_outcome)
    (st : bracket_state) (om : list (string * json)) (ms : list json) :
  API_KEY st ≠ "" → TOURNAMENT_ID st ≠ "" →
  fetch_failed (net (participants_url st)) →
  net (matches_url st) = Payload (JObj om) →
  Py.assoc "data" om = Some (JArr ms) →
  forallb wf_match ms = true →
  ∃ st',
    refresh_bracket net st = (Ok tt, st') ∧
    PARTICIPANTS st' = PARTICIPANTS st ∧
    MATCHES st' = matches_of (PARTICIPANTS st) ms.
Proof.
  intros Hk Ht Hf Hnm Hdm Hwm.
  destruct (get_participants_failed net st Hk Ht Hf) as (msgs & _ & Hp).
  eexists. split.
  { unfold refresh_bracket. unfold mbind at 1, M_bind. rewrite Hp.
    unfold mbind at 1, M_bind.
    rewrite (get_matches_payload net _ om ms) by done.
    unfold bracket_print. unfold_monad. reflexivity. }
  simpl. done.
Qed.

Lemma text_sources_size (m : gmap Z (json * json)) :
  size (map_fold (λ (game_num : Z) (names : json * json) sources,
              let '(t1_name, t2_name) := names in
              <[source_key game_num "2" := t2_name]>
                (<[source_key game_num "1" := t1_name]> sources))
           (∅ : gmap string json) m)
  = (2 * size m)%nat.
Proof.
  apply (map_fold_weak_ind (λ (r : gmap string json) (m : gmap Z (json * json)),
    size r = (2 * size m)%nat ∧
    ∀ k, is_Some (r !! k) →
      ∃ n s, is_Some (m !! n) ∧ k = source_key n s ∧ String.length s = 1%nat)).
  { split; [by rewrite !map_size_empty|]. intros k [v H].
    by rewrite lookup_empty in H. }
  clear m. intros i [a b] m r Hi [IHs IHk]. split.
  - assert (H1 : r !! source_key i "1" = None).
    { apply eq_None_not_Some. intros (n & s & [v Hn] & Hs & Hlen)%IHk.
      apply source_key_inj in Hs as [-> _]; [|done]. by rewrite Hi in Hn. }
    assert (H2 : r !! source_key i "2" = None).
    { apply eq_None_not_Some. intros (n & s & [v Hn] & Hs & Hlen)%IHk.
      apply source_key_inj in Hs as [-> _]; [|done]. by rewrite Hi in Hn. }
    rewrite map_size_insert_None.
    + rewrite map_size_insert_None by done.
      rewrite map_size_insert_None by done. lia.
    + rewrite lookup_insert_ne; [done|].
      intros [_ ?]%source_key_inj; done.
  - intros k Hk.
    destruct (decide (k = source_key i "2")) as [->|Hk2].
    { exists i, "2". by rewrite lookup_insert_eq. }
    rewrite lookup_insert_ne in Hk by done.
    destruct (decide (k = source_key i "1")) as [->|Hk1].
    { exists i, "1". by rewrite lookup_insert_eq. }
    rewrite lookup_insert_ne in Hk by done.
    apply IHk in Hk as (n & s & [v Hn] & -> & Hlen).
    exists n, s. split_and!; [|done..].
    rewrite lookup_insert_ne; [by eexists|]. intros ->. by rewrite Hi in Hn.
Qed.

(** X19: the text-source mapping has exactly two entries a match, so no
    two names [G{n}_T1], [G{n}_T2] of it coincide, whatever the play
    orders, and it is empty exactly when there is no match. *)
Theorem get_bracket_text_sources_size (st : bracket_state) :
  ∃ src,
    get_bracket_text_sources st = (Ok src, st) ∧
    size src = (2 * size (MATCHES st))%nat ∧
    (src = ∅ ↔ MATCHES st = ∅).
Proof.
  eexists. split; [reflexivity|]. split; [apply text_sources_size|].
  rewrite <- !map_size_empty_iff, text_sources_size. lia.
Qed.

End Program.

(* ===================================================================== *)
(** ** The theorems at work *)
(* ===================================================================== *)

Lemma build_twitch_url_exact_witness :
  "abc" ≠ "" ∧
  build_twitch_url sample_repr (JStr "abc")
  = "https://player.twitch.tv/?channel=abc&enableExtensions=true&muted=false&parent=twitch.tv&player=popout&quality=480p30&volume=0.69".
Proof.
  split; [done|].
  apply (proj1 (build_twitch_url_exact sample_repr "abc")). done.
Defined.

Lemma fetch_failure_keeps_state_witness :
  fetch_failed (net_down (matches_url bracket0)) ∧
  ∃ msgs, msgs ≠ [] ∧
    get_matches sample_int net_down bracket0
    = (Ok tt, bracket_logged bracket0 msgs).
Proof.
  split; [exact I|].
  apply (proj2 (fetch_failure_keeps_state sample_int net_down bracket0)).
  exact I.
Defined.

Lemma get_participants_atomic_witness :
  record_without_id ∈ [JObj [("id", JInt 3);
                             ("attributes", JObj [("name", JStr "Alpha")])];
                       record_without_id] ∧
  Py.getitem record_without_id "id" = Raise KeyError ∧
  ∃ e, get_participants sample_int net_bad_participants bracket0
       = (Raise e, bracket0).
Proof.
  assert (Hin : record_without_id
                ∈ [JObj [("id", JInt 3);
                         ("attributes", JObj [("name", JStr "Alpha")])];
                   record_without_id]) by (right; left).
  split_and!; [exact Hin|reflexivity|].
  destruct (get_participants_atomic sample_int net_bad_participants bracket0)
    as (_ & _ & H & _).
  eapply H; [done|done|reflexivity|reflexivity|exact Hin|by left].
Defined.

Lemma load_roster_fails_softly_witness :
  ∃ msg, load_roster "roster.json" FileNotFound scene_alpha
         = (Ok tt, scene_logged scene_alpha [msg]) ∧
         TEAM_ROSTER (scene_logged scene_alpha [msg]) = TEAM_ROSTER scene_alpha.
Proof.
  apply (load_roster_fails_softly "roster.json" FileNotFound scene_alpha).
  by left.
Defined.

(** Content that is not UTF-8 is invalid content, and [load_roster] has no
    handler for what reading it raises: the exception reaches the caller
    and no diagnostic is printed. *)
Lemma load_roster_raises_on_undecodable :
  (load_roster "roster.json" (ReadRaises UnicodeDecodeError) scene_alpha).1
  = Raise UnicodeDecodeError ∧
  scene_out
    (load_roster "roster.json" (ReadRaises UnicodeDecodeError) scene_alpha).2
  = scene_out scene_alpha ∧
  ¬ ∃ msg, load_roster "roster.json" (ReadRaises UnicodeDecodeError)
             scene_alpha
           = (Ok tt, scene_logged scene_alpha [msg]).
Proof.
  split_and!; [reflexivity..|]. intros [msg H]. discriminate H.
Qed.

Lemma load_roster_positions_witness :
  ∃ team,
    TEAM_ROSTER (load_roster "roster.json" (Parsed roster_json) scene0).2
      !! "Alpha" = Some team ∧
    position Helm team = Some [JStr "X"; JStr "x1"] ∧
    position Mc team = None.
Proof.
  destruct (load_roster_positions "roster.json" scene0
    (load_roster "roster.json" (Parsed roster_json) scene0).2 roster_json
    [("Alpha", JObj [("helm", JObj [("name", JStr "X"); ("channel", JStr "x1")])])]
    "Alpha" (JObj [("helm", JObj [("name", JStr "X"); ("channel", JStr "x1")])]))
    as (team & Hlk & _ & Hpos).
  - reflexivity.
  - apply NoDup_singleton.
  - reflexivity.
  - left.
  - exists team. split_and!; [exact Hlk| |].
    + destruct (Hpos Helm) as (_ & _ & _ & _ & _ & H).
      apply (H [("name", JStr "X"); ("channel", JStr "x1")] "X"); done.
    + destruct (Hpos Mc) as (H & _). by apply H.
Defined.

Lemma position_accessors_arity_witness :
  load_roster "roster.json" (Parsed roster_json_short) scene0
  = (Ok tt, scene_short) ∧
  ∃ team,
    TEAM_ROSTER scene_short !! "Alpha" = Some team ∧
    position Helm team = Some [JStr "X"] ∧
    get_player_name (position Helm team) = Ok (JStr "X") ∧
    get_twitch_link (position Helm team) = Raise IndexError ∧
    ∃ st1,
      apply_team_to_sources sample_repr team T1_NAME_SOURCE T1_HELM_PREFIX
        T1_MC_PREFIX T1_FLEX_PREFIX T1_BILGE_PREFIX scene_short
      = (Raise IndexError, st1).
Proof.
  split; [reflexivity|].
  destruct (position_accessors_arity sample_repr "roster.json")
    as (_ & H & _).
  destruct (H scene0 scene_short roster_json_short
    [("Alpha", JObj [("helm", JObj [("name", JStr "X")])])] "Alpha"
    [("helm", JObj [("name", JStr "X")])] Helm (JStr "X"))
    as (team & Hlk & Hp & Hn & Hl & Happly).
  - reflexivity.
  - repeat constructor. by intros ?%elem_of_nil.
  - reflexivity.
  - left.
  - reflexivity.
  - reflexivity.
  - exists team. split_and!; [exact Hlk|exact Hp|exact Hn|exact Hl|].
    apply Happly.
Defined.

Lemma get_matches_spec_witness :
  ∃ st',
    get_matches sample_int net_matches bracket0 = (Ok tt, st') ∧
    MATCHES st' = {[ 1 := (JStr "Beta", JStr "Alpha"); 2 := (JNull, JNull) ]}.
Proof.
  destruct (get_matches_spec sample_int net_matches bracket0
    [("data", JArr match_records)] match_records)
    as (st' & Hrun & _ & Hm & _); [done|done|reflexivity..|].
  exists st'. split; [exact Hrun|]. rewrite Hm. reflexivity.
Defined.

Lemma alpha_team_arity_ok : arity_ok alpha_team.
Proof. intros [] t [= <-]. simpl. lia. Defined.

Lemma execute_transition_one_side_witness :
  ∃ st',
    execute_transition sample_repr "Alpha" "Ghost" scene_alpha = (Ok tt, st') ∧
    sources st'
    = [Source "Team 1" {[ "text" := "Alpha" ]};
       Source "T1H - X"
         {[ "url" := "https://player.twitch.tv/?channel=x1&enableExtensions=true&muted=false&parent=twitch.tv&player=popout&quality=480p30&volume=0.69" ]};
       Source "T1MC -" {[ "url" := "" ]};
       Source "T1F -" {[ "url" := "" ]};
       Source "T1B -" {[ "url" := "" ]};
       Source "Team 2" ∅; Source "T2H - other" {[ "url" := "u" ]}] ∧
    side_untouched side2_source (sources scene_alpha) (sources st') ∧
    "[Tournament] Team 2 not found in roster: Ghost" ∈ scene_out st'.
Proof.
  destruct (execute_transition_one_side sample_repr scene_alpha
    "Alpha" "Ghost" alpha_team) as [(st' & Hrun & _ & Hsrc & _ & Hside & Hlog) _].
  - reflexivity.
  - reflexivity.
  - exact alpha_team_arity_ok.
  - exists st'. split_and!; [exact Hrun| |exact Hside|exact Hlog].
    rewrite Hsrc. reflexivity.
Defined.

(** The roster with a helm record that has a name and nothing else loads,
    and the transition to its team raises. *)
Lemma execute_transition_raises :
  load_roster "roster.json" (Parsed roster_json_short) scene0
  = (Ok tt, scene_short) ∧
  is_Some (TEAM_ROSTER scene_short !! "Alpha") ∧
  TEAM_ROSTER scene_short !! "Ghost" = None ∧
  (execute_transition sample_repr "Alpha" "Ghost" scene_short).1
  = Raise IndexError.
Proof.
  split_and!; [reflexivity| |reflexivity|reflexivity].
  eexists. reflexivity.
Qed.

Lemma apply_team_twice_witness :
  ∃ st2,
    apply_team_to_sources sample_repr alpha_team T1_NAME_SOURCE
      T1_HELM_PREFIX T1_MC_PREFIX T1_FLEX_PREFIX T1_BILGE_PREFIX
      (apply_team_to_sources sample_repr alpha_team T1_NAME_SOURCE
         T1_HELM_PREFIX T1_MC_PREFIX T1_FLEX_PREFIX T1_BILGE_PREFIX scene0).2
    = (Ok tt, st2) ∧
    sources st2
    = sources (apply_team_to_sources sample_repr alpha_team T1_NAME_SOURCE
                 T1_HELM_PREFIX T1_MC_PREFIX T1_FLEX_PREFIX T1_BILGE_PREFIX
                 scene0).2 ∧
    TEAM_ROSTER st2
    = TEAM_ROSTER (apply_team_to_sources sample_repr alpha_team T1_NAME_SOURCE
                     T1_HELM_PREFIX T1_MC_PREFIX T1_FLEX_PREFIX T1_BILGE_PREFIX
                     scene0).2.
Proof.
  apply (apply_team_twice sample_repr alpha_team T1_NAME_SOURCE
    T1_HELM_PREFIX T1_MC_PREFIX T1_FLEX_PREFIX T1_BILGE_PREFIX scene0 _ (Ok tt)).
  - intros p Hp.
    repeat (apply elem_of_cons in Hp as [->|Hp]; [reflexivity|]).
    by apply elem_of_nil in Hp.
  - intros p Hp _.
    repeat (apply elem_of_cons in Hp as [->|Hp]; [reflexivity|]).
    by apply elem_of_nil in Hp.
  - reflexivity.
Defined.

(** With the text source configured under the name the helm source is
    given, the first application finds no text source and the second one
    finds the renamed helm source: the second application changes the
    sources, although each of the four prefixes is matched by exactly one
    source before and after. *)
Lemma apply_team_twice_changes_sources :
  count_matches "A" (sources scene_abcd) = 1%nat ∧
  count_matches "B" (sources scene_abcd) = 1%nat ∧
  count_matches "C" (sources scene_abcd) = 1%nat ∧
  count_matches "D" (sources scene_abcd) = 1%nat ∧
  (apply_team_to_sources sample_repr alpha_team "A X" "A" "B" "C" "D"
     scene_abcd).1 = Ok tt ∧
  sources (apply_team_to_sources sample_repr alpha_team "A X" "A" "B" "C" "D"
             scene_abcd).2 = sources scene_abcd_once ∧
  count_matches "A" (sources scene_abcd_once) = 1%nat ∧
  count_matches "B" (sources scene_abcd_once) = 1%nat ∧
  count_matches "C" (sources scene_abcd_once) = 1%nat ∧
  count_matches "D" (sources scene_abcd_once) = 1%nat ∧
  (apply_team_to_sources sample_repr alpha_team "A X" "A" "B" "C" "D"
     scene_abcd_once).1 = Ok tt ∧
  sources (apply_team_to_sources sample_repr alpha_team "A X" "A" "B" "C" "D"
             scene_abcd_once).2 ≠ sources scene_abcd_once.
Proof.
  split_and!; try reflexivity.
  intros Heq.
  apply (f_equal (λ l, l !! 0%nat ≫= λ s, src_settings s !! "text")) in Heq.
  vm_compute in Heq. discriminate.
Qed.

(** *** The further properties at work *)

Lemma build_twitch_url_inj_witness :
  build_twitch_url sample_repr (JStr "x1")
  = build_twitch_url sample_repr (JStr "x1") ∧ "x1" = "x1".
Proof.
  split; [reflexivity|].
  apply (build_twitch_url_inj sample_repr "x1" "x1"). reflexivity.
Defined.

Lemma position_accessors_by_order_witness :
  ∃ pos,
    position_tup
      (JObj [("helm", JObj [("channel", JStr "x1"); ("name", JStr "X")])])
      "helm" = Ok (Some pos) ∧
    get_player_name (Some pos) = Ok (JStr "x1") ∧
    get_twitch_link (Some pos) = Ok (JStr "X").
Proof.
  apply (proj2 position_accessors_by_order
    [("helm", JObj [("channel", JStr "x1"); ("name", JStr "X")])] "helm"
    (JStr "x1") (JStr "X")); reflexivity.
Defined.

Lemma load_roster_replaces_witness :
  ∃ st',
    load_roster "roster.json" (Parsed roster_json) scene_both = (Ok tt, st') ∧
    TEAM_ROSTER st' !! "Beta" = None ∧
    sources st' = sources scene_both.
Proof.
  destruct (load_roster_replaces "roster.json" scene_both roster_json
    [("Alpha",
      JObj [("helm", JObj [("name", JStr "X"); ("channel", JStr "x1")])])])
    as (st' & Hrun & _ & Hout & Hsrc & _); [reflexivity..|].
  exists st'. split_and!; [exact Hrun| |exact Hsrc].
  apply Hout. intros [[=]|[]%elem_of_nil]%elem_of_cons.
Defined.

Lemma load_roster_raises_after_clear_witness :
  ∃ st',
    load_roster "roster.json" (Parsed roster_json_broken) scene_both
    = (Raise AttributeError, st') ∧
    sources st' = sources scene_both ∧
    scene_out st' = scene_out scene_both ∧
    dom (TEAM_ROSTER st') = {[ "Gamma" ]}.
Proof.
  destruct (load_roster_raises_after_clear "roster.json" scene_both
    roster_json_broken) as (_ & H & _).
  destruct (H [("Gamma", JObj [])] "Delta" (JObj [("helm", JStr "oops")])
    [("Beta", JObj [])] AttributeError)
    as (st' & Hrun & Hs & Ho & Hdom & _); [reflexivity..|].
  exists st'. split_and!; [exact Hrun|exact Hs|exact Ho|].
  rewrite Hdom. simpl. apply (right_id_L ∅ (∪)).
Defined.

Lemma set_browser_source_url_frame_witness :
  ∃ st',
    set_browser_source_url sample_repr "T1H -" (JStr "X") (JStr "x1") scene0
    = (Ok tt, st') ∧
    sources st' !! 6%nat = Some (Source "T2H - other" {[ "url" := "u" ]}) ∧
    ∃ s', sources st' !! 1%nat = Some s' ∧
          src_name s' = new_source_name sample_repr "T1H -" (JStr "X") ∧
          src_settings s' !! "url" = Some (embed_url sample_repr (JStr "x1")).
Proof.
  destruct (set_browser_source_url_frame sample_repr "T1H -" (JStr "X")
    (JStr "x1") scene0) as (st' & Hrun & _ & _ & _ & H).
  destruct (H 1%nat (Source "T1H - old" ∅)) as [Hframe (s' & Hs & Hn & Hu & _)];
    [done|reflexivity|reflexivity|].
  exists st'. split_and!; [exact Hrun| |].
  - rewrite Hframe by lia. reflexivity.
  - exists s'. split_and!; [exact Hs|exact Hn|exact Hu].
Defined.

Lemma set_text_source_frame_witness :
  ∃ st',
    set_text_source "Team 2" "Beta" scene0 = (Ok tt, st') ∧
    sources st' !! 6%nat = Some (Source "T2H - other" {[ "url" := "u" ]}) ∧
    ∃ s', sources st' !! 5%nat = Some s' ∧
          src_settings s' !! "text" = Some "Beta".
Proof.
  destruct (set_text_source_frame "Team 2" "Beta" scene0)
    as (st' & Hrun & _ & _ & _ & H).
  destruct (H 5%nat (Source "Team 2" ∅)) as [Hframe (s' & Hs & Ht & _)];
    [done|reflexivity|reflexivity|].
  exists st'. split_and!; [exact Hrun| |].
  - rewrite Hframe by lia. reflexivity.
  - exists s'. split; [exact Hs|exact Ht].
Defined.

Lemma apply_team_twice_apart_witness :
  config_ok "N" ["A"; "B"; "C"; "D"] = true ∧
  ∃ st2,
    apply_team_to_sources sample_repr alpha_team "N" "A" "B" "C" "D"
      (apply_team_to_sources sample_repr alpha_team "N" "A" "B" "C" "D"
         scene_abcd).2
    = (Ok tt, st2) ∧
    sources st2
    = sources (apply_team_to_sources sample_repr alpha_team "N" "A" "B" "C"
                 "D" scene_abcd).2 ∧
    TEAM_ROSTER st2
    = TEAM_ROSTER (apply_team_to_sources sample_repr alpha_team "N" "A" "B"
                     "C" "D" scene_abcd).2.
Proof.
  split; [reflexivity|].
  apply (apply_team_twice_apart sample_repr alpha_team "N" "A" "B" "C" "D"
    scene_abcd _ (Ok tt)); vm_compute; reflexivity.
Defined.

Lemma execute_transition_twice_witness :
  ∃ st2,
    execute_transition sample_repr "Alpha" "Beta"
      (execute_transition sample_repr "Alpha" "Beta" scene_both).2
    = (Ok tt, st2) ∧
    sources st2
    = sources (execute_transition sample_repr "Alpha" "Beta" scene_both).2 ∧
    TEAM_ROSTER st2
    = TEAM_ROSTER (execute_transition sample_repr "Alpha" "Beta" scene_both).2.
Proof.
  apply (execute_transition_twice sample_repr "Alpha" "Beta" scene_both _
    (Ok tt)).
  vm_compute. reflexivity.
Defined.

Lemma beta_team_arity_ok : arity_ok beta_team.
Proof. intros [] t [= <-]. simpl. lia. Defined.

Lemma alpha_team_has_arity : arity_ok alpha_team.
Proof. intros [] t [= <-]. simpl. lia. Defined.

Lemma execute_transition_both_witness :
  ∃ st',
    execute_transition sample_repr "Alpha" "Beta" scene_both = (Ok tt, st') ∧
    TEAM_ROSTER st' = TEAM_ROSTER scene_both ∧
    side_updated sample_repr T1_NAME_SOURCE T1_PREFIX alpha_team
      (sources scene_both) (sources st') ∧
    side_updated sample_repr T2_NAME_SOURCE T2_PREFIX beta_team
      (sources scene_both) (sources st').
Proof.
  apply (execute_transition_both sample_repr scene_both "Alpha" "Beta"
    alpha_team beta_team);
    [reflexivity|reflexivity|exact alpha_team_has_arity
    |exact beta_team_arity_ok].
Defined.

Lemma execute_transition_frame_witness :
  (execute_transition sample_repr "Alpha" "Ghost" scene_short).1
  = Raise IndexError ∧
  TEAM_ROSTER (execute_transition sample_repr "Alpha" "Ghost" scene_short).2
  = TEAM_ROSTER scene_short ∧
  sources (execute_transition sample_repr "Alpha" "Ghost" scene_short).2
    !! 6%nat
  = Some (Source "T2H - other" {[ "url" := "u" ]}).
Proof.
  destruct (execute_transition_frame sample_repr "Alpha" "Ghost" scene_short
    (execute_transition sample_repr "Alpha" "Ghost" scene_short).2
    (Raise IndexError)) as (_ & Hroster & _ & _ & _); [reflexivity|].
  split_and!; [reflexivity|exact Hroster|reflexivity].
Defined.

Lemma fetch_without_credentials_witness :
  ∃ st1 warning,
    set_credentials "" "cup" bracket0 = (Ok tt, st1) ∧
    MATCHES st1 = MATCHES bracket0 ∧
    warning = "[Challonge] API key not set" ∧
    get_matches sample_int net_matches st1
    = (Ok tt, bracket_logged st1 [warning]).
Proof.
  destruct (fetch_without_credentials sample_int "" "cup" net_matches bracket0)
    as (st1 & warning & Hset & _ & Hm & Hw & _ & Hrun); [by left|].
  exists st1, warning. split_and!; [exact Hset|exact Hm|exact Hw|exact Hrun].
Defined.

Lemma _api_request_total_witness :
  fetch_failed (net_down (api_url "/tournaments/cup/matches.json")) ∧
  ∃ msgs, msgs ≠ [] ∧
    _api_request net_down "/tournaments/cup/matches.json" bracket0
    = (Ok JNull, bracket_logged bracket0 msgs).
Proof.
  split; [exact I|].
  apply (proj1 (proj2 (_api_request_total net_down
                         "/tournaments/cup/matches.json" bracket0))).
  right. exact I.
Defined.

Lemma get_participants_loads_witness :
  ∃ st',
    get_participants sample_int net_cup bracket0 = (Ok tt, st') ∧
    MATCHES st' = MATCHES bracket0 ∧
    (size (PARTICIPANTS st') ≤ 3)%nat ∧
    (7 ∈ dom (PARTICIPANTS st') ↔
     ∃ p, p ∈ participant_records ∧ participant_id_of sample_int p = Some 7).
Proof.
  destruct (get_participants_loads sample_int net_cup bracket0
    [("data", JArr participant_records)] participant_records)
    as (st' & Hrun & Hm & _ & _ & _ & Hsize & Hdom & _);
    [done|done|reflexivity..|].
  exists st'. split_and!; [exact Hrun|exact Hm|exact Hsize|exact (Hdom 7)].
Defined.

Lemma get_matches_stops_midway_witness :
  ∃ st',
    get_matches sample_int net_broken_matches bracket0 = (Raise KeyError, st') ∧
    MATCHES st' = {[ 1 := (JStr "Beta", JStr "Alpha") ]} ∧
    PARTICIPANTS st' = PARTICIPANTS bracket0 ∧
    bracket_out st' = bracket_out bracket0.
Proof.
  destruct (get_matches_stops_midway sample_int net_broken_matches bracket0
    [("data", JArr (take 1 match_records
                    ++ record_without_attributes :: drop 1 match_records))]
    (take 1 match_records) (drop 1 match_records) record_without_attributes
    KeyError)
    as (st' & Hrun & Hm & _ & Hp & Hout); [done|done|reflexivity..|].
  exists st'. split_and!; [exact Hrun| |exact Hp|exact Hout].
  rewrite Hm. reflexivity.
Defined.


Lemma refresh_bracket_stale_witness :
  fetch_failed (net_cup_matches_only (participants_url bracket0)) ∧
  ∃ st',
    refresh_bracket sample_int (λ _, "") (λ _, "") net_cup_matches_only
      bracket0 = (Ok tt, st') ∧
    PARTICIPANTS st' = PARTICIPANTS bracket0 ∧
    MATCHES st' = {[ 1 := (JStr "Beta", JStr "Alpha"); 2 := (JNull, JNull) ]}.
Proof.
  split; [exact I|].
  destruct (refresh_bracket_stale sample_int (λ _, "") (λ _, "")
    net_cup_matches_only bracket0 [("data", JArr match_records)] match_records)
    as (st' & Hrun & Hp & Hm); [done|done|exact I|reflexivity..|].
  exists st'. split_and!; [exact Hrun|exact Hp|].
  rewrite Hm. reflexivity.
Defined.
